(** * R2R dashboard: the log table's query engine, the deploy form and the
      pipeline store

    A shallow embedding of the parts of the dashboard that carry behaviour:

    - [Retrieval] (web/src/components/Layout/index.tsx, second document):
      category exclusion, page window, sort, text filter;
    - the deploy form's [handleSubmit] (first unnamed source part);
    - [updatePipelines] of the pipeline context (second unnamed source part).

    The sources are TypeScript running on a JavaScript engine, so the file
    starts with the fragment of ECMAScript the three components rely on
    (module [Js]): strings, binary64 numbers, dynamically typed values and
    their conversions, the relational operators, and the array methods
    [slice], [filter], [some] and [sort]. *)

From stdpp Require Import gmap strings.
From Stdlib Require Import ZArith List String Ascii Bool Lia Permutation.
From Stdlib Require Import Sorting.Sorted DecimalString.
From Stdlib Require Import Floats.SpecFloat.
Import ListNotations.

Local Open Scope string_scope.
Local Open Scope list_scope.
Local Open Scope Z_scope.

Local Set Warnings "-register-all".

(* ===================================================================== *)
(** * The ECMAScript fragment *)
(* ===================================================================== *)

Module Js.

(** ** Completions: a call either returns or throws *)

Inductive Error : Type :=
| TypeError (message : string).

Inductive completion (A : Type) : Type :=
| Normal (value : A)
| Throw (error : Error).

Arguments Normal {A} value.
Arguments Throw {A} error.

Definition bind {A B : Type} (c : completion A) (k : A -> completion B)
  : completion B :=
  match c with
  | Normal a => k a
  | Throw e => Throw e
  end.

Notation "'let*' x := c 'in' k" := (bind c (fun x => k))
  (at level 10, x name, c at level 100, k at level 200).

(** ** Strings

    A [string] stands for the JavaScript string with the same code units;
    the model covers strings whose code units are all below 256 (the
    Latin-1 block), on which [toLowerCase] is closed. *)

Definition code (c : ascii) : N := N_of_ascii c.

(** String.prototype.toLowerCase on one code unit: A-Z and the capital
    letters U+00C0..U+00DE (U+00D7, the multiplication sign, excepted) move
    up by 32; everything else below 256 is its own lower case. *)
Definition lower_code_unit (c : ascii) : ascii :=
  let n := code c in
  if ((65 <=? n) && (n <=? 90)
      || (192 <=? n) && (n <=? 222) && negb (n =? 215))%N
  then ascii_of_N (n + 32)
  else c.

Fixpoint toLowerCase (s : string) : string :=
  match s with
  | EmptyString => EmptyString
  | String c rest => String (lower_code_unit c) (toLowerCase rest)
  end.

(** String.prototype.includes(searchString), from position 0. *)
Fixpoint includes (s searchString : string) : bool :=
  String.prefix searchString s
  || match s with
     | EmptyString => false
     | String _ rest => includes rest searchString
     end.

(** IsLessThan on two strings: lexicographic on code units. *)
Fixpoint string_lessThan (x y : string) : bool :=
  match x, y with
  | _, EmptyString => false
  | EmptyString, String _ _ => true
  | String a x', String b y' =>
      if (code a <? code b)%N then true
      else if (code b <? code a)%N then false
      else string_lessThan x' y'
  end.

Fixpoint string_rev_append (s acc : string) : string :=
  match s with
  | EmptyString => acc
  | String c rest => string_rev_append rest (String c acc)
  end.

Definition string_rev (s : string) : string := string_rev_append s EmptyString.

Fixpoint string_drop (n : nat) (s : string) : string :=
  match n, s with
  | O, _ => s
  | S n', String _ rest => string_drop n' rest
  | S _, EmptyString => EmptyString
  end.

Fixpoint string_take (n : nat) (s : string) : string :=
  match n, s with
  | O, _ => EmptyString
  | S n', String c rest => String c (string_take n' rest)
  | S _, EmptyString => EmptyString
  end.

Fixpoint string_repeat (c : ascii) (n : nat) : string :=
  match n with
  | O => EmptyString
  | S n' => String c (string_repeat c n')
  end.

(** StrWhiteSpaceChar, below 256: TAB, LF, VT, FF, CR, SP and NBSP. *)
Definition is_whitespace (c : ascii) : bool :=
  let n := code c in
  ((9 <=? n) && (n <=? 13) || (n =? 32) || (n =? 160))%N.

Fixpoint trim_start (s : string) : string :=
  match s with
  | String c rest => if is_whitespace c then trim_start rest else s
  | EmptyString => EmptyString
  end.

Definition trim_end (s : string) : string :=
  string_rev (trim_start (string_rev s)).

Definition trim (s : string) : string := trim_end (trim_start s).

(** ** Numbers: IEEE 754 binary64 *)

Definition prec : Z := 53.
Definition emax : Z := 1024.

Definition Number : Type := spec_float.

Definition NaN : Number := S754_nan.
Definition Infinity (negative : bool) : Number := S754_infinity negative.

Definition isNaN (x : Number) : bool :=
  match x with
  | S754_nan => true
  | _ => false
  end.

(** Number::lessThan; [None] is the specification's "undefined", the
    answer when an operand is NaN. *)
Definition Number_lessThan (x y : Number) : option bool :=
  match SFcompare x y with
  | Some Lt => Some true
  | Some _ => Some false
  | None => None
  end.

(** The place of a number on the extended real line: the sign class,
    then exponent and mantissa, reversed for the negative numbers.
    Positions are compared lexicographically. *)
Definition rank (x : Number) : Z * (Z * Z) :=
  match x with
  | S754_infinity true => (-2, (0, 0))
  | S754_finite true m e => (-1, (- e, - Zpos m))
  | S754_zero _ | S754_nan => (0, (0, 0))
  | S754_finite false m e => (1, (e, Zpos m))
  | S754_infinity false => (2, (0, 0))
  end.

Definition rank_lt (p q : Z * (Z * Z)) : Prop :=
  fst p < fst q
  \/ fst p = fst q
     /\ (fst (snd p) < fst (snd q)
         \/ fst (snd p) = fst (snd q) /\ snd (snd p) < snd (snd q)).

(** The binary64 nearest to [m * 10 ^ e10] (ties to even), with the sign
    [negative]: the rounding of a decimal literal's mathematical value. *)
Definition number_of_decimal (negative : bool) (m e10 : Z) : Number :=
  match m with
  | Zpos p =>
      if 0 <=? e10
      then binary_normalize prec emax
             (cond_Zopp negative (m * 10 ^ e10)) 0 negative
      else SFdiv prec emax
             (S754_finite negative p 0)
             (S754_finite false (Z.to_pos (10 ^ (- e10))) 0)
  | _ => S754_zero negative
  end.

(** The binary64 nearest to the integer [m]. *)
Definition number_of_Z (m : Z) : Number :=
  binary_normalize prec emax m 0 false.

(** *** Decimal digits *)

Definition is_digit (c : ascii) : bool :=
  ((48 <=? code c) && (code c <=? 57))%N.

Definition digit_value (c : ascii) : Z := Z.of_N (code c) - 48.

Fixpoint take_digits (s : string) : string * string :=
  match s with
  | String c rest =>
      if is_digit c
      then let (ds, tail) := take_digits rest in (String c ds, tail)
      else (EmptyString, s)
  | EmptyString => (EmptyString, EmptyString)
  end.

Fixpoint digits_value_from (acc : Z) (ds : string) : Z :=
  match ds with
  | EmptyString => acc
  | String c rest => digits_value_from (acc * 10 + digit_value c) rest
  end.

Definition digits_value (ds : string) : Z := digits_value_from 0 ds.

Definition decimal_digits (n : Z) : string :=
  NilZero.string_of_uint (N.to_uint (Z.to_N n)).

Definition string_length (s : string) : Z := Z.of_nat (String.length s).

(** *** Number::toString (radix 10)

    The digits are the shortest decimal [s * 10 ^ (n - k)], with [k] digits,
    that reads back as the same binary64; of two such, the nearer to the
    exact value. *)

Definition canonical (x : Number) : Number :=
  match x with
  | S754_finite s m e => binary_round prec emax s m e
  | _ => x
  end.

Definition same_finite (x y : Number) : bool :=
  match x, y with
  | S754_finite s1 m1 e1, S754_finite s2 m2 e2 =>
      Bool.eqb s1 s2 && Pos.eqb m1 m2 && Z.eqb e1 e2
  | _, _ => false
  end.

(** [num / den] is at least [10 ^ n]. *)
Definition at_least_pow10 (num den n : Z) : bool :=
  if 0 <=? n then den * 10 ^ n <=? num else den <=? num * 10 ^ (- n).

(** The [n] with [10 ^ (n - 1) <= num / den < 10 ^ n], searched from a
    first guess. *)
Fixpoint decimal_exponent (fuel : nat) (num den n : Z) : Z :=
  match fuel with
  | O => n
  | S fuel' =>
      if at_least_pow10 num den n
      then decimal_exponent fuel' num den (n + 1)
      else if at_least_pow10 num den (n - 1) then n
      else decimal_exponent fuel' num den (n - 1)
  end.

(** The integer part of [(num / den) / 10 ^ p]. *)
Definition scaled_floor (num den p : Z) : Z :=
  if 0 <=? p then num / (den * 10 ^ p) else (num * 10 ^ (- p)) / den.

(** Twice [num / den] against [(2 s + 1) * 10 ^ p]: which of [s] and
    [s + 1] is the nearer multiple of [10 ^ p]. *)
Definition midpoint_compare (num den s p : Z) : comparison :=
  if 0 <=? p
  then (2 * num) ?= ((2 * s + 1) * 10 ^ p * den)
  else (2 * num * 10 ^ (- p)) ?= ((2 * s + 1) * den).

Definition digits_candidate (x : Number) (num den n k : Z) : option Z :=
  let p := n - k in
  let s1 := scaled_floor num den p in
  let s2 := s1 + 1 in
  let ok1 := same_finite (number_of_decimal false s1 p) x in
  let ok2 := same_finite (number_of_decimal false s2 p) x in
  match ok1, ok2 with
  | true, true =>
      Some match midpoint_compare num den s1 p with
           | Lt => s1
           | Gt => s2
           | Eq => if Z.even s1 then s1 else s2
           end
  | true, false => Some s1
  | false, true => Some s2
  | false, false => None
  end.

Fixpoint shortest_digits (fuel : nat) (x : Number) (num den n k : Z)
  : Z * Z :=
  match fuel with
  | O => (scaled_floor num den (n - k), k)
  | S fuel' =>
      match digits_candidate x num den n k with
      | Some s => (s, k)
      | None => shortest_digits fuel' x num den n (k + 1)
      end
  end.

Definition zeros (n : Z) : string := string_repeat "0"%char (Z.to_nat n).

Definition format_digits (ds : string) (k n : Z) : string :=
  if (k <=? n) && (n <=? 21) then ds +:+ zeros (n - k)
  else if (0 <? n) && (n <=? 21)
  then string_take (Z.to_nat n) ds +:+ "." +:+ string_drop (Z.to_nat n) ds
  else if (-6 <? n) && (n <=? 0) then "0." +:+ zeros (- n) +:+ ds
  else
    let e := n - 1 in
    let sign := if e <? 0 then "-" else "+" in
    if k =? 1 then ds +:+ "e" +:+ sign +:+ decimal_digits (Z.abs e)
    else string_take 1 ds +:+ "." +:+ string_drop 1 ds
         +:+ "e" +:+ sign +:+ decimal_digits (Z.abs e).

Definition positive_toString (m : positive) (e : Z) : string :=
  let num := if 0 <=? e then Zpos m * 2 ^ e else Zpos m in
  let den := if 0 <=? e then 1 else 2 ^ (- e) in
  let guess := (Z.log2 num - Z.log2 den) * 30103 / 100000 in
  let n := decimal_exponent 700 num den guess in
  let (s, k) := shortest_digits 17 (S754_finite false m e) num den n 1 in
  if s =? 10 ^ k then format_digits "1" 1 (n + 1)
  else format_digits (decimal_digits s) k n.

Definition Number_toString (x : Number) : string :=
  match canonical x with
  | S754_nan => "NaN"
  | S754_zero _ => "0"
  | S754_infinity false => "Infinity"
  | S754_infinity true => "-Infinity"
  | S754_finite false m e => positive_toString m e
  | S754_finite true m e => "-" +:+ positive_toString m e
  end.

(** *** Reading numbers

    StrDecimalLiteral: an optional sign, then [Infinity] or decimal digits
    with an optional fraction and an optional exponent. [parse_decimal]
    reads the longest prefix that is one and returns the rest. *)

Definition parse_sign (s : string) : bool * string :=
  match s with
  | String c rest =>
      if Ascii.eqb c "-" then (true, rest)
      else if Ascii.eqb c "+" then (false, rest)
      else (false, s)
  | EmptyString => (false, s)
  end.

Definition parse_exponent (s : string) : Z * string :=
  match s with
  | String c rest =>
      if Ascii.eqb c "e" || Ascii.eqb c "E"
      then
        let (negative, r) := parse_sign rest in
        let (ds, tail) := take_digits r in
        match ds with
        | EmptyString => (0, s)
        | _ => (cond_Zopp negative (digits_value ds), tail)
        end
      else (0, s)
  | EmptyString => (0, s)
  end.

Definition parse_unsigned (negative : bool) (s : string)
  : option (Number * string) :=
  if String.prefix "Infinity" s
  then Some (Infinity negative, string_drop 8 s)
  else
    let (int_part, r1) := take_digits s in
    let (frac_part, r2) :=
      match r1 with
      | String c r =>
          if Ascii.eqb c "."
          then
            let (fs, tail) := take_digits r in
            match int_part, fs with
            | EmptyString, EmptyString => (EmptyString, r1)
            | _, _ => (fs, tail)
            end
          else (EmptyString, r1)
      | EmptyString => (EmptyString, r1)
      end in
    match int_part, frac_part with
    | EmptyString, EmptyString => None
    | _, _ =>
        let (e, r3) := parse_exponent r2 in
        Some (number_of_decimal negative
                (digits_value (int_part +:+ frac_part))
                (e - string_length frac_part),
              r3)
    end.

Definition parse_decimal (s : string) : option (Number * string) :=
  let (negative, rest) := parse_sign s in parse_unsigned negative rest.

(** NonDecimalIntegerLiteral: 0x, 0o and 0b literals, unsigned. *)
Definition radix_digit (radix : Z) (c : ascii) : option Z :=
  let n := Z.of_N (code c) in
  let d := if (48 <=? n) && (n <=? 57) then n - 48
           else if (97 <=? n) && (n <=? 122) then n - 87
           else if (65 <=? n) && (n <=? 90) then n - 55
           else radix in
  if d <? radix then Some d else None.

Fixpoint radix_value (radix acc : Z) (s : string) : option Z :=
  match s with
  | EmptyString => Some acc
  | String c rest =>
      match radix_digit radix c with
      | Some d => radix_value radix (acc * radix + d) rest
      | None => None
      end
  end.

Definition parse_non_decimal (s : string) : option Number :=
  match s with
  | String z (String x (String d ds)) =>
      let radix := if Ascii.eqb x "x" || Ascii.eqb x "X" then 16
                   else if Ascii.eqb x "o" || Ascii.eqb x "O" then 8
                   else if Ascii.eqb x "b" || Ascii.eqb x "B" then 2
                   else 0 in
      if Ascii.eqb z "0" && (0 <? radix)
      then option_map number_of_Z (radix_value radix 0 (String d ds))
      else None
  | _ => None
  end.

(** StringToNumber: the whole trimmed string must be a numeric literal;
    the empty string is +0. *)
Definition StringToNumber (s : string) : Number :=
  match trim s with
  | EmptyString => S754_zero false
  | t =>
      match parse_non_decimal t with
      | Some x => x
      | None =>
          match parse_decimal t with
          | Some (x, EmptyString) => x
          | _ => NaN
          end
      end
  end.

(** ** Values

    The values a fetched record can hold: the JSON values, and [undefined].
    [VObject] is a plain object, which takes [toString] and [valueOf] from
    Object.prototype unless a key of its own hides them; its list gives
    the own enumerable properties in the order the engine enumerates
    them. *)

Inductive Value : Type :=
| VUndefined
| VNull
| VBool (b : bool)
| VNumber (x : Number)
| VString (s : string)
| VArray (elements : list Value)
| VObject (properties : list (string * Value)).

Definition Properties : Type := list (string * Value).

(** Neither [undefined] nor [null]. *)
Definition defined (v : Value) : bool :=
  match v with
  | VUndefined | VNull => false
  | _ => true
  end.

(** [o[key]] on own properties; an absent key reads as [undefined]. *)
Fixpoint Get (o : Properties) (key : string) : Value :=
  match o with
  | [] => VUndefined
  | (k, v) :: rest => if String.eqb k key then v else Get rest key
  end.

(** Object.values(o). *)
Definition Object_values (o : Properties) : list Value := map snd o.

Fixpoint join (separator : string) (parts : list string) : string :=
  match parts with
  | [] => EmptyString
  | [p] => p
  | p :: rest => p +:+ separator +:+ join separator rest
  end.

(** ToString. An array is its elements joined by commas, [undefined] and
    [null] elements giving the empty string (Array.prototype.join). *)
Fixpoint ToString (v : Value) : string :=
  match v with
  | VUndefined => "undefined"
  | VNull => "null"
  | VBool true => "true"
  | VBool false => "false"
  | VNumber x => Number_toString x
  | VString s => s
  | VArray elements =>
      join ","
        (map (fun e => match e with
                       | VUndefined | VNull => EmptyString
                       | _ => ToString e
                       end)
             elements)
  | VObject _ => "[object Object]"
  end.

(** [o.hasOwnProperty(key)] *)
Definition hasOwnProperty (o : Properties) (key : string) : bool :=
  existsb (fun property => String.eqb (fst property) key) o.

(** The conversion of [v] to a primitive returns. The value of an own
    [toString] key is JSON, never a function, and the inherited [valueOf]
    returns the object itself: an object with such a key converts to
    nothing and the conversion throws a TypeError, and so does the
    conversion of an array that holds one, since it joins the strings of
    its elements. [ToString], [ToPrimitive] and what is built on them
    ([<], [>], [parseFloat]) give the code's result on the convertible
    values. *)
Fixpoint convertible (v : Value) : bool :=
  match v with
  | VObject properties => negb (hasOwnProperty properties "toString")
  | VArray elements => forallb convertible elements
  | _ => true
  end.

(** The method call [value.toString()]: reading a property of [undefined]
    or [null] throws; an own [toString] key of an object hides the method
    and the call throws; an array joins the strings of its elements, and
    throws if one of them does not convert. *)
Definition toString_call (v : Value) : completion string :=
  match v with
  | VUndefined =>
      Throw (TypeError
               "Cannot read properties of undefined (reading 'toString')")
  | VNull =>
      Throw (TypeError "Cannot read properties of null (reading 'toString')")
  | VObject properties =>
      if hasOwnProperty properties "toString"
      then Throw (TypeError "value.toString is not a function")
      else Normal (ToString v)
  | VArray _ =>
      if convertible v then Normal (ToString v)
      else Throw (TypeError "Cannot convert object to primitive value")
  | _ => Normal (ToString v)
  end.

(** [value.toString()] returns. *)
Definition hasToString (v : Value) : bool := defined v && convertible v.

(** ToPrimitive with hint number, on a convertible value: [valueOf] of an
    array or a plain object returns the object itself, so its [toString]
    decides. *)
Definition ToPrimitive (v : Value) : Value :=
  match v with
  | VArray _ | VObject _ => VString (ToString v)
  | _ => v
  end.

(** ToNumber, on a primitive. *)
Definition ToNumber (v : Value) : Number :=
  match v with
  | VUndefined => NaN
  | VNull => S754_zero false
  | VBool true => number_of_Z 1
  | VBool false => S754_zero false
  | VNumber x => x
  | VString s => StringToNumber s
  | VArray _ | VObject _ => StringToNumber (ToString v)
  end.

(** IsLessThan(x, y): two strings compare by code units, anything else as
    numbers; [None] when a number is NaN. *)
Definition IsLessThan (x y : Value) : option bool :=
  match ToPrimitive x, ToPrimitive y with
  | VString sx, VString sy => Some (string_lessThan sx sy)
  | px, py => Number_lessThan (ToNumber px) (ToNumber py)
  end.

(** [x < y] and [x > y]. *)
Definition lessThan (x y : Value) : bool :=
  match IsLessThan x y with
  | Some b => b
  | None => false
  end.

Definition greaterThan (x y : Value) : bool :=
  match IsLessThan y x with
  | Some b => b
  | None => false
  end.

(** [v !== s] for a string literal [s]. *)
Definition strictly_differs (v : Value) (s : string) : bool :=
  match v with
  | VString t => negb (String.eqb t s)
  | _ => true
  end.

(** parseFloat(v): ToString, skip leading white space, read the longest
    decimal literal; NaN when there is none. *)
Definition parseFloat (v : Value) : Number :=
  match parse_decimal (trim_start (ToString v)) with
  | Some (x, _) => x
  | None => NaN
  end.

(** ** Arrays *)

Section Arrays.
Context {A : Type}.

(** Array.prototype.slice(start, end) for integral arguments: a negative
    index counts from the end, and both are clamped to the array. *)
Definition relative_index (len i : Z) : Z :=
  if i <? 0 then Z.max (len + i) 0 else Z.min i len.

Definition slice (arr : list A) (start end_ : Z) : list A :=
  let len := Z.of_nat (List.length arr) in
  let k := relative_index len start in
  let final := relative_index len end_ in
  firstn (Z.to_nat (Z.max (final - k) 0)) (skipn (Z.to_nat k) arr).

(** Array.prototype.filter with a callback that may throw. *)
Fixpoint filter_array (callback : A -> completion bool) (arr : list A)
  : completion (list A) :=
  match arr with
  | [] => Normal []
  | x :: rest =>
      let* keep := callback x in
      let* kept := filter_array callback rest in
      Normal (if keep then x :: kept else kept)
  end.

(** Array.prototype.some: stops at the first element the callback
    accepts. *)
Fixpoint some (callback : A -> completion bool) (arr : list A)
  : completion bool :=
  match arr with
  | [] => Normal false
  | x :: rest =>
      let* found := callback x in
      if found then Normal true else some callback rest
  end.

(** *** Array.prototype.sort(comparefn)

    ECMAScript asks for a stable sort and leaves the order to the
    implementation when [comparefn] is not a consistent comparison of
    the elements. The model follows V8 (Chrome, Node.js): TimSort, which
    on an array of fewer than 64 elements is one detected run (reversed
    if strictly descending) extended by binary insertion. Every page
    window sorted here has at most ten elements. *)

Variable comparefn : A -> A -> Z.

(** The binary search of BinaryInsertionSort: the place of [pivot] in
    the sorted [work], between [left] and [right]. *)
Fixpoint binary_search (fuel : nat) (work : list A) (pivot : A)
    (left right : nat) : nat :=
  match fuel with
  | O => left
  | S fuel' =>
      if (left <? right)%nat
      then
        let mid := (left + Nat.div2 (right - left))%nat in
        match nth_error work mid with
        | Some x =>
            if comparefn pivot x <? 0
            then binary_search fuel' work pivot left mid
            else binary_search fuel' work pivot (S mid) right
        | None => left
        end
      else left
  end.

Definition insert_at (work : list A) (position : nat) (pivot : A)
  : list A :=
  firstn position work ++ pivot :: skipn position work.

Definition insert_pivot (work : list A) (pivot : A) : list A :=
  insert_at work
    (binary_search (List.length work) work pivot 0 (List.length work))
    pivot.

(** BinaryInsertionSort(low, start, high): [sorted] is the range
    [low, start), [pending] the range [start, high). *)
Definition BinaryInsertionSort (sorted pending : list A) : list A :=
  fold_left insert_pivot pending sorted.

(** The loop of CountAndMakeRun: how many elements after [previous]
    continue the run. *)
Fixpoint run_tail (descending : bool) (previous : A) (rest : list A)
  : nat :=
  match rest with
  | [] => O
  | current :: rest' =>
      let order := comparefn current previous in
      if (if descending then 0 <=? order else order <? 0)
      then O
      else S (run_tail descending current rest')
  end.

(** CountAndMakeRun(0, length): the leading run, made ascending, and the
    elements after it. *)
Definition CountAndMakeRun (arr : list A) : list A * list A :=
  match arr with
  | elementHigh :: elementLow :: rest =>
      let descending := comparefn elementLow elementHigh <? 0 in
      let runLength := S (S (run_tail descending elementLow rest)) in
      let run := firstn runLength arr in
      (if descending then rev run else run, skipn runLength arr)
  | _ => (arr, [])
  end.

Definition sort (arr : list A) : list A :=
  let (run, pending) := CountAndMakeRun arr in
  BinaryInsertionSort run pending.

(** [comparefn] is a consistent comparison of the elements of [arr]:
    swapping the arguments swaps the sign, and "not after" is
    transitive. Then the elements fall into classes of ties and the
    classes are totally ordered. *)
Definition consistent (arr : list A) : bool :=
  forallb (fun x =>
    forallb (fun y =>
      Bool.eqb (comparefn x y <? 0) (0 <? comparefn y x)
      && forallb (fun z =>
           implb ((comparefn x y <=? 0) && (comparefn y z <=? 0))
                 (comparefn x z <=? 0)) arr) arr) arr.

(** No element is placed before one it must follow. *)
Definition sorted_by (arr : list A) : Prop :=
  StronglySorted (fun x y => comparefn x y <= 0) arr.

(** The elements of [arr] that compare equal to [a], in order. *)
Definition ties (a : A) (arr : list A) : list A :=
  List.filter (fun x => comparefn a x =? 0) arr.

(** Some occurrence of [a] comes before some occurrence of [b]. *)
Definition precedes (a b : A) (arr : list A) : Prop :=
  exists l1 l2 l3, arr = l1 ++ a :: l2 ++ b :: l3.


(** Stability: two elements that compare equal keep their order. *)
Definition stable (input output : list A) : Prop :=
  forall a b,
    comparefn a b = 0 -> precedes a b input -> precedes a b output.

End Arrays.

(** ** More of the language, for the cells and the smaller components *)

(** ToBoolean. *)
Definition ToBoolean (v : Value) : bool :=
  match v with
  | VUndefined | VNull => false
  | VBool b => b
  | VNumber (S754_zero _) | VNumber S754_nan => false
  | VNumber _ => true
  | VString s => negb (String.eqb s EmptyString)
  | VArray _ | VObject _ => true
  end.

(** [v === s] for a string literal [s]. *)
Definition strictly_equals (v : Value) (s : string) : bool :=
  negb (strictly_differs v s).

(** Number::equal. *)
Definition Number_equal (x y : Number) : bool := SFeqb x y.

(** [v == s] for a string [s]: a string compares as such, a number or a
    boolean with the number the string reads as, an array or object
    through its primitive, which throws when there is none; [undefined]
    and [null] equal no string. *)
Definition looselyEqualsString (v : Value) (s : string) : completion bool :=
  match v with
  | VUndefined | VNull => Normal false
  | VString t => Normal (String.eqb t s)
  | VNumber _ | VBool _ =>
      Normal (Number_equal (ToNumber v) (StringToNumber s))
  | VArray _ | VObject _ =>
      if convertible v then Normal (String.eqb (ToString v) s)
      else Throw (TypeError "Cannot convert object to primitive value")
  end.

(** String.prototype.substring(start, end): both ends are clamped to the
    string and swapped if out of order. *)
Definition substring (s : string) (start end_ : Z) : string :=
  let len := string_length s in
  let a := Z.min (Z.max start 0) len in
  let b := Z.min (Z.max end_ 0) len in
  string_take (Z.to_nat (Z.max a b - Z.min a b))
    (string_drop (Z.to_nat (Z.min a b)) s).

(** String.prototype.slice(start, end). *)
Definition string_slice (s : string) (start end_ : Z) : string :=
  let len := string_length s in
  let k := relative_index len start in
  let final := relative_index len end_ in
  string_take (Z.to_nat (Z.max (final - k) 0)) (string_drop (Z.to_nat k) s).

(** String.prototype.split(separator) for a separator of one code unit:
    the pieces between the separators, never an empty array. *)
Fixpoint split (separator : ascii) (s : string) : list string :=
  match s with
  | EmptyString => [EmptyString]
  | String c rest =>
      match split separator rest with
      | piece :: pieces =>
          if Ascii.eqb c separator
          then EmptyString :: piece :: pieces
          else String c piece :: pieces
      | [] => [String c EmptyString]
      end
  end.

(** The value of Array.prototype.pop(): the last element, if any. *)
Fixpoint pop {A : Type} (arr : list A) : option A :=
  match arr with
  | [] => None
  | [x] => Some x
  | _ :: rest => pop rest
  end.

(** Array.prototype.includes on strings. *)
Definition includes_item (arr : list string) (x : string) : bool :=
  existsb (String.eqb x) arr.

(** An array index as a property key: decimal digits without a leading
    zero. *)
Definition array_index (key : string) : option nat :=
  match take_digits key with
  | (EmptyString, _) => None
  | (ds, EmptyString) =>
      if String.eqb (decimal_digits (digits_value ds)) key
      then Some (Z.to_nat (digits_value ds))
      else None
  | _ => None
  end.

(** Reading the property [key] of a value, for a key that names no member
    of the built-in prototypes (the components read [length], [0], [text],
    [reason], [score], [type] and [id]): [undefined] and [null] have no
    properties, a string and an array have their length and their indexed
    elements, an object its own properties. *)
Definition GetV (v : Value) (key : string) : completion Value :=
  match v with
  | VUndefined =>
      Throw (TypeError ("Cannot read properties of undefined (reading '"
                        +:+ key +:+ "')"))
  | VNull =>
      Throw (TypeError ("Cannot read properties of null (reading '"
                        +:+ key +:+ "')"))
  | VBool _ | VNumber _ => Normal VUndefined
  | VString s =>
      if String.eqb key "length" then Normal (VNumber (number_of_Z (string_length s)))
      else match array_index key with
           | Some i =>
               match String.get i s with
               | Some c => Normal (VString (String c EmptyString))
               | None => Normal VUndefined
               end
           | None => Normal VUndefined
           end
  | VArray elements =>
      if String.eqb key "length"
      then Normal (VNumber (number_of_Z (Z.of_nat (List.length elements))))
      else match array_index key with
           | Some i =>
               match nth_error elements i with
               | Some e => Normal e
               | None => Normal VUndefined
               end
           | None => Normal VUndefined
           end
  | VObject properties => Normal (Get properties key)
  end.

(** Object.entries of a value that is not [undefined] or [null]. *)
Fixpoint indexed {A : Type} (from : nat) (l : list A) : list (string * A) :=
  match l with
  | [] => []
  | x :: rest => (decimal_digits (Z.of_nat from), x) :: indexed (S from) rest
  end.

Definition Object_entries (v : Value) : list (string * Value) :=
  match v with
  | VObject properties => properties
  | VArray elements => indexed O elements
  | VString s =>
      indexed O (map (fun c => VString (String c EmptyString))
                     (list_ascii_of_string s))
  | _ => []
  end.

(** ** Header values (Fetch)

    [new Headers(init)] strips the leading and trailing HTTP white space
    (TAB, LF, CR, SP) of a value and throws a TypeError if a NUL, LF or CR
    is left in it. *)
Definition is_http_whitespace (c : ascii) : bool :=
  let n := code c in ((n =? 9) || (n =? 10) || (n =? 13) || (n =? 32))%N.

Definition is_forbidden_in_header (c : ascii) : bool :=
  let n := code c in ((n =? 0) || (n =? 10) || (n =? 13))%N.

Fixpoint strip_start (s : string) : string :=
  match s with
  | String c rest => if is_http_whitespace c then strip_start rest else s
  | EmptyString => EmptyString
  end.

Fixpoint strip_end (s : string) : string :=
  match s with
  | EmptyString => EmptyString
  | String c rest =>
      match strip_end rest with
      | EmptyString =>
          if is_http_whitespace c then EmptyString else String c EmptyString
      | stripped => String c stripped
      end
  end.

Definition normalizedHeaderValue (value : string) : string :=
  strip_end (strip_start value).

Fixpoint every_code_unit (test : ascii -> bool) (s : string) : bool :=
  match s with
  | EmptyString => true
  | String c rest => test c && every_code_unit test rest
  end.

(** [new Headers] accepts the value. *)
Definition validHeaderValue (value : string) : bool :=
  every_code_unit (fun c => negb (is_forbidden_in_header c))
    (normalizedHeaderValue value).

(** A code unit that a header value keeps wherever it stands. *)
Definition is_kept_in_header (c : ascii) : bool :=
  negb (is_http_whitespace c) && negb (is_forbidden_in_header c).

End Js.

(* ===================================================================== *)
(** * The log table: [Retrieval] (components/Layout/index.tsx) *)
(* ===================================================================== *)

Module Retrieval.
Import Js.

(** A fetched log is a plain object; the component reads it by key
    ([log.pipelineRunType], [a[sortField]]) and through [Object.values]. *)
Definition LogRecord : Type := Properties.

Inductive SortDirection : Type := asc | desc.

(** The component's state: [useState(1)], [useState('timestamp')],
    [useState('desc')], [useState('')]. [sortField] has type
    [string | null]. *)
Record UiState : Type := {
  currentPage : Z;
  sortField : option string;
  sortDirection : SortDirection;
  filterQuery : string
}.

Definition initialState : UiState :=
  {| currentPage := 1;
     sortField := Some "timestamp";
     sortDirection := desc;
     filterQuery := "" |}.

Definition itemsPerPage : Z := 10.

Definition indexOfLastItem (currentPage : Z) : Z := currentPage * itemsPerPage.

Definition indexOfFirstItem (currentPage : Z) : Z :=
  indexOfLastItem currentPage - itemsPerPage.

(** [log.pipelineRunType !== 'embedding'] *)
Definition not_embedding (log : LogRecord) : bool :=
  strictly_differs (Get log "pipelineRunType") "embedding".

Definition filteredLogs (logs : list LogRecord) : list LogRecord :=
  List.filter not_embedding logs.

Definition currentItems (logs : list LogRecord) (currentPage : Z)
  : list LogRecord :=
  slice (List.filter not_embedding logs)
    (indexOfFirstItem currentPage) (indexOfLastItem currentPage).

(** The comparison function handed to [sort], on records whose sort keys
    convert to primitives ([convertible]); on a key that does not, [<] and
    [parseFloat] throw and the sort with them. *)
Definition compareItems (sortField : string) (sortDirection : SortDirection)
    (a b : LogRecord) : Z :=
  let valueA :=
    if String.eqb sortField "score"
    then VNumber (parseFloat (Get a "score"))
    else Get a sortField in
  let valueB :=
    if String.eqb sortField "score"
    then VNumber (parseFloat (Get b "score"))
    else Get b sortField in
  if lessThan valueA valueB
  then match sortDirection with asc => -1 | desc => 1 end
  else if greaterThan valueA valueB
  then match sortDirection with asc => 1 | desc => -1 end
  else 0.

(** [if (!sortField) return currentItems]: [null] and the empty string are
    falsy. *)
Definition sortedItems (currentItems : list LogRecord)
    (sortField : option string) (sortDirection : SortDirection)
  : list LogRecord :=
  match sortField with
  | None | Some EmptyString => currentItems
  | Some field => sort (compareItems field sortDirection) currentItems
  end.

(** The callback of [some]: does this value, as a lower-case string,
    contain the lower-case query? *)
Definition valueIncludesQuery (filterQuery : string) (value : Value)
  : completion bool :=
  let* text := toString_call value in
  Normal (includes (toLowerCase text) (toLowerCase filterQuery)).

Definition itemValuesIncludeQuery (filterQuery : string) (item : LogRecord)
  : completion bool :=
  some (valueIncludesQuery filterQuery) (Object_values item).

Definition filteredAndSortedItems (sortedItems : list LogRecord)
    (filterQuery : string) : completion (list LogRecord) :=
  filter_array (itemValuesIncludeQuery filterQuery) sortedItems.

(** What one render shows: the table rows, or the exception that aborted
    the render, and the [totalItems] handed to [Pagination]. *)
Record View : Type := {
  tableRows : completion (list LogRecord);
  totalItems : nat
}.

Definition render (logs : list LogRecord) (ui : UiState) : View :=
  {| tableRows :=
       filteredAndSortedItems
         (sortedItems (currentItems logs (currentPage ui))
            (sortField ui) (sortDirection ui))
         (filterQuery ui);
     totalItems := List.length (filteredLogs logs) |}.

(** The specification's words, to compare the code with. A value matches
    a query when its string form, lower-cased, contains the lower-cased
    query. *)
Definition matches (filterQuery : string) (value : Value) : Prop :=
  exists before after,
    toLowerCase (ToString value)
    = before +:+ toLowerCase filterQuery +:+ after.

Definition matchesb (filterQuery : string) (value : Value) : bool :=
  includes (toLowerCase (ToString value)) (toLowerCase filterQuery).

(** The number of records whose [pipelineRunType] is not ["embedding"]. *)
Fixpoint countNotEmbedding (logs : list LogRecord) : nat :=
  match logs with
  | [] => O
  | log :: rest =>
      match Get log "pipelineRunType" with
      | VString type =>
          if String.eqb type "embedding"
          then countNotEmbedding rest
          else S (countNotEmbedding rest)
      | _ => S (countNotEmbedding rest)
      end
  end.

(** The page window the specification describes: [itemsPerPage] records of
    the category-filtered set, starting after the earlier pages. *)
Definition pageWindow (logs : list LogRecord) (page : Z) : list LogRecord :=
  slice (List.filter not_embedding logs)
    (itemsPerPage * (page - 1)) (itemsPerPage * page).

(** The run a record belongs to, for telling records apart. *)
Definition runId (log : LogRecord) : string :=
  ToString (Get log "pipelineRunId").

(** The handlers: a column header sets the sort field and flips the
    direction; [paginate] sets the page; the search box sets the query. *)
Definition headerClick (field : string) (ui : UiState) : UiState :=
  {| currentPage := currentPage ui;
     sortField := Some field;
     sortDirection := match sortDirection ui with asc => desc | desc => asc end;
     filterQuery := filterQuery ui |}.

Definition paginate (pageNumber : Z) (ui : UiState) : UiState :=
  {| currentPage := pageNumber;
     sortField := sortField ui;
     sortDirection := sortDirection ui;
     filterQuery := filterQuery ui |}.

Definition setFilterQuery (query : string) (ui : UiState) : UiState :=
  {| currentPage := currentPage ui;
     sortField := sortField ui;
     sortDirection := sortDirection ui;
     filterQuery := query |}.

(** The values on which [<] and [>] are both false whatever the other
    side of this kind is: [undefined] and a plain object that converts (it
    has no [toString] key of its own) read as NaN, and [null] is not below
    itself. *)
Definition unordered (v : Value) : bool :=
  match v with
  | VUndefined | VNull => true
  | VObject _ => convertible v
  | _ => false
  end.

Definition isString (v : Value) : bool :=
  match v with
  | VString _ => true
  | _ => false
  end.

(** ** The cells of a row *)

(** [methodDictionary] is an object literal: it has two keys of its own
    and, below them, the members every object inherits from
    Object.prototype. *)
Definition methodDictionary : list (string * string) :=
  [ ("Generate Completion", "RAG"); ("Search", "Search") ].

Definition Object_prototype_members : list string :=
  [ "constructor"; "__defineGetter__"; "__defineSetter__"; "hasOwnProperty";
    "__lookupGetter__"; "__lookupSetter__"; "isPrototypeOf";
    "propertyIsEnumerable"; "toString"; "valueOf"; "__proto__";
    "toLocaleString" ].

Fixpoint ownValue (dictionary : list (string * string)) (key_ : string)
  : option string :=
  match dictionary with
  | [] => None
  | (k, v) :: rest => if String.eqb k key_ then Some v else ownValue rest key_
  end.

(** What [changeMethod] returns: a name to display, or a member inherited
    from Object.prototype (a function or the prototype itself, which is
    truthy, so [||] stops at it). *)
Inductive Displayed : Type :=
| name (text : string)
| inheritedMember (member : string).

(** [methodDictionary[method] || method] *)
Definition changeMethod (method : string) : Displayed :=
  match ownValue methodDictionary method with
  | Some text => name text
  | None =>
      if includes_item Object_prototype_members method
      then inheritedMember method
      else name method
  end.

(** [text.length > limit ? text.substring(0, limit) + '...' : text], on
    whatever value the record holds: only a string has [substring]. *)
Definition truncateText (text : Value) (limit : Z) : completion Value :=
  let* length := GetV text "length" in
  if greaterThan length (VNumber (number_of_Z limit))
  then match text with
       | VString s => Normal (VString (substring s 0 limit +:+ "..."))
       | _ => Throw (TypeError "text.substring is not a function")
       end
  else Normal text.

(** [log.searchQuery ? truncateText(log.searchQuery, 30) : ''] *)
Definition searchQueryCell (log : LogRecord) : completion Value :=
  if ToBoolean (Get log "searchQuery")
  then truncateText (Get log "searchQuery") 30
  else Normal (VString EmptyString).

(** [log.searchResults && log.searchResults.length > 0
      ? truncateText(log.searchResults[0]?.text, 30) : ''] *)
Definition searchResultsCell (log : LogRecord) : completion Value :=
  let searchResults := Get log "searchResults" in
  if ToBoolean searchResults
  then
    let* length := GetV searchResults "length" in
    if greaterThan length (VNumber (number_of_Z 0))
    then
      let* first := GetV searchResults "0" in
      let* text := if defined first then GetV first "text"
                   else Normal VUndefined in
      truncateText text 30
    else Normal (VString EmptyString)
  else Normal (VString EmptyString).

(** [log.completionResult ? truncateText(log.completionResult, 50) : ''] *)
Definition completionResultCell (log : LogRecord) : completion Value :=
  if ToBoolean (Get log "completionResult")
  then truncateText (Get log "completionResult") 50
  else Normal (VString EmptyString).

(** The outcome glyph is a check mark exactly when
    [log.outcome === 'success']. *)
Definition outcomeIsSuccess (log : LogRecord) : bool :=
  strictly_equals (Get log "outcome") "success".

(** [log.outcome === 'success' ? log.score : ''] *)
Definition scoreCell (log : LogRecord) : Value :=
  if outcomeIsSuccess log then Get log "score" else VString EmptyString.

(** The evaluation cell: ['N/A'], or one line per entry of
    [log.evalResults] with the entry's key, its [reason] (the tooltip) and
    its [score]. *)
Record Evaluation : Type := {
  evaluator : string;
  reason : Value;
  evaluationScore : Value
}.

Inductive EvalCell : Type :=
| notAvailable
| evaluations (lines : list Evaluation).

Fixpoint evaluationLines (entries : list (string * Value))
  : completion (list Evaluation) :=
  match entries with
  | [] => Normal []
  | (key_, value_) :: rest =>
      let* reason_ := GetV value_ "reason" in
      let* score_ := GetV value_ "score" in
      let* lines := evaluationLines rest in
      Normal ({| evaluator := key_;
                 reason := reason_;
                 evaluationScore := score_ |} :: lines)
  end.

Definition evalResultsCell (log : LogRecord) : completion EvalCell :=
  if ToBoolean (Get log "evalResults")
  then
    let* lines := evaluationLines (Object_entries (Get log "evalResults")) in
    Normal (evaluations lines)
  else Normal notAvailable.

(** [handleRowClick]: where a click on the row navigates. *)
Definition handleRowClick (runId_ : Value) : string :=
  "/event/" +:+ ToString runId_.

End Retrieval.

(* ===================================================================== *)
(** * The deploy form: [handleSubmit] *)
(* ===================================================================== *)

Module DeployForm.

Record SecretPair : Type := { key : string; value : string }.

Record FormState : Type := {
  secretPairs : list SecretPair;
  selectedApiKey : string;
  newPublicKey : string;
  newPrivateKey : string;
  newApiKeyName : string;
  pipelineName : string;
  githubUrl : string;
  isLoading : bool
}.

Definition initialState : FormState :=
  {| secretPairs := [ {| key := ""; value := "" |} ];
     selectedApiKey := "";
     newPublicKey := "";
     newPrivateKey := "";
     newApiKeyName := "";
     pipelineName := "";
     githubUrl := "";
     isLoading := false |}.

Definition setIsLoading (flag : bool) (st : FormState) : FormState :=
  {| secretPairs := secretPairs st;
     selectedApiKey := selectedApiKey st;
     newPublicKey := newPublicKey st;
     newPrivateKey := newPrivateKey st;
     newApiKeyName := newApiKeyName st;
     pipelineName := pipelineName st;
     githubUrl := githubUrl st;
     isLoading := flag |}.

(** The body sent to the deploy endpoint. *)
Record FormData : Type := {
  pipeline_name : string;
  repo_url : string;
  secret_pairs : list SecretPair
}.

(** What the outside world answers during one submission. *)
Inductive SessionOutcome : Type :=
| getSession_rejects
| getSession_resolves (access_token : option string).

Inductive FetchOutcome : Type :=
| fetch_rejects
| fetch_resolves (status : Z).

Record World : Type := {
  session : SessionOutcome;
  deployResponse : FetchOutcome;
  (** [Math.floor(Math.random() * 1000)] *)
  randomMillis : Z
}.

(** [response.ok]: the status is in 200..299. *)
Definition ok (status : Z) : bool := (200 <=? status) && (status <=? 299).

(** What the handler does to the outside world, in order. *)
Inductive Effect : Type :=
| console_error (message : string)
| console_log (message : string)
| alert (message : string)
| POST_deploy (bearer : string) (body : FormData)
| setTimeout (delay : Z).

(** The loop over [secretPairs]: is there a pair with an empty key or an
    empty value? *)
Fixpoint hasEmptySecret (pairs : list SecretPair) : bool :=
  match pairs with
  | [] => false
  | secret :: rest =>
      if String.eqb (key secret) "" || String.eqb (value secret) ""
      then true
      else hasEmptySecret rest
  end.

Definition catchBlock (st : FormState) (done : list Effect)
  : FormState * list Effect :=
  (setIsLoading false st,
   (done ++ [ console_error "Error creating pipeline:";
              alert "An error occurred while creating the pipeline. Please try again." ])%list).

(** [handleSubmit]: the state after the handler has run and the effects it
    had, for a session token that [new Headers] accepts
    ([Js.validHeaderValue]: no NUL, LF or CR inside it); with another
    token the constructor throws before the request is made and the catch
    block runs. *)
Definition handleSubmit (st : FormState) (world : World)
  : FormState * list Effect :=
  let formData :=
    {| pipeline_name := pipelineName st;
       repo_url := githubUrl st;
       secret_pairs := secretPairs st |} in
  match session world with
  | getSession_rejects => catchBlock st []
  | getSession_resolves (None | Some EmptyString) =>
      (st, [ console_error "Access token not found" ])
  | getSession_resolves (Some token) =>
      if String.eqb (pipelineName st) ""
      then (st, [ alert "Please enter a pipeline name" ])
      else if String.eqb (githubUrl st) ""
      then (st, [ alert "Please enter a GitHub URL" ])
      else if hasEmptySecret (secretPairs st)
      then (st, [ alert "Please enter a secret key and value" ])
      else
        let st := setIsLoading true st in
        let request := POST_deploy token formData in
        match deployResponse world with
        | fetch_rejects => catchBlock st [ request ]
        | fetch_resolves status =>
            if ok status
            then (st, [ request;
                        console_log "Pipeline created successfully";
                        setTimeout (randomMillis world + 1000) ])
            else (setIsLoading false st,
                  [ request;
                    console_error "Pipeline creation failed";
                    alert "Failed to create the pipeline. Please try again." ])
        end
  end.

(** The timer's callback after a successful deploy. *)
Definition resetForm (st : FormState) : FormState :=
  {| secretPairs := [ {| key := ""; value := "" |} ];
     selectedApiKey := "";
     newPublicKey := "";
     newPrivateKey := "";
     newApiKeyName := newApiKeyName st;
     pipelineName := "";
     githubUrl := "";
     isLoading := false |}.

(** The specification's validation: the checks in order, the first
    failure wins. *)
Inductive ValidationError : Type :=
| MissingPipelineName
| MissingSourceUrl
| IncompleteSecretPair.

Definition complete (secret : SecretPair) : bool :=
  negb (String.eqb (key secret) "") && negb (String.eqb (value secret) "").

Definition validate (st : FormState) : option ValidationError :=
  if String.eqb (pipelineName st) "" then Some MissingPipelineName
  else if String.eqb (githubUrl st) "" then Some MissingSourceUrl
  else if forallb complete (secretPairs st) then None
  else Some IncompleteSecretPair.

Definition validationMessage (e : ValidationError) : string :=
  match e with
  | MissingPipelineName => "Please enter a pipeline name"
  | MissingSourceUrl => "Please enter a GitHub URL"
  | IncompleteSecretPair => "Please enter a secret key and value"
  end.

(** Observations on a trace of effects. *)
Definition is_request (e : Effect) : bool :=
  match e with
  | POST_deploy _ _ => true
  | _ => false
  end.

Definition requests (trace : list Effect) : nat :=
  List.length (List.filter is_request trace).

Definition alerts (trace : list Effect) : list string :=
  flat_map (fun e => match e with alert m => [m] | _ => [] end) trace.

(** ** The other handlers of the form

    Each is the state it leaves; what some of them write to the console
    is left out. *)

Definition setSecretPairs (pairs : list SecretPair) (st : FormState)
  : FormState :=
  {| secretPairs := pairs;
     selectedApiKey := selectedApiKey st;
     newPublicKey := newPublicKey st;
     newPrivateKey := newPrivateKey st;
     newApiKeyName := newApiKeyName st;
     pipelineName := pipelineName st;
     githubUrl := githubUrl st;
     isLoading := isLoading st |}.

Definition emptyPair : SecretPair := {| key := ""; value := "" |}.

(** [setSecretPairs([...secretPairs, { key: '', value: '' }])] *)
Definition handleAddMore (st : FormState) : FormState :=
  setSecretPairs (secretPairs st ++ [emptyPair]) st.

(** [splice(index, 1)] on a copy: the start is taken from the end when
    negative and clamped to the array; one element goes if there is one
    there. *)
Definition splice_one {A : Type} (arr : list A) (index : Z) : list A :=
  let start := Z.to_nat (Js.relative_index (Z.of_nat (List.length arr)) index) in
  firstn start arr ++ skipn (S start) arr.

Definition handleRemove (index : Z) (st : FormState) : FormState :=
  setSecretPairs (splice_one (secretPairs st) index) st.

(** [updatedPairs[index].key = value]: the pair at [index] is changed in
    place (the copy of the array shares its pairs with the old one); where
    there is no pair the assignment throws. *)
Definition handleSecretKeyChange (index : Z) (newKey : string)
    (st : FormState) : Js.completion FormState :=
  if (0 <=? index) && (index <? Z.of_nat (List.length (secretPairs st)))
  then Js.Normal
         (setSecretPairs
            (alter (fun secret => {| key := newKey; value := value secret |})
                   (Z.to_nat index) (secretPairs st))
            st)
  else Js.Throw (Js.TypeError
                   "Cannot set properties of undefined (setting 'key')").

Definition handleSecretValueChange (index : Z) (newValue : string)
    (st : FormState) : Js.completion FormState :=
  if (0 <=? index) && (index <? Z.of_nat (List.length (secretPairs st)))
  then Js.Normal
         (setSecretPairs
            (alter (fun secret => {| key := key secret; value := newValue |})
                   (Z.to_nat index) (secretPairs st))
            st)
  else Js.Throw (Js.TypeError
                   "Cannot set properties of undefined (setting 'value')").

(** The inputs and the template cards. *)
Definition setPipelineName (text : string) (st : FormState) : FormState :=
  {| secretPairs := secretPairs st;
     selectedApiKey := selectedApiKey st;
     newPublicKey := newPublicKey st;
     newPrivateKey := newPrivateKey st;
     newApiKeyName := newApiKeyName st;
     pipelineName := text;
     githubUrl := githubUrl st;
     isLoading := isLoading st |}.

Definition setGithubUrl (text : string) (st : FormState) : FormState :=
  {| secretPairs := secretPairs st;
     selectedApiKey := selectedApiKey st;
     newPublicKey := newPublicKey st;
     newPrivateKey := newPrivateKey st;
     newApiKeyName := newApiKeyName st;
     pipelineName := pipelineName st;
     githubUrl := text;
     isLoading := isLoading st |}.

Inductive Template : Type := BasicRAG | SyntheticQueries | WebRAG.

Definition templateCardClick (card : Template) (st : FormState) : FormState :=
  match card with
  | BasicRAG =>
      setGithubUrl "https://github.com/SciPhi-AI/R2R-basic-rag-template"
        (setPipelineName "Basic RAG" st)
  | SyntheticQueries =>
      setGithubUrl
        "https://github.com/SciPhi-AI/R2R-synthetic-queries-template"
        (setPipelineName "Synthetic Queries" st)
  | WebRAG =>
      setGithubUrl "https://github.com/SciPhi-AI/R2R-web-rag-template"
        (setPipelineName "Web RAG" st)
  end.

(** The API key selector. The two random strings are what
    [Math.random().toString(36)] returned. *)
Definition availableApiKeys : list (string * string) :=
  [ ("key1", "API Key 1"); ("key2", "API Key 2") ].

Definition handleGenerateApiKey (publicRandom privateRandom : string)
    (st : FormState) : FormState :=
  {| secretPairs := secretPairs st;
     selectedApiKey := "generate";
     newPublicKey := "pk-" +:+ publicRandom;
     newPrivateKey := "sk-" +:+ privateRandom;
     newApiKeyName :=
       "API Key "
       +:+ Js.decimal_digits (Z.of_nat (List.length availableApiKeys) + 1);
     pipelineName := pipelineName st;
     githubUrl := githubUrl st;
     isLoading := isLoading st |}.

Definition handleApiKeyChange (choice : string)
    (publicRandom privateRandom : string) (st : FormState) : FormState :=
  if String.eqb choice "generate"
  then handleGenerateApiKey publicRandom privateRandom st
  else if String.eqb choice "No API Key"
  then {| secretPairs := secretPairs st;
          selectedApiKey := choice;
          newPublicKey := "";
          newPrivateKey := "";
          newApiKeyName := newApiKeyName st;
          pipelineName := pipelineName st;
          githubUrl := githubUrl st;
          isLoading := isLoading st |}
  else {| secretPairs := secretPairs st;
          selectedApiKey := choice;
          newPublicKey := newPublicKey st;
          newPrivateKey := newPrivateKey st;
          newApiKeyName := newApiKeyName st;
          pipelineName := pipelineName st;
          githubUrl := githubUrl st;
          isLoading := isLoading st |}.

(** The Deploy button: its [variant], the grey class, [disabled] and the
    label. A string is truthy when it is not empty. *)
Definition truthy (s : string) : bool := negb (String.eqb s "").

Inductive ButtonVariant : Type := filled | disabled.

Definition buttonVariant (st : FormState) : ButtonVariant :=
  if truthy (pipelineName st)
     && truthy (githubUrl st)
     && forallb (fun secret => truthy (key secret) && truthy (value secret))
          (secretPairs st)
     && negb (isLoading st)
  then filled
  else disabled.

Definition buttonGreyed (st : FormState) : bool :=
  negb (truthy (pipelineName st))
  || negb (truthy (githubUrl st))
  || existsb (fun secret =>
                negb (truthy (key secret)) || negb (truthy (value secret)))
       (secretPairs st)
  || isLoading st.

Definition buttonDisabled (st : FormState) : bool := isLoading st.

Definition buttonLabel (st : FormState) : string :=
  if isLoading st then "Deploying..." else "Deploy".

End DeployForm.

(* ===================================================================== *)
(** * The pipeline store: [PipelineProvider] *)
(* ===================================================================== *)

Module PipelineContext.

Section Provider.
(** The [Pipeline] type lives in [../types], outside these sources. *)
Context {Pipeline : Type}.

(** [{ ...prevPipelines, [pipelineId]: pipeline }] *)
Definition spread_with (prevPipelines : gmap string Pipeline)
    (pipelineId : string) (pipeline : Pipeline) : gmap string Pipeline :=
  <[ pipelineId := pipeline ]> prevPipelines.

(** React's [setState] with an updater function. *)
Definition setPipeline
    (updater : gmap string Pipeline -> gmap string Pipeline)
    (pipelines : gmap string Pipeline) : gmap string Pipeline :=
  updater pipelines.

Definition updatePipelines (pipelineId : string) (pipeline : Pipeline)
    (pipelines : gmap string Pipeline) : gmap string Pipeline :=
  setPipeline
    (fun prevPipelines => spread_with prevPipelines pipelineId pipeline)
    pipelines.

Definition initialPipelines : gmap string Pipeline := ∅.
End Provider.

End PipelineContext.

(* ===================================================================== *)
(** * The pipelines API route (pages/api/pipelines.ts) *)
(* ===================================================================== *)

Module PipelinesApi.
Import Js.

(** What the route answers: a status and a JSON body. *)
Inductive Body : Type :=
| message (text : string)
| forwarded (json : Value).

Record Response : Type := { status : Z; body : Body }.

(** What the upstream server does with the request: the fetch rejects, or
    it resolves with a status and a body that parses as JSON or does not. *)
Inductive Upstream : Type :=
| fetch_rejects
| fetch_resolves (upstreamStatus : Z) (json : option Value).

(** The request sent upstream: GET /user_pipelines with this
    Authorization header. *)
Inductive Request : Type :=
| GET_user_pipelines (authorization : string).

(** [req.headers.authorization?.split(' ')[1]] *)
Definition tokenOf (authorization : option string) : option string :=
  match authorization with
  | None => None
  | Some header => nth_error (split " " header) 1
  end.

Definition ok (upstreamStatus : Z) : bool :=
  (200 <=? upstreamStatus) && (upstreamStatus <=? 299).

Definition somethingWentWrong : Response :=
  {| status := 400; body := message "Something went wrong" |}.

(** The handler: the response it sends and the requests it made.
    [new Headers] throws on a value it does not accept, before [fetch] is
    called, and the catch block answers. *)
Definition handler (authorization : option string) (upstream : Upstream)
  : Response * list Request :=
  match tokenOf authorization with
  | None | Some EmptyString =>
      ({| status := 401;
          body := message "Authentication token is missing" |}, [])
  | Some token =>
      if validHeaderValue ("Bearer " +:+ token)
      then
        let request :=
          GET_user_pipelines (normalizedHeaderValue ("Bearer " +:+ token)) in
        match upstream with
        | fetch_rejects => (somethingWentWrong, [request])
        | fetch_resolves upstreamStatus json =>
            if ok upstreamStatus
            then match json with
                 | Some responseJson =>
                     ({| status := 200; body := forwarded responseJson |},
                      [request])
                 | None => (somethingWentWrong, [request])
                 end
            else (somethingWentWrong, [request])
        end
      else (somethingWentWrong, [])
  end.

(** The header a client sends: [`Bearer ${token}`]. *)
Definition bearerHeader (token : string) : string := "Bearer " +:+ token.

End PipelinesApi.

(* ===================================================================== *)
(** * The vector database page (pages/vector-dbs.tsx) *)
(* ===================================================================== *)

Module VectorDBs.
Import Js.

(** [x?.type] *)
Definition typeOf (x : Value) : Value :=
  match x with
  | VObject properties => Get properties "type"
  | _ => VUndefined
  end.

(** [x?.type == 'vector-db-provider'] *)
Definition isVectorDbProvider (x : Value) : completion bool :=
  looselyEqualsString (typeOf x) "vector-db-provider".

(** One card per kept provider, keyed by [provider.id]. *)
Record Card : Type := { cardKey : Value; provider : Value }.

Definition cardOf (x : Value) : completion Card :=
  let* id := GetV x "id" in
  Normal {| cardKey := id; provider := x |}.

Fixpoint map_array {A B : Type} (callback : A -> completion B)
    (arr : list A) : completion (list B) :=
  match arr with
  | [] => Normal []
  | x :: rest =>
      let* y := callback x in
      let* ys := map_array callback rest in
      Normal (y :: ys)
  end.

(** [Array.isArray(integrations) ? integrations.filter(...).map(...) :
    null], on whatever JSON the integrations endpoint returned. *)
Definition cards (integrations : Value) : completion (option (list Card)) :=
  match integrations with
  | VArray elements =>
      let* providers := filter_array isVectorDbProvider elements in
      let* shown := map_array cardOf providers in
      Normal (Some shown)
  | _ => Normal None
  end.


End VectorDBs.

(* ===================================================================== *)
(** * Navigation (SubNavigationBar.tsx, WorkspacesSelect) *)
(* ===================================================================== *)

Module Navigation.
Import Js.

Inductive NavLabel : Type := Back | Pipeline | Retrievals | Embeddings | Home.

Record NavItem : Type := { path : string; label : NavLabel }.

(** [isPipelineRoute && pipelineId ? [...four items] : [home]];
    [pipelineId] is a string or [null]. *)
Definition navItems (isPipelineRoute : bool) (pipelineId : option string)
  : list NavItem :=
  match isPipelineRoute, pipelineId with
  | true, Some (String c rest) =>
      let id := String c rest in
      [ {| path := "/"; label := Back |};
        {| path := "/pipeline/" +:+ id; label := Pipeline |};
        {| path := "/pipeline/" +:+ id +:+ "/retrievals"; label := Retrievals |};
        {| path := "/pipeline/" +:+ id +:+ "/embeddings"; label := Embeddings |} ]
  | _, _ => [ {| path := "/"; label := Home |} ]
  end.

(** [path.split('/').pop() ?? ''] *)
Definition lastSegment (path_ : string) : string :=
  match pop (split "/" path_) with
  | Some segment => segment
  | None => EmptyString
  end.

(** [(pathSegments || []).includes(item.path.split('/').pop() ?? '')] *)
Definition isActive (pathSegments : option (list string)) (item : NavItem)
  : bool :=
  includes_item
    (match pathSegments with Some segments => segments | None => [] end)
    (lastSegment (path item)).

(** The items that are highlighted. *)
Definition activeLabels (isPipelineRoute : bool) (pipelineId : option string)
    (pathSegments : option (list string)) : list NavLabel :=
  map label
    (List.filter (isActive pathSegments) (navItems isPipelineRoute pipelineId)).

(** WorkspacesSelect: [router.asPath.split('/').pop()], and the panel
    ["Pipeline: " id.slice(0, 8) "..."], shown when
    [router.pathname !== '/' && pipelineId]. *)
Definition pipelineIdOf (asPath : string) : string := lastSegment asPath.

Definition pipelinePanel (pathname asPath : string) : option string :=
  if negb (String.eqb pathname "/")
     && negb (String.eqb (pipelineIdOf asPath) EmptyString)
  then Some (string_slice (pipelineIdOf asPath) 0 8 +:+ "...")
  else None.

End Navigation.

(* ===================================================================== *)
(** * Sample data *)
(* ===================================================================== *)

Module Examples.
Import Js Retrieval DeployForm.

(** A successful search run with a score, a failed run (no score, as the
    data model has it), an embedding run, and a run whose optional
    [searchQuery] came back as [null]. *)
Definition scored (id score : string) : LogRecord :=
  [ ("pipelineRunId", VString id);
    ("pipelineRunType", VString "search");
    ("method", VString "Search");
    ("outcome", VString "success");
    ("score", VString score) ].

Definition failed (id : string) : LogRecord :=
  [ ("pipelineRunId", VString id);
    ("pipelineRunType", VString "search");
    ("method", VString "Search");
    ("outcome", VString "failure") ].

Definition embedding (id : string) : LogRecord :=
  [ ("pipelineRunId", VString id);
    ("pipelineRunType", VString "embedding");
    ("method", VString "Embed");
    ("outcome", VString "success") ].

Definition withoutQuery (id : string) : LogRecord :=
  [ ("pipelineRunId", VString id);
    ("pipelineRunType", VString "completion");
    ("searchQuery", VNull);
    ("method", VString "Search") ].

(** Twelve runs, the second an embedding run: page 2 holds the last one. *)
Definition twelveLogs : list LogRecord :=
  [ scored "r01" "1"; embedding "r02"; scored "r03" "3"; scored "r04" "4";
    scored "r05" "5"; scored "r06" "6"; scored "r07" "7"; scored "r08" "8";
    scored "r09" "9"; scored "r10" "10"; scored "r11" "11";
    scored "r12" "12" ].

Definition pageTwo : UiState :=
  {| currentPage := 2;
     sortField := Some "score";
     sortDirection := asc;
     filterQuery := "SEARCH" |}.

(** A window with a failed run between the scores 10 and 9. *)
Definition tenFailedNine : list LogRecord :=
  [ scored "a" "10"; failed "b"; scored "c" "9" ].

(** A window of eight: scores 1, 1, 1, 5, a failed run, 2, 9, 2. *)
Definition eightRuns : list LogRecord :=
  [ scored "a" "1"; scored "b" "1"; scored "c" "1"; scored "d" "5";
    failed "e"; scored "f" "2"; scored "g" "9"; scored "h" "2" ].


(** A completion run with every column filled. *)
Definition completionRun (id timestamp query : string) : LogRecord :=
  [ ("pipelineRunId", VString id);
    ("pipelineRunType", VString "completion");
    ("timestamp", VString timestamp);
    ("method", VString "Generate Completion");
    ("searchQuery", VString query);
    ("searchResults",
     VArray [ VObject [ ("text", VString "Retrieval-augmented generation pairs a retriever with a generator.") ];
              VObject [ ("text", VString "A second passage.") ] ]);
    ("completionResult",
     VString "Retrieval-augmented generation answers a question from retrieved passages.");
    ("outcome", VString "success");
    ("score", VString "0.92");
    ("evalResults",
     VObject [ ("faithfulness",
                VObject [ ("score", VString "0.9");
                          ("reason", VString "Every statement is supported.") ]);
               ("relevance",
                VObject [ ("score", VString "0.8");
                          ("reason", VString "The answer addresses the question.") ]) ]) ].

Definition threeCompletions : list LogRecord :=
  [ completionRun "r1" "2024-03-02 10:15:00" "What is retrieval-augmented generation?";
    completionRun "r2" "2024-03-01 09:00:00" "What is a vector database?";
    completionRun "r3" "2024-03-02 10:15:00" "How are documents chunked?" ].

(** A run whose first search result came back without its text, and one
    whose evaluation of one metric is [null]. *)
Definition resultWithoutText (id : string) : LogRecord :=
  [ ("pipelineRunId", VString id);
    ("pipelineRunType", VString "search");
    ("searchResults", VArray [ VObject [ ("id", VString "doc-1") ] ]) ].

Definition evaluationPending (id : string) : LogRecord :=
  [ ("pipelineRunId", VString id);
    ("pipelineRunType", VString "completion");
    ("evalResults",
     VObject [ ("faithfulness", VObject [ ("score", VString "0.9") ]);
               ("relevance", VNull) ]) ].

(** A run with an evaluator named toString: the evaluation object has a
    key of its own that hides the method. *)
Definition evaluatorNamedToString (id : string) : LogRecord :=
  [ ("pipelineRunId", VString id);
    ("pipelineRunType", VString "completion");
    ("evalResults",
     VObject [ ("toString", VObject [ ("score", VString "0.9") ]) ]);
    ("method", VString "Search") ].


Definition filledForm : FormState :=
  {| secretPairs := [ {| key := "OPENAI_API_KEY"; value := "sk-1" |} ];
     selectedApiKey := "";
     newPublicKey := "";
     newPrivateKey := "";
     newApiKeyName := "";
     pipelineName := "qa-pipeline";
     githubUrl := "https://github.com/acme/rag";
     isLoading := false |}.

Definition unnamedForm : FormState :=
  {| secretPairs := secretPairs filledForm;
     selectedApiKey := "";
     newPublicKey := "";
     newPrivateKey := "";
     newApiKeyName := "";
     pipelineName := "";
     githubUrl := githubUrl filledForm;
     isLoading := false |}.

Definition signedIn (response : FetchOutcome) : World :=
  {| session := getSession_resolves (Some "token-1");
     deployResponse := response;
     randomMillis := 250 |}.

Definition signedOut : World :=
  {| session := getSession_resolves None;
     deployResponse := fetch_resolves 200;
     randomMillis := 250 |}.

End Examples.

(* ===================================================================== *)
(** * The fragment at work *)
(* ===================================================================== *)

Module JsExamples.
Import Js.

Example parseFloat_reads_a_prefix :
  map (fun s => Number_toString (parseFloat (VString s)))
    [ "9"; "10"; "0.87"; "  -12.50abc"; ".5"; "1.e3"; "1e"; "-Infinityx";
      "abc"; "" ]
  = [ "9"; "10"; "0.87"; "-12.5"; "0.5"; "1000"; "1"; "-Infinity";
      "NaN"; "NaN" ].
Proof. vm_compute. reflexivity. Qed.

Example parseFloat_of_other_values :
  map (fun v => Number_toString (parseFloat v))
    [ VUndefined; VNull; VBool true; VNumber (number_of_decimal false 875 (-3));
      VArray [VString "3.5"; VNull]; VObject [] ]
  = [ "NaN"; "NaN"; "NaN"; "0.875"; "3.5"; "NaN" ].
Proof. vm_compute. reflexivity. Qed.

Example Number_toString_shortest :
  map (fun d => Number_toString (number_of_decimal false (fst d) (snd d)))
    [ (1, -1); (3, -1); (1, 21); (1, 20); (123456, -3); (1, -6); (1, -7);
      (5, -324); (17976931348623157, 292); (2, 308) ]
  = [ "0.1"; "0.3"; "1e+21"; "100000000000000000000"; "123.456";
      "0.000001"; "1e-7"; "5e-324"; "1.7976931348623157e+308"; "Infinity" ].
Proof. vm_compute. reflexivity. Qed.

Example StringToNumber_whole_string :
  map (fun s => Number_toString (StringToNumber s))
    [ ""; "  12  "; "0x1F"; "0b101"; "0o17"; "1e"; "12px"; "-0x1";
      "Infinity" ]
  = [ "0"; "12"; "31"; "5"; "15"; "NaN"; "NaN"; "NaN"; "Infinity" ].
Proof. vm_compute. reflexivity. Qed.

Example ToString_of_an_array :
  ToString (VArray [ VNumber (number_of_Z 1); VNull; VString "a";
                     VArray [VBool true; VObject []] ])
  = "1,,a,true,[object Object]".
Proof. vm_compute. reflexivity. Qed.

(** Strings compare by code units, a string and a number as numbers, and
    nothing is below or above [undefined]. *)
Example relational_operators :
  lessThan (VString "10") (VString "9") = true
  /\ lessThan (VNumber (number_of_Z 10)) (VString "9") = false
  /\ lessThan VNull (VNumber (number_of_Z 1)) = true
  /\ lessThan VUndefined (VNumber (number_of_Z 1)) = false
  /\ greaterThan VUndefined (VNumber (number_of_Z 1)) = false.
Proof. vm_compute. repeat split. Qed.

Example slice_clamps :
  slice [1; 2; 3; 4; 5] 1 3 = [2; 3]
  /\ slice [1; 2; 3; 4; 5] (-2) 10 = [4; 5]
  /\ slice [1; 2; 3; 4; 5] (-10) 0 = []
  /\ slice [1; 2; 3; 4; 5] 10 20 = [].
Proof. repeat split. Qed.

Example sort_numbers :
  sort Z.sub [5; 3; 1; 4; 2; 9; 7; 8; 6; 0] = [0; 1; 2; 3; 4; 5; 6; 7; 8; 9]
  /\ sort Z.sub [3; 2; 1] = [1; 2; 3]
  /\ sort (fun a b => b - a) [1; 3; 2] = [3; 2; 1].
Proof. repeat split. Qed.

End JsExamples.

(* ===================================================================== *)
(** * Properties of the ECMAScript fragment *)
(* ===================================================================== *)

Module ArrayFacts.
Import Js.

Section Arrays.
Context {A : Type}.
Implicit Types (arr work pending : list A) (x pivot : A).

(** [slice] returns a contiguous part of the array. *)
Lemma slice_contiguous arr start end_ :
  exists before after, arr = (before ++ slice arr start end_ ++ after)%list.
Proof.
  unfold slice.
  set (n := Z.to_nat (Z.max _ 0)). set (k := Z.to_nat _).
  exists (firstn k arr), (skipn n (skipn k arr)).
  now rewrite (firstn_skipn n), (firstn_skipn k).
Qed.

Lemma slice_In arr start end_ x : In x (slice arr start end_) -> In x arr.
Proof.
  destruct (slice_contiguous arr start end_) as (before & after & E).
  intros H. rewrite E. apply in_or_app. right. apply in_or_app. now left.
Qed.


(** [filter_array] keeps, in order, the elements the callback accepts;
    it returns normally exactly when the callback does on every
    element. *)
Lemma filter_array_Normal (callback : A -> completion bool)
    (decide_ : A -> bool) arr :
  Forall (fun x => callback x = Normal (decide_ x)) arr ->
  filter_array callback arr = Normal (List.filter decide_ arr).
Proof.
  induction 1 as [|x rest Hx _ IH]; simpl; [reflexivity|].
  rewrite Hx, IH. simpl. now destruct (decide_ x).
Qed.

Lemma filter_array_inv (callback : A -> completion bool) arr kept :
  filter_array callback arr = Normal kept ->
  exists decide_,
    Forall (fun x => callback x = Normal (decide_ x)) arr
    /\ kept = List.filter decide_ arr.
Proof.
  revert kept. induction arr as [|x rest IH]; simpl; intros kept H.
  - exists (fun _ => true). split; [constructor | congruence].
  - destruct (callback x) as [keep|] eqn:Hx; simpl in H; [|discriminate].
    destruct (filter_array callback rest) as [kept'|] eqn:Hrest;
      simpl in H; [|discriminate].
    destruct (IH kept' eq_refl) as (d & Hall & Hkept).
    assert (Hparts : Forall (fun y => callback y = Normal (d y)) rest
                     /\ kept' = List.filter d rest) by auto.
    clear IH Hall Hkept.
    (* the decision on [x] is read off the callback itself *)
    exists (fun y => match callback y with Normal b => b | Throw _ => d y end).
    destruct Hparts as [Hall Hkept]. split.
    + constructor; [now rewrite Hx|].
      eapply Forall_impl; [|exact Hall]. intros y Hy. simpl. now rewrite Hy.
    + simpl. rewrite Hx. injection H as <-.
      assert (E : List.filter
                    (fun y => match callback y with
                              | Normal b => b
                              | Throw _ => d y
                              end) rest = List.filter d rest).
      { clear -Hall. induction Hall as [|y l Hy _ IHl]; simpl; [reflexivity|].
        rewrite Hy, IHl. reflexivity. }
      rewrite E, <- Hkept. reflexivity.
Qed.


(** [some] walks the array until the callback accepts or throws. *)
Lemma some_Normal (callback : A -> completion bool) (test : A -> bool) arr :
  Forall (fun x => callback x = Normal (test x)) arr ->
  some callback arr = Normal (existsb test arr).
Proof.
  induction 1 as [|x rest Hx _ IH]; simpl; [reflexivity|].
  rewrite Hx. simpl. now destruct (test x).
Qed.

Lemma some_Throw (callback : A -> completion bool) arr before x after e :
  arr = (before ++ x :: after)%list ->
  Forall (fun y => callback y = Normal false) before ->
  callback x = Throw e ->
  some callback arr = Throw e.
Proof.
  intros -> Hbefore Hx. induction Hbefore as [|y l Hy _ IH]; simpl.
  - now rewrite Hx.
  - now rewrite Hy.
Qed.

Lemma some_true_inv (callback : A -> completion bool) arr :
  some callback arr = Normal true ->
  exists before x after,
    arr = (before ++ x :: after)%list
    /\ Forall (fun y => callback y = Normal false) before
    /\ callback x = Normal true.
Proof.
  induction arr as [|y arr IH]; simpl; [discriminate|].
  destruct (callback y) as [[|]|] eqn:Hy; simpl; intros H.
  - now exists [], y, arr.
  - destruct (IH H) as (before & x & after & -> & Hb & Hx).
    exists (y :: before), x, after. repeat split; auto.
  - discriminate.
Qed.

Lemma some_found (callback : A -> completion bool) arr before x after :
  arr = (before ++ x :: after)%list ->
  Forall (fun y => callback y = Normal false) before ->
  callback x = Normal true ->
  some callback arr = Normal true.
Proof.
  intros -> Hbefore Hx. induction Hbefore as [|y l Hy _ IH]; simpl.
  - now rewrite Hx.
  - now rewrite Hy.
Qed.

End Arrays.

End ArrayFacts.

(* ===================================================================== *)
(** * Properties of [sort] *)
(* ===================================================================== *)

Module SortFacts.
Import Js.

(** ** Whatever the comparison function: a permutation *)

Section Permutes.
Context {A : Type} (cmp : A -> A -> Z).

Lemma insert_at_Permutation (work : list A) position pivot :
  Permutation (insert_at work position pivot) (pivot :: work).
Proof.
  unfold insert_at. symmetry.
  rewrite <- (firstn_skipn position work) at 1.
  apply Permutation_middle.
Qed.

Lemma BinaryInsertionSort_Permutation (pending sorted : list A) :
  Permutation (BinaryInsertionSort cmp sorted pending) (sorted ++ pending).
Proof.
  unfold BinaryInsertionSort. revert sorted.
  induction pending as [|pivot pending IH]; intros sorted; simpl.
  - now rewrite app_nil_r.
  - rewrite IH. unfold insert_pivot. rewrite insert_at_Permutation.
    simpl. apply Permutation_middle.
Qed.

Lemma CountAndMakeRun_Permutation (arr : list A) :
  Permutation (fst (CountAndMakeRun cmp arr) ++ snd (CountAndMakeRun cmp arr))
              arr.
Proof.
  destruct arr as [|high [|low rest]]; simpl; try now rewrite ?app_nil_r.
  set (n := run_tail cmp _ low rest).
  destruct (cmp low high <? 0).
  - change (Permutation
              (rev (firstn (S (S n)) (high :: low :: rest))
               ++ skipn (S (S n)) (high :: low :: rest))
              (high :: low :: rest)).
    rewrite <- Permutation_rev. now rewrite firstn_skipn.
  - change (Permutation
              (firstn (S (S n)) (high :: low :: rest)
               ++ skipn (S (S n)) (high :: low :: rest))
              (high :: low :: rest)).
    now rewrite firstn_skipn.
Qed.

Theorem sort_Permutation (arr : list A) : Permutation (sort cmp arr) arr.
Proof.
  unfold sort.
  pose proof (CountAndMakeRun_Permutation arr) as H.
  destruct (CountAndMakeRun cmp arr) as [run pending]. simpl in H.
  now rewrite BinaryInsertionSort_Permutation.
Qed.


Corollary sort_length (arr : list A) :
  List.length (sort cmp arr) = List.length arr.
Proof. apply Permutation_length, sort_Permutation. Qed.

End Permutes.

(** ** Lists sorted by a relation *)

Section StronglySortedFacts.
Context {A : Type}.
Implicit Types (R : A -> A -> Prop) (l : list A).

Lemma StronglySorted_app R l1 l2 :
  StronglySorted R (l1 ++ l2) <->
  StronglySorted R l1 /\ StronglySorted R l2
  /\ Forall (fun x => Forall (R x) l2) l1.
Proof.
  induction l1 as [|x l1 IH]; simpl.
  - split; [intros H; repeat split; auto; constructor | tauto].
  - split.
    + intros H. apply StronglySorted_inv in H as [Hs Hx].
      apply IH in Hs as (H1 & H2 & H12).
      apply Forall_app in Hx as [Hx1 Hx2].
      repeat split; auto; constructor; auto.
    + intros (H1 & H2 & H12).
      apply StronglySorted_inv in H1 as [H1 Hx1].
      apply Forall_cons_iff in H12 as [Hx2 H12].
      constructor; [apply IH; auto | apply Forall_app; auto].
Qed.

Lemma StronglySorted_rev R l :
  StronglySorted R l -> StronglySorted (fun x y => R y x) (rev l).
Proof.
  induction 1 as [|x l _ IH Hx]; simpl; [constructor|].
  apply StronglySorted_app. repeat split; auto.
  - repeat constructor.
  - apply Forall_rev. eapply Forall_impl; [|exact Hx].
    intros y Hy. now repeat constructor.
Qed.

Lemma StronglySorted_weaken (dom : A -> Prop) R R' l :
  (forall x y, dom x -> dom y -> R x y -> R' x y) ->
  Forall dom l -> StronglySorted R l -> StronglySorted R' l.
Proof.
  intros Himp Hdom Hs. induction Hs as [|x l _ IH Hx]; [constructor|].
  apply Forall_cons_iff in Hdom as [Hdx Hdl].
  constructor; [auto|].
  rewrite Forall_forall in *. intros y Hy. apply Himp; auto.
Qed.

Lemma Sorted_StronglySorted_on (dom : A -> Prop) R l :
  (forall x y z, dom x -> dom y -> dom z -> R x y -> R y z -> R x z) ->
  Forall dom l -> Sorted R l -> StronglySorted R l.
Proof.
  intros Htrans Hdom Hs. induction Hs as [|x l _ IH Hhd]; [constructor|].
  apply Forall_cons_iff in Hdom as [Hdx Hdl].
  specialize (IH Hdl). constructor; [exact IH|].
  destruct Hhd as [|y l Hxy]; [constructor|].
  apply StronglySorted_inv in IH as [_ Hy].
  apply Forall_cons_iff in Hdl as [Hdy Hdl].
  constructor; [exact Hxy|].
  rewrite Forall_forall in *. intros z Hz. eapply Htrans; eauto.
Qed.

Lemma filter_nil (f : A -> bool) l :
  Forall (fun x => f x = false) l -> List.filter f l = [].
Proof.
  induction 1 as [|x l Hx _ IH]; simpl; [reflexivity|]. now rewrite Hx.
Qed.

Lemma nth_error_split_at l n x :
  nth_error l n = Some x ->
  firstn (S n) l = firstn n l ++ [x] /\ skipn n l = x :: skipn (S n) l.
Proof.
  revert n. induction l as [|y l IH]; intros [|n] H; simpl in *;
    try discriminate.
  - injection H as ->. auto.
  - destruct (IH n H) as [E1 E2]. rewrite <- E2.
    change (firstn (S n) l) with (firstn (S n) l) in E1.
    split; [f_equal; exact E1 | reflexivity].
Qed.

End StronglySortedFacts.

(** ** Under a consistent comparison: sorted and stable *)

Section Consistent.
Context {A : Type} (cmp : A -> A -> Z).

(** [dom] holds of the elements being sorted. *)
Variable dom : A -> Prop.
Hypothesis antisym :
  forall x y, dom x -> dom y -> (cmp x y < 0 <-> 0 < cmp y x).
Hypothesis trans :
  forall x y z, dom x -> dom y -> dom z ->
    cmp x y <= 0 -> cmp y z <= 0 -> cmp x z <= 0.

Lemma cmp_refl x : dom x -> cmp x x = 0.
Proof. intros Hx. pose proof (antisym x x Hx Hx). lia. Qed.

Lemma cmp_flip x y : dom x -> dom y -> 0 <= cmp x y -> cmp y x <= 0.
Proof. intros Hx Hy H. pose proof (antisym x y Hx Hy). lia. Qed.

Lemma cmp_flip' x y : dom x -> dom y -> cmp x y <= 0 -> 0 <= cmp y x.
Proof. intros Hx Hy H. pose proof (antisym y x Hy Hx). lia. Qed.

Lemma lt_le_trans x y z :
  dom x -> dom y -> dom z -> cmp x y < 0 -> cmp y z <= 0 -> cmp x z < 0.
Proof.
  intros Hx Hy Hz Hxy Hyz.
  destruct (Z_lt_le_dec (cmp x z) 0) as [|Hxz]; [assumption|exfalso].
  pose proof (cmp_flip x z Hx Hz Hxz) as Hzx.
  pose proof (trans y z x Hy Hz Hx Hyz Hzx) as Hyx.
  pose proof (antisym x y Hx Hy). lia.
Qed.

Lemma le_lt_trans x y z :
  dom x -> dom y -> dom z -> cmp x y <= 0 -> cmp y z < 0 -> cmp x z < 0.
Proof.
  intros Hx Hy Hz Hxy Hyz.
  destruct (Z_lt_le_dec (cmp x z) 0) as [|Hxz]; [assumption|exfalso].
  pose proof (cmp_flip x z Hx Hz Hxz) as Hzx.
  pose proof (trans z x y Hz Hx Hy Hzx Hxy) as Hzy.
  pose proof (antisym y z Hy Hz). lia.
Qed.

(** *** The binary search finds the end of the elements not after the
    pivot *)

Lemma binary_search_spec (work : list A) pivot :
  Forall dom work -> dom pivot -> sorted_by cmp work ->
  forall fuel left right,
    (left <= right <= List.length work)%nat ->
    (right - left <= fuel)%nat ->
    Forall (fun x => 0 <= cmp pivot x) (firstn left work) ->
    Forall (fun x => cmp pivot x < 0) (skipn right work) ->
    let position := binary_search cmp fuel work pivot left right in
    Forall (fun x => 0 <= cmp pivot x) (firstn position work)
    /\ Forall (fun x => cmp pivot x < 0) (skipn position work).
Proof.
  intros Hdom Hp Hsorted.
  induction fuel as [|fuel IH]; intros left right Hb Hfuel Hl Hr; simpl.
  - assert (left = right) as -> by lia. auto.
  - destruct (Nat.ltb_spec left right) as [Hlt|Hge].
    2:{ assert (left = right) as -> by lia. auto. }
    assert (Hdiv : (Nat.div2 (right - left) < right - left)%nat)
      by (apply Nat.lt_div2; lia).
    remember (Nat.div2 (right - left)) as half eqn:Ehalf.
    clear Ehalf.
    set (mid := (left + half)%nat) in *.
    assert (Hm : (left <= mid < right)%nat) by (unfold mid; lia).
    clearbody mid.
    destruct (nth_error work mid) as [x|] eqn:Hmid.
    2:{ apply nth_error_None in Hmid. lia. }
    destruct (nth_error_split_at _ _ _ Hmid) as [Efirst Eskip].
    assert (Hx : dom x).
    { rewrite Forall_forall in Hdom. eapply Hdom, nth_error_In, Hmid. }
    pose proof Hsorted as Hs. unfold sorted_by in Hs.
    rewrite <- (firstn_skipn mid work), Eskip in Hs.
    apply StronglySorted_app in Hs as (_ & Hs2 & Hcross).
    apply StronglySorted_inv in Hs2 as [_ Hafter].
    assert (Hdom_after : Forall dom (skipn (S mid) work)).
    { rewrite <- (firstn_skipn (S mid) work) in Hdom.
      now apply Forall_app in Hdom. }
    assert (Hdom_before : Forall dom (firstn mid work)).
    { rewrite <- (firstn_skipn mid work) in Hdom.
      now apply Forall_app in Hdom. }
    destruct (Z.ltb_spec (cmp pivot x) 0) as [Hneg|Hpos].
    + apply IH; [lia | lia | exact Hl |].
      rewrite Eskip. constructor; [exact Hneg|].
      rewrite Forall_forall in *. intros y Hy.
      apply lt_le_trans with x; auto.
    + apply IH; [lia | lia | | exact Hr].
      rewrite Efirst. apply Forall_app. split; [|now repeat constructor].
      rewrite Forall_forall in *. intros y Hy.
      destruct (Z_lt_le_dec (cmp pivot y) 0) as [Hlt'|]; [exfalso|assumption].
      specialize (Hcross y Hy). apply Forall_cons_iff in Hcross as [Hyx _].
      pose proof (lt_le_trans pivot y x Hp (Hdom_before y Hy) Hx Hlt' Hyx).
      lia.
Qed.

(** *** One insertion keeps the work list sorted and the ties in order *)

Lemma insert_pivot_sorted (work : list A) pivot :
  Forall dom work -> dom pivot -> sorted_by cmp work ->
  sorted_by cmp (insert_pivot cmp work pivot).
Proof.
  intros Hdom Hp Hsorted.
  destruct (binary_search_spec work pivot Hdom Hp Hsorted
              (List.length work) 0 (List.length work)) as [Hbefore Hafter];
    [lia | lia | constructor | rewrite skipn_all; constructor |].
  unfold insert_pivot, insert_at.
  set (position := binary_search _ _ _ _ _ _) in *.
  pose proof Hsorted as Hs. unfold sorted_by in Hs.
  rewrite <- (firstn_skipn position work) in Hs, Hdom.
  apply StronglySorted_app in Hs as (Hs1 & Hs2 & Hcross).
  apply Forall_app in Hdom as [Hd1 Hd2].
  apply StronglySorted_app. repeat split; [exact Hs1 | |].
  - constructor; [exact Hs2|].
    eapply Forall_impl; [|exact Hafter]. simpl. lia.
  - rewrite Forall_forall in *. intros y Hy. constructor.
    + apply cmp_flip; auto.
    + apply Forall_forall. intros z Hz.
      specialize (Hcross y Hy). rewrite Forall_forall in Hcross. auto.
Qed.

Lemma insert_pivot_ties (work : list A) pivot a :
  Forall dom work -> dom pivot -> dom a -> sorted_by cmp work ->
  ties cmp a (insert_pivot cmp work pivot) = ties cmp a (work ++ [pivot]).
Proof.
  intros Hdom Hp Ha Hsorted.
  destruct (binary_search_spec work pivot Hdom Hp Hsorted
              (List.length work) 0 (List.length work)) as [Hbefore Hafter];
    [lia | lia | constructor | rewrite skipn_all; constructor |].
  unfold insert_pivot, insert_at.
  set (position := binary_search _ _ _ _ _ _) in *.
  assert (Ework : List.filter (fun x => cmp a x =? 0) work
                  = List.filter (fun x => cmp a x =? 0)
                      (firstn position work)
                    ++ List.filter (fun x => cmp a x =? 0)
                         (skipn position work))
    by (now rewrite <- filter_app, firstn_skipn).
  rewrite <- (firstn_skipn position work) in Hdom.
  apply Forall_app in Hdom as [_ Hd2].
  unfold ties. rewrite !filter_app, Ework. simpl.
  destruct (Z.eqb_spec (cmp a pivot) 0) as [Hap|Hap].
  - (* the pivot ties with [a]: nothing after it does *)
    assert (E : List.filter (fun x => cmp a x =? 0)
                  (skipn position work) = []).
    { apply filter_nil. rewrite Forall_forall in *. intros y Hy.
      assert (Hlt : cmp a y < 0)
        by (apply le_lt_trans with pivot; auto; lia).
      destruct (Z.eqb_spec (cmp a y) 0); [lia | reflexivity]. }
    rewrite E. now rewrite app_nil_r.
  - now rewrite app_nil_r.
Qed.


(** *** The insertion loop *)

Lemma Forall_insert_pivot (work : list A) pivot :
  Forall dom work -> dom pivot -> Forall dom (insert_pivot cmp work pivot).
Proof.
  intros Hw Hp. rewrite Forall_forall in *. intros x Hx.
  unfold insert_pivot in Hx.
  apply (Permutation_in _ (insert_at_Permutation work _ pivot)) in Hx.
  destruct Hx as [<-|Hx]; auto.
Qed.

Lemma BinaryInsertionSort_spec (pending sorted : list A) :
  Forall dom sorted -> Forall dom pending -> sorted_by cmp sorted ->
  sorted_by cmp (BinaryInsertionSort cmp sorted pending)
  /\ forall a, dom a ->
       ties cmp a (BinaryInsertionSort cmp sorted pending)
       = ties cmp a (sorted ++ pending).
Proof.
  unfold BinaryInsertionSort. revert sorted.
  induction pending as [|pivot pending IH]; intros sorted Hs Hp Hsorted;
    simpl.
  - rewrite app_nil_r. auto.
  - apply Forall_cons_iff in Hp as [Hpivot Hp].
    destruct (IH (insert_pivot cmp sorted pivot)) as [IH1 IH2];
      [now apply Forall_insert_pivot | exact Hp
      | now apply insert_pivot_sorted |].
    split; [exact IH1|]. intros a Ha. rewrite (IH2 a Ha).
    unfold ties in *. rewrite !filter_app.
    pose proof (insert_pivot_ties sorted pivot a Hs Hpivot Ha Hsorted) as E.
    unfold ties in E. rewrite E, filter_app. simpl.
    destruct (cmp a pivot =? 0); simpl; now rewrite <- app_assoc.
Qed.

(** *** The detected run *)

Lemma run_tail_chain (descending : bool) (rest : list A) previous :
  Sorted (fun p c => if descending then cmp c p < 0 else 0 <= cmp c p)
         (previous :: firstn (run_tail cmp descending previous rest) rest).
Proof.
  revert previous. induction rest as [|current rest IH]; intros previous;
    simpl; [repeat constructor|].
  destruct descending.
  - destruct (Z.leb_spec 0 (cmp current previous)); simpl;
      [repeat constructor|].
    constructor; [apply IH | constructor; assumption].
  - destruct (Z.ltb_spec (cmp current previous) 0); simpl;
      [repeat constructor|].
    constructor; [apply IH | constructor; assumption].
Qed.

Lemma ties_at_most_one (a : A) (l : list A) :
  dom a -> Forall dom l ->
  StronglySorted (fun p c => cmp c p < 0) l ->
  rev (ties cmp a l) = ties cmp a l.
Proof.
  intros Ha Hd Hs.
  assert (H : (List.length (ties cmp a l) <= 1)%nat).
  { induction Hs as [|x l _ IH Hx]; simpl; [lia|].
    apply Forall_cons_iff in Hd as [Hdx Hdl]. specialize (IH Hdl).
    destruct (Z.eqb_spec (cmp a x) 0) as [Hax|]; [|exact IH].
    unfold ties. rewrite filter_nil; [simpl; lia|].
    rewrite Forall_forall in *. intros y Hy.
    destruct (Z.eqb_spec (cmp a y) 0) as [Hay|]; [exfalso|reflexivity].
    (* [y] is strictly before [x], yet both tie with [a] *)
    specialize (Hx y Hy). simpl in Hx.
    assert (cmp x a <= 0)
      by (apply cmp_flip; auto; lia).
    assert (cmp x y <= 0) by (apply trans with a; auto; lia).
    pose proof (antisym y x (Hdl y Hy) Hdx). lia. }
  destruct (ties cmp a l) as [|x [|y t]]; simpl in *; auto; lia.
Qed.

Lemma CountAndMakeRun_spec (arr : list A) :
  Forall dom arr ->
  sorted_by cmp (fst (CountAndMakeRun cmp arr))
  /\ forall a, dom a ->
       ties cmp a (fst (CountAndMakeRun cmp arr)
                   ++ snd (CountAndMakeRun cmp arr))
       = ties cmp a arr.
Proof.
  intros Hdom.
  destruct arr as [|high [|low rest]]; simpl.
  1,2: split; [repeat constructor | intros; now rewrite ?app_nil_r].
  set (descending := cmp low high <? 0).
  pose proof (run_tail_chain descending rest low) as Hchain.
  set (n := run_tail cmp descending low rest) in *.
  assert (Hsplit : firstn n rest ++ skipn n rest = rest)
    by apply firstn_skipn.
  assert (Hrun : Forall dom (high :: low :: firstn n rest)).
  { rewrite <- Hsplit in Hdom.
    apply Forall_cons_iff in Hdom as [Hh Hdom].
    apply Forall_cons_iff in Hdom as [Hl Hdom].
    apply Forall_app in Hdom as [Hdom _]. repeat constructor; auto. }
  subst descending.
  destruct (Z.ltb_spec (cmp low high) 0) as [Hdesc|Hasc].
  - (* a strictly descending run, reversed *)
    assert (Hs : StronglySorted (fun p c => cmp c p < 0)
                   (high :: low :: firstn n rest)).
    { apply Sorted_StronglySorted_on with (dom := dom);
        [ | exact Hrun
          | constructor; [exact Hchain | constructor; exact Hdesc] ].
      intros x y z Hx Hy Hz Hyx Hzy. simpl in *.
      apply lt_le_trans with y; auto; lia. }
    split.
    + change (sorted_by cmp (rev (high :: low :: firstn n rest))).
      apply StronglySorted_rev in Hs.
      eapply StronglySorted_weaken with (dom := fun _ => True);
        [ | apply Forall_forall; auto | exact Hs].
      simpl. intros; lia.
    + intros a Ha.
      change (ties cmp a (rev (high :: low :: firstn n rest) ++ skipn n rest)
              = ties cmp a (high :: low :: rest)).
      unfold ties at 1. rewrite filter_app, filter_rev.
      fold (ties cmp a (high :: low :: firstn n rest)).
      rewrite ties_at_most_one; auto.
      unfold ties. rewrite <- filter_app. simpl app. now rewrite Hsplit.
  - (* a run that never steps down *)
    split.
    + change (sorted_by cmp (high :: low :: firstn n rest)).
      apply Sorted_StronglySorted_on with (dom := dom);
        [ intros x y z Hx Hy Hz; apply trans; auto | exact Hrun | ].
      assert (Hc : Sorted (fun p c => 0 <= cmp c p)
                       (high :: low :: firstn n rest))
        by (constructor; [exact Hchain | constructor; exact Hasc]).
      clear -Hc Hrun antisym.
      induction Hc as [|x l _ IH Hhd]; [constructor|].
      apply Forall_cons_iff in Hrun as [Hx Hl].
      constructor; [auto|].
      destruct Hhd as [|y l Hxy]; constructor.
      apply Forall_cons_iff in Hl as [Hy _].
      pose proof (antisym y x Hy Hx). lia.
    + intros a Ha. simpl app. now rewrite Hsplit.
Qed.

(** *** The whole sort *)

Theorem sort_sorted (arr : list A) :
  Forall dom arr -> sorted_by cmp (sort cmp arr).
Proof.
  intros Hdom. unfold sort.
  destruct (CountAndMakeRun_spec arr Hdom) as [Hrun _].
  pose proof (CountAndMakeRun_Permutation cmp arr) as Hperm.
  destruct (CountAndMakeRun cmp arr) as [run pending]. simpl in *.
  assert (Hall : Forall dom (run ++ pending)).
  { rewrite Forall_forall in *. intros x Hx. apply Hdom.
    eapply Permutation_in; eauto. }
  apply Forall_app in Hall as [Hr Hp].
  now apply BinaryInsertionSort_spec.
Qed.

Theorem sort_ties (arr : list A) (a : A) :
  Forall dom arr -> dom a -> ties cmp a (sort cmp arr) = ties cmp a arr.
Proof.
  intros Hdom Ha. unfold sort.
  destruct (CountAndMakeRun_spec arr Hdom) as [Hrun Hties].
  pose proof (CountAndMakeRun_Permutation cmp arr) as Hperm.
  destruct (CountAndMakeRun cmp arr) as [run pending]. simpl in *.
  assert (Hall : Forall dom (run ++ pending)).
  { rewrite Forall_forall in *. intros x Hx. apply Hdom.
    eapply Permutation_in; eauto. }
  apply Forall_app in Hall as [Hr Hp].
  destruct (BinaryInsertionSort_spec pending run Hr Hp Hrun) as [_ E].
  rewrite E; auto.
Qed.

(** A sorted array is one run: sorting it again changes nothing. *)
Lemma run_tail_sorted (rest : list A) previous :
  Forall dom (previous :: rest) -> sorted_by cmp (previous :: rest) ->
  run_tail cmp false previous rest = List.length rest.
Proof.
  revert previous. induction rest as [|current rest IH];
    intros previous Hd Hs; simpl; [reflexivity|].
  apply StronglySorted_inv in Hs as [Hs Hp].
  apply Forall_cons_iff in Hd as [Hdp Hd].
  apply Forall_cons_iff in Hp as [Hpc _].
  pose proof Hd as Hd'. apply Forall_cons_iff in Hd' as [Hdc _].
  pose proof (cmp_flip' previous current Hdp Hdc Hpc).
  destruct (Z.ltb_spec (cmp current previous) 0); [lia|].
  f_equal. now apply IH.
Qed.

Theorem sort_sorted_id (arr : list A) :
  Forall dom arr -> sorted_by cmp arr -> sort cmp arr = arr.
Proof.
  intros Hd Hs. unfold sort.
  destruct arr as [|high [|low rest]]; simpl; try reflexivity.
  pose proof Hs as Hs'. apply StronglySorted_inv in Hs' as [Hs' Hh].
  pose proof Hd as Hd'. apply Forall_cons_iff in Hd' as [Hdh Hd'].
  apply Forall_cons_iff in Hh as [Hhl _].
  pose proof Hd' as Hd2. apply Forall_cons_iff in Hd2 as [Hdl _].
  pose proof (cmp_flip' high low Hdh Hdl Hhl).
  destruct (Z.ltb_spec (cmp low high) 0); [lia|].
  rewrite (run_tail_sorted rest low Hd' Hs').
  rewrite firstn_all, skipn_all. reflexivity.
Qed.


End Consistent.

(** ** The decidable form of consistency, and stability by positions *)

Section Stability.
Context {A : Type} (cmp : A -> A -> Z).

Lemma consistent_antisym (arr : list A) :
  consistent cmp arr = true ->
  forall x y, In x arr -> In y arr -> (cmp x y < 0 <-> 0 < cmp y x).
Proof.
  unfold consistent. intros H x y Hx Hy.
  rewrite forallb_forall in H. specialize (H x Hx).
  rewrite forallb_forall in H. specialize (H y Hy).
  apply andb_prop in H as [H _]. apply Bool.eqb_prop in H.
  destruct (Z.ltb_spec (cmp x y) 0), (Z.ltb_spec 0 (cmp y x));
    try discriminate; lia.
Qed.

Lemma consistent_trans (arr : list A) :
  consistent cmp arr = true ->
  forall x y z, In x arr -> In y arr -> In z arr ->
    cmp x y <= 0 -> cmp y z <= 0 -> cmp x z <= 0.
Proof.
  unfold consistent. intros H x y z Hx Hy Hz Hxy Hyz.
  rewrite forallb_forall in H. specialize (H x Hx).
  rewrite forallb_forall in H. specialize (H y Hy).
  apply andb_prop in H as [_ H].
  rewrite forallb_forall in H. specialize (H z Hz).
  destruct (Z.leb_spec (cmp x y) 0), (Z.leb_spec (cmp y z) 0),
    (Z.leb_spec (cmp x z) 0); simpl in H; try discriminate; lia.
Qed.

Lemma consistent_complete (arr : list A) :
  (forall x y, In x arr -> In y arr -> (cmp x y < 0 <-> 0 < cmp y x)) ->
  (forall x y z, In x arr -> In y arr -> In z arr ->
     cmp x y <= 0 -> cmp y z <= 0 -> cmp x z <= 0) ->
  consistent cmp arr = true.
Proof.
  intros Ha Ht. unfold consistent.
  apply forallb_forall. intros x Hx.
  apply forallb_forall. intros y Hy.
  apply andb_true_intro. split.
  - pose proof (Ha x y Hx Hy).
    destruct (Z.ltb_spec (cmp x y) 0), (Z.ltb_spec 0 (cmp y x));
      simpl; auto; lia.
  - apply forallb_forall. intros z Hz.
    pose proof (Ht x y z Hx Hy Hz).
    destruct (Z.leb_spec (cmp x y) 0), (Z.leb_spec (cmp y z) 0),
      (Z.leb_spec (cmp x z) 0); simpl; auto; lia.
Qed.

Lemma precedes_In (a b : A) (l : list A) :
  precedes a b l -> In a l /\ In b l.
Proof.
  intros (l1 & l2 & l3 & ->). split.
  - apply in_or_app. right. now left.
  - apply in_or_app. right. right. apply in_or_app. right. now left.
Qed.

Lemma precedes_cons (a b x : A) (l : list A) :
  precedes a b l -> precedes a b (x :: l).
Proof. intros (l1 & l2 & l3 & ->). now exists (x :: l1), l2, l3. Qed.

Lemma precedes_filter (f : A -> bool) (a b : A) (l : list A) :
  precedes a b (List.filter f l) -> precedes a b l.
Proof.
  induction l as [|x l IH]; simpl; intros H.
  - destruct H as ([|? ?] & ? & ? & H); discriminate.
  - destruct (f x); [|now apply precedes_cons, IH].
    destruct H as ([|y l1] & l2 & l3 & H); simpl in H; injection H as -> H.
    + assert (Hb : In b (List.filter f l))
        by (rewrite H; apply in_or_app; right; now left).
      apply filter_In in Hb as [Hb _].
      apply in_split in Hb as (m1 & m2 & ->).
      now exists [], m1, m2.
    + apply precedes_cons, IH. now exists l1, l2, l3.
Qed.

Lemma precedes_ties (a b : A) (l : list A) :
  cmp a a = 0 -> cmp a b = 0 ->
  precedes a b l -> precedes a b (ties cmp a l).
Proof.
  intros Haa Hab (l1 & l2 & l3 & ->).
  exists (ties cmp a l1), (ties cmp a l2), (ties cmp a l3).
  unfold ties. rewrite filter_app. simpl. rewrite Haa. simpl.
  rewrite filter_app. simpl. rewrite Hab. reflexivity.
Qed.

(** Under a consistent comparison [sort] is a stable sort. *)
Theorem sort_stable (arr : list A) :
  consistent cmp arr = true -> stable cmp arr (sort cmp arr).
Proof.
  intros Hc a b Hab Hprec.
  destruct (precedes_In _ _ _ Hprec) as [Ha Hb].
  pose proof (consistent_antisym arr Hc) as Hanti.
  pose proof (consistent_trans arr Hc) as Htrans.
  assert (Hdom : Forall (fun x => In x arr) arr)
    by (apply Forall_forall; auto).
  apply precedes_filter with (f := fun x => cmp a x =? 0).
  fold (ties cmp a (sort cmp arr)).
  rewrite (sort_ties cmp (fun x => In x arr) Hanti Htrans arr a Hdom Ha).
  apply precedes_ties; auto.
  apply (cmp_refl cmp (fun x => In x arr) Hanti a Ha).
Qed.

Theorem sort_consistent_sorted (arr : list A) :
  consistent cmp arr = true -> sorted_by cmp (sort cmp arr).
Proof.
  intros Hc.
  apply (sort_sorted cmp (fun x => In x arr)
           (consistent_antisym arr Hc) (consistent_trans arr Hc)).
  apply Forall_forall; auto.
Qed.






End Stability.
End SortFacts.

(* ===================================================================== *)
(** * Properties of numbers and strings *)
(* ===================================================================== *)

Module NumberFacts.
Import Js.

Lemma Number_lessThan_rank (x y : Number) :
  isNaN x = false -> isNaN y = false ->
  exists b, Number_lessThan x y = Some b
            /\ (b = true <-> rank_lt (rank x) (rank y)).
Proof.
  intros Hx Hy. unfold Number_lessThan, rank_lt.
  destruct x as [sx|sx| |sx mx ex]; try discriminate;
    destruct y as [sy|sy| |sy my ey]; try discriminate;
    try destruct sx; try destruct sy; simpl;
    try (eexists; split; [reflexivity|]; split; [intros; try discriminate; lia
                                               | intros; try reflexivity; lia]).
  all: change (Pos.compare_cont Eq mx my) with (Pos.compare mx my).
  all: destruct (Z.compare_spec ex ey); simpl;
    try destruct (Pos.compare_spec mx my); simpl;
    eexists; (split; [reflexivity|]);
    split; intros; try discriminate; try reflexivity; lia.
Qed.

(** [x < y] on numbers, as the operator returns it. *)
Lemma lessThan_numbers (x y : Number) :
  lessThan (VNumber x) (VNumber y)
  = match Number_lessThan x y with Some b => b | None => false end.
Proof. reflexivity. Qed.

Lemma greaterThan_numbers (x y : Number) :
  greaterThan (VNumber x) (VNumber y) = lessThan (VNumber y) (VNumber x).
Proof. reflexivity. Qed.

Lemma lessThan_asym (x y : Number) :
  isNaN x = false -> isNaN y = false ->
  lessThan (VNumber x) (VNumber y) = true ->
  lessThan (VNumber y) (VNumber x) = false.
Proof.
  intros Hx Hy. rewrite !lessThan_numbers.
  destruct (Number_lessThan_rank x y Hx Hy) as (b & -> & Hb).
  destruct (Number_lessThan_rank y x Hy Hx) as (c & -> & Hc).
  intros ->. destruct c; [|reflexivity].
  unfold rank_lt in *. destruct Hb as [Hb _], Hc as [Hc _].
  specialize (Hb eq_refl). specialize (Hc eq_refl). lia.
Qed.

Lemma lessThan_negatively_transitive (x y z : Number) :
  isNaN x = false -> isNaN y = false -> isNaN z = false ->
  lessThan (VNumber y) (VNumber x) = false ->
  lessThan (VNumber z) (VNumber y) = false ->
  lessThan (VNumber z) (VNumber x) = false.
Proof.
  intros Hx Hy Hz. rewrite !lessThan_numbers.
  destruct (Number_lessThan_rank y x Hy Hx) as (b & -> & Hb).
  destruct (Number_lessThan_rank z y Hz Hy) as (c & -> & Hc).
  destruct (Number_lessThan_rank z x Hz Hx) as (d & -> & Hd).
  intros -> ->. destruct d; [|reflexivity].
  unfold rank_lt in *. destruct Hb as [_ Hb], Hc as [_ Hc], Hd as [Hd _].
  specialize (Hd eq_refl).
  assert (Hnb : ~ (fst (rank y) < fst (rank x)
                   \/ fst (rank y) = fst (rank x)
                      /\ (fst (snd (rank y)) < fst (snd (rank x))
                          \/ fst (snd (rank y)) = fst (snd (rank x))
                             /\ snd (snd (rank y)) < snd (snd (rank x)))))
    by (intros H; specialize (Hb H); discriminate).
  assert (Hnc : ~ (fst (rank z) < fst (rank y)
                   \/ fst (rank z) = fst (rank y)
                      /\ (fst (snd (rank z)) < fst (snd (rank y))
                          \/ fst (snd (rank z)) = fst (snd (rank y))
                             /\ snd (snd (rank z)) < snd (snd (rank y)))))
    by (intros H; specialize (Hc H); discriminate).
  lia.
Qed.

End NumberFacts.

Module StringFacts.
Import Js.

Lemma prefix_spec (p s : string) :
  String.prefix p s = true <-> exists rest, s = p +:+ rest.
Proof.
  revert s. induction p as [|c p IH]; intros s; simpl.
  - split; [intros _; now exists s | intros _; now destruct s].
  - destruct s as [|d s]; simpl.
    + split; [discriminate | intros [rest H]; discriminate].
    + destruct (ascii_dec c d) as [->|Hne].
      * rewrite IH. split; intros [rest H]; exists rest.
        -- now rewrite H.
        -- now injection H.
      * split; [discriminate | intros [rest H]; injection H; congruence].
Qed.

(** [includes] is the substring test. *)
Lemma includes_spec (s t : string) :
  includes s t = true <-> exists before after, s = before +:+ t +:+ after.
Proof.
  induction s as [|c s IH].
  - change (includes EmptyString t) with (String.prefix t EmptyString || false).
    rewrite orb_false_r, prefix_spec. split.
    + intros [rest H]. now exists EmptyString, rest.
    + intros ([|? ?] & after & H); simpl in H; [now exists after|discriminate].
  - change (includes (String c s) t)
      with (String.prefix t (String c s) || includes s t).
    rewrite orb_true_iff, prefix_spec, IH. split.
    + intros [[rest H]|(before & after & H)].
      * now exists EmptyString, rest.
      * exists (String c before), after. simpl. now rewrite H.
    + intros ([|d before] & after & H); simpl in H.
      * left. now exists after.
      * right. injection H as _ H. now exists before, after.
Qed.

Lemma length_append (s t : string) :
  String.length (s +:+ t) = (String.length s + String.length t)%nat.
Proof. induction s as [|c s IH]; simpl; [reflexivity | now rewrite IH]. Qed.

Lemma includes_length (s t : string) :
  includes s t = true -> (String.length t <= String.length s)%nat.
Proof.
  rewrite includes_spec. intros (before & after & ->).
  rewrite !length_append. lia.
Qed.

Lemma toLowerCase_length (s : string) :
  String.length (toLowerCase s) = String.length s.
Proof. induction s as [|c s IH]; simpl; [reflexivity | now rewrite IH]. Qed.

Lemma lower_code_unit_idempotent (c : ascii) :
  lower_code_unit (lower_code_unit c) = lower_code_unit c.
Proof.
  destruct c as [[] [] [] [] [] [] [] []]; reflexivity.
Qed.

(** Lower-casing twice is lower-casing once: a query and its lower case
    select the same records. *)
Lemma toLowerCase_idempotent (s : string) :
  toLowerCase (toLowerCase s) = toLowerCase s.
Proof.
  induction s as [|c s IH]; simpl; [reflexivity|].
  now rewrite lower_code_unit_idempotent, IH.
Qed.

Lemma string_repeat_length (c : ascii) (n : nat) :
  String.length (string_repeat c n) = n.
Proof. induction n as [|n IH]; simpl; [reflexivity | now rewrite IH]. Qed.

End StringFacts.

(* ===================================================================== *)
(** * The log table: page window, exclusion, text filter *)
(* ===================================================================== *)

Module RetrievalFacts.
Import Js Retrieval ArrayFacts SortFacts StringFacts.

Lemma pageWindow_currentItems (logs : list LogRecord) (page : Z) :
  currentItems logs page = pageWindow logs page.
Proof.
  unfold currentItems, pageWindow, indexOfFirstItem, indexOfLastItem.
  f_equal; unfold itemsPerPage; lia.
Qed.


Lemma sortedItems_Permutation (items : list LogRecord) field direction :
  Permutation (sortedItems items field direction) items.
Proof.
  unfold sortedItems. destruct field as [[|c f]|]; try reflexivity.
  apply sort_Permutation.
Qed.

Lemma sortedItems_In (items : list LogRecord) field direction r :
  In r (sortedItems items field direction) <-> In r items.
Proof.
  split; apply Permutation_in;
    [|symmetry]; apply sortedItems_Permutation.
Qed.


Lemma not_embedding_spec (log : LogRecord) :
  not_embedding log = true <-> Get log "pipelineRunType" <> VString "embedding".
Proof.
  unfold not_embedding, strictly_differs.
  destruct (Get log "pipelineRunType") as [| |b|x|s|l|p];
    try (split; [intros _; discriminate | intros _; reflexivity]).
  destruct (String.eqb_spec s "embedding") as [->|Hne]; simpl.
  - split; [discriminate | congruence].
  - split; [congruence | reflexivity].
Qed.

Lemma filteredLogs_count (logs : list LogRecord) :
  List.length (filteredLogs logs) = countNotEmbedding logs.
Proof.
  unfold filteredLogs.
  induction logs as [|log logs IH]; simpl; [reflexivity|].
  assert (E : not_embedding log
              = match Get log "pipelineRunType" with
                | VString type => negb (String.eqb type "embedding")
                | _ => true
                end) by reflexivity.
  rewrite E.
  destruct (Get log "pipelineRunType") as [| |b|x|s|l|p]; simpl;
    try (now rewrite IH).
  destruct (String.eqb s "embedding"); simpl; now rewrite IH.
Qed.

(** Every rendered row is a record of the page window, hence of the
    category-filtered set. *)
Lemma tableRows_in_window (logs : list LogRecord) (ui : UiState)
    (rows : list LogRecord) (r : LogRecord) :
  tableRows (render logs ui) = Normal rows ->
  In r rows ->
  In r (pageWindow logs (currentPage ui)).
Proof.
  unfold render, filteredAndSortedItems. simpl.
  rewrite pageWindow_currentItems. intros Hrows Hr.
  destruct (filter_array_inv _ _ _ Hrows) as (keep & _ & ->).
  apply filter_In in Hr as [Hr _]. now apply sortedItems_In in Hr.
Qed.

Lemma pageWindow_not_embedding (logs : list LogRecord) (page : Z)
    (r : LogRecord) :
  In r (pageWindow logs page) -> not_embedding r = true.
Proof.
  intros Hr. apply slice_In in Hr. now apply filter_In in Hr.
Qed.

(** ** The text filter on one record *)

(** [value.toString()] returns the string form of the value exactly on
    the values that have the method. *)
Lemma toString_call_hasToString (v : Value) :
  hasToString v = true -> toString_call v = Normal (ToString v).
Proof.
  unfold hasToString.
  destruct v as [| |b|x|s|elements|properties]; try discriminate;
    try reflexivity; cbn [defined andb toString_call].
  - intros ->. reflexivity.
  - cbn [convertible]. intros H. apply negb_true_iff in H. now rewrite H.
Qed.

Lemma toString_call_throws (v : Value) :
  hasToString v = false -> exists message, toString_call v = Throw (TypeError message).
Proof.
  unfold hasToString.
  destruct v as [| |b|x|s|elements|properties]; try discriminate;
    cbn [defined andb toString_call]; eauto.
  - intros ->. eauto.
  - cbn [convertible]. intros H. apply negb_false_iff in H. rewrite H. eauto.
Qed.

Lemma hasToString_defined (v : Value) :
  hasToString v = true -> defined v = true.
Proof. unfold hasToString. intros H. now apply andb_prop in H. Qed.

Lemma undefined_hasToString (v : Value) :
  defined v = false -> hasToString v = false.
Proof. unfold hasToString. now intros ->. Qed.

Lemma valueIncludesQuery_hasToString (q : string) (v : Value) :
  hasToString v = true ->
  valueIncludesQuery q v
  = Normal (includes (toLowerCase (ToString v)) (toLowerCase q)).
Proof.
  intros H. unfold valueIncludesQuery.
  now rewrite (toString_call_hasToString v H).
Qed.

Lemma valueIncludesQuery_throws (q : string) (v : Value) :
  hasToString v = false ->
  exists message, valueIncludesQuery q v = Throw (TypeError message).
Proof.
  intros H. unfold valueIncludesQuery.
  destruct (toString_call_throws v H) as [message ->]. now exists message.
Qed.

Lemma matches_includes (q : string) (v : Value) :
  includes (toLowerCase (ToString v)) (toLowerCase q) = true <-> matches q v.
Proof. apply includes_spec. Qed.

Lemma matchesb_spec (q : string) (v : Value) :
  matchesb q v = true <-> matches q v.
Proof. apply includes_spec. Qed.

(** A property that reads as a defined value is one of the values. *)
Lemma Get_In_values (o : Properties) (k : string) (v : Value) :
  Get o k = v -> v <> VUndefined -> In v (Object_values o).
Proof.
  induction o as [|[k' u] o IH]; simpl; [congruence|].
  destruct (String.eqb k' k); [now left | right; auto].
Qed.

(** On a record all of whose values have the method the filter decides,
    and it keeps the record exactly when some value matches. *)
Lemma itemValuesIncludeQuery_hasToString (q : string) (item : LogRecord) :
  forallb hasToString (Object_values item) = true ->
  itemValuesIncludeQuery q item
  = Normal (existsb (fun v => includes (toLowerCase (ToString v))
                                       (toLowerCase q))
              (Object_values item)).
Proof.
  intros H. unfold itemValuesIncludeQuery. apply some_Normal.
  rewrite forallb_forall in H. apply Forall_forall. intros v Hv.
  apply valueIncludesQuery_hasToString. auto.
Qed.

(** The first value without the method, if the values before it do not
    match, makes the filter throw. *)
Lemma itemValuesIncludeQuery_throws (q : string) (item : LogRecord)
    (before after : list Value) (v : Value) :
  Object_values item = before ++ v :: after ->
  hasToString v = false ->
  Forall (fun u => hasToString u = true /\ ~ matches q u) before ->
  exists message, itemValuesIncludeQuery q item = Throw (TypeError message).
Proof.
  intros Hvals Hv Hbefore.
  destruct (valueIncludesQuery_throws q v Hv) as [message He].
  exists message. unfold itemValuesIncludeQuery.
  apply some_Throw with (before := before) (x := v) (after := after); auto.
  eapply Forall_impl; [|exact Hbefore]. intros u [Hu Hno].
  rewrite valueIncludesQuery_hasToString by exact Hu.
  destruct (includes _ _) eqn:E; [|reflexivity].
  exfalso. apply Hno. now apply matches_includes.
Qed.

(** The filter keeps a record exactly when it reaches a matching value:
    the values before it have the method and do not match. *)
Lemma itemValuesIncludeQuery_true_iff (q : string) (item : LogRecord) :
  itemValuesIncludeQuery q item = Normal true
  <-> exists before v after,
        Object_values item = before ++ v :: after
        /\ forallb (fun u => hasToString u && negb (matchesb q u)) before
           = true
        /\ hasToString v = true
        /\ matches q v.
Proof.
  unfold itemValuesIncludeQuery. split.
  - intros H. apply some_true_inv in H
      as (before & v & after & Hvals & Hbefore & Hv).
    exists before, v, after. split; [exact Hvals|].
    assert (Hcall : forall u b, valueIncludesQuery q u = Normal b ->
                      hasToString u = true /\ matchesb q u = b).
    { intros u b E. destruct (hasToString u) eqn:Hu.
      - rewrite (valueIncludesQuery_hasToString q u Hu) in E.
        injection E as <-. auto.
      - destruct (valueIncludesQuery_throws q u Hu) as [message Ht].
        congruence. }
    split; [|split].
    + apply forallb_forall. intros u Hu.
      rewrite Forall_forall in Hbefore.
      destruct (Hcall u false (Hbefore u Hu)) as [-> ->]. reflexivity.
    + now destruct (Hcall v true Hv).
    + apply matchesb_spec. now destruct (Hcall v true Hv).
  - intros (before & v & after & Hvals & Hbefore & Hv & Hm).
    apply some_found with (before := before) (x := v) (after := after); auto.
    + rewrite forallb_forall in Hbefore. apply Forall_forall. intros u Hu.
      specialize (Hbefore u Hu). apply andb_prop in Hbefore as [Hd Hn].
      rewrite valueIncludesQuery_hasToString by exact Hd.
      fold (matchesb q u). now destruct (matchesb q u).
    + rewrite valueIncludesQuery_hasToString by exact Hv.
      fold (matchesb q v). apply matchesb_spec in Hm. now rewrite Hm.
Qed.

(** A query longer than every value before the hole matches none of
    them. *)
Lemma long_query_matches_nothing (q : string) (v : Value) :
  (String.length (ToString v) < String.length q)%nat -> ~ matches q v.
Proof.
  intros Hlen Hm. apply matches_includes, includes_length in Hm.
  rewrite !toLowerCase_length in Hm. lia.
Qed.

Lemma first_without (test : Value -> bool) (values : list Value) :
  forallb test values = false ->
  exists before v after,
    values = before ++ v :: after
    /\ test v = false
    /\ forallb test before = true.
Proof.
  induction values as [|u values IH]; simpl; [discriminate|].
  destruct (test u) eqn:Hu; simpl.
  - intros H. destruct (IH H) as (before & v & after & -> & Hv & Hb).
    exists (u :: before), v, after. simpl. now rewrite Hu, Hb.
  - intros _. now exists [], u, values.
Qed.

(** Some query makes the filter throw on a record with a value that has
    not the method. *)
Lemma value_without_toString_throws (item : LogRecord) :
  forallb hasToString (Object_values item) = false ->
  exists q message, itemValuesIncludeQuery q item = Throw (TypeError message).
Proof.
  intros H.
  destruct (first_without _ _ H) as (before & v & after & Hvals & Hv & Hb).
  set (bound := fold_right (fun u n => Nat.max (String.length (ToString u)) n)
                  O before).
  exists (string_repeat "x"%char (S bound)).
  eapply itemValuesIncludeQuery_throws; eauto.
  rewrite forallb_forall in Hb. apply Forall_forall. intros u Hu.
  split; [auto|]. apply long_query_matches_nothing.
  rewrite string_repeat_length.
  assert (String.length (ToString u) <= bound)%nat; [|lia].
  subst bound. clear -Hu. induction before as [|w before IH]; simpl in *;
    [contradiction|].
  destruct Hu as [->|Hu]; [lia|]. specialize (IH Hu). lia.
Qed.

End RetrievalFacts.

(* ===================================================================== *)
(** * The claims about the log table *)
(* ===================================================================== *)

Import Js Retrieval.



(** The contrast the claim draws: a record that matches the query but lies
    on another page is not pulled into the current page. Here only the
    twelfth run matches ["r12"]; page 1 renders nothing. *)
Example text_filter_does_not_repaginate :
  tableRows (render Examples.twelveLogs
               (setFilterQuery "r12" initialState)) = Normal []
  /\ tableRows (render Examples.twelveLogs
                  (paginate 2 (setFilterQuery "r12" initialState)))
     = Normal [Examples.scored "r12" "12"].
Proof. split; reflexivity. Qed.

(** Claim C2. For every record snapshot and every filter text, sort field,
    sort direction and page number, no rendered row has pipelineRunType
    "embedding", and the total-item count handed to the pagination control
    is the number of records whose pipelineRunType is not "embedding". *)
Theorem C2_embedding_records_excluded :
  forall (logs : list LogRecord) (ui : UiState),
    totalItems (render logs ui) = countNotEmbedding logs
    /\ (forall rows r,
          tableRows (render logs ui) = Normal rows ->
          In r rows ->
          Get r "pipelineRunType" <> VString "embedding").
Proof.
  intros logs ui. split.
  - apply RetrievalFacts.filteredLogs_count.
  - intros rows r Hrows Hr.
    apply RetrievalFacts.not_embedding_spec.
    apply RetrievalFacts.pageWindow_not_embedding
      with (logs := logs) (page := currentPage ui).
    now apply RetrievalFacts.tableRows_in_window with (rows := rows).
Qed.

Lemma C2_witness :
  totalItems (render Examples.twelveLogs Examples.pageTwo) = 11%nat
  /\ Get (Examples.scored "r12" "12") "pipelineRunType"
     <> VString "embedding".
Proof.
  split.
  - exact (proj1 (C2_embedding_records_excluded
                    Examples.twelveLogs Examples.pageTwo)).
  - exact (proj2 (C2_embedding_records_excluded
                    Examples.twelveLogs Examples.pageTwo)
             [Examples.scored "r12" "12"] (Examples.scored "r12" "12")
             eq_refl (or_introl eq_refl)).
Defined.

(** The text filter over a list of records whose values are all defined:
    it returns normally, keeping exactly the records with a matching
    value. *)
Lemma filteredAndSortedItems_defined (items : list LogRecord) (q : string) :
  Forall (fun item => forallb hasToString (Object_values item) = true) items ->
  filteredAndSortedItems items q
  = Normal (List.filter
              (fun item =>
                 existsb (fun v => includes (toLowerCase (ToString v))
                                            (toLowerCase q))
                   (Object_values item))
              items).
Proof.
  intros H. apply ArrayFacts.filter_array_Normal.
  eapply Forall_impl; [|exact H].
  intros item. apply RetrievalFacts.itemValuesIncludeQuery_hasToString.
Qed.

(** As stated, claim C5 fails on a record with a [null] value before the
    matching one: the [method] is "Search" and the query "SEARCH", yet the
    record is not kept, because [null.toString()] throws first. *)
Lemma C5_counterexample :
  ~ (forall (item : LogRecord) (q : string),
        itemValuesIncludeQuery q item = Normal true
        <-> exists v, In v (Object_values item) /\ matches q v).
Proof.
  intros H.
  destruct (H (Examples.withoutQuery "r1") "SEARCH") as [_ Hkept].
  assert (Hmatch : exists v,
             In v (Object_values (Examples.withoutQuery "r1"))
             /\ matches "SEARCH" v).
  { exists (VString "Search"). split; [simpl; tauto|].
    now exists EmptyString, EmptyString. }
  specialize (Hkept Hmatch). vm_compute in Hkept. discriminate Hkept.
Qed.

(** Claim C5, amended. The text filter is case-insensitive and matches
    against the string form of the field values, taken in order: a record
    is kept if and only if one of its field values, converted to a string
    and lower-cased, contains the lower-cased filter text as a substring
    and toString() can be called on that value and on every field value
    before it (the values before it being the ones that do not match).
    The call fails on null and undefined, on an object with a toString
    key of its own, and on an array that holds such an object. Hence, for
    a record on all of whose field values toString() can be called, it is
    kept if and only if at least one field value matches, and dropped
    otherwise; the filter text and its lower case select the same
    records; and the filter text "SEARCH" keeps such a record when its
    method field is "Search". *)
Theorem C5_text_filter_matches_any_field :
  forall (item : LogRecord) (q : string),
    (itemValuesIncludeQuery q item = Normal true
     <-> exists before v after,
           Object_values item = before ++ v :: after
           /\ forallb (fun u => hasToString u && negb (matchesb q u)) before
              = true
           /\ hasToString v = true
           /\ matches q v)
    /\ itemValuesIncludeQuery (toLowerCase q) item
       = itemValuesIncludeQuery q item
    /\ (forallb hasToString (Object_values item) = true ->
        (itemValuesIncludeQuery q item = Normal true
         <-> exists v, In v (Object_values item) /\ matches q v)
        /\ (itemValuesIncludeQuery q item = Normal false
            <-> ~ exists v, In v (Object_values item) /\ matches q v)
        /\ (Get item "method" = VString "Search" ->
            itemValuesIncludeQuery "SEARCH" item = Normal true)).
Proof.
  intros item q.
  split; [apply RetrievalFacts.itemValuesIncludeQuery_true_iff|].
  split.
  { unfold itemValuesIncludeQuery, valueIncludesQuery.
    now rewrite StringFacts.toLowerCase_idempotent. }
  intros Hdef.
  pose proof (RetrievalFacts.itemValuesIncludeQuery_hasToString q item Hdef)
    as E.
  assert (Hex : existsb (fun v => includes (toLowerCase (ToString v))
                                           (toLowerCase q))
                  (Object_values item) = true
                <-> exists v, In v (Object_values item) /\ matches q v).
  { rewrite existsb_exists. split; intros (v & Hv & Hm); exists v;
      (split; [exact Hv|]); now apply RetrievalFacts.matches_includes. }
  repeat split.
  - rewrite E. intros H. apply Hex. congruence.
  - rewrite E. intros H. f_equal. now apply Hex.
  - rewrite E. intros H Hm. apply Hex in Hm. congruence.
  - rewrite E. intros H. f_equal.
    destruct (existsb _ _); [|reflexivity]. exfalso. now apply H, Hex.
  - intros Hmethod.
    assert (Hin : In (VString "Search") (Object_values item))
      by (eapply RetrievalFacts.Get_In_values; [exact Hmethod|discriminate]).
    rewrite (RetrievalFacts.itemValuesIncludeQuery_hasToString _ item Hdef).
    f_equal. apply existsb_exists. exists (VString "Search"). now split.
Qed.

(** An object that has a key named toString stops the filter as a [null]
    does: the method is "Search", and the record is not kept. *)
Example own_toString_key_aborts_the_filter :
  itemValuesIncludeQuery "SEARCH" (Examples.evaluatorNamedToString "r1")
  = Throw (TypeError "value.toString is not a function").
Proof. reflexivity. Qed.

Lemma C5_witness :
  itemValuesIncludeQuery "SEARCH" (Examples.failed "r1") = Normal true.
Proof.
  exact (proj2 (proj2 (proj2 (proj2
           (C5_text_filter_matches_any_field
              (Examples.failed "r1") "SEARCH")) eq_refl))
           eq_refl).
Defined.

(** Claim C10. The text filter calls toString() on the field values with no
    null guard. It returns a kept/dropped decision for every filter text
    exactly on the records on all of whose field values toString() can be
    called, so only on records whose field values are neither null nor
    undefined; on a record with a null or undefined value whose earlier
    values do not match the filter text it raises a TypeError instead, and
    the whole render of the table with it. Such records exist. *)
Theorem C10_text_filter_throws_on_null :
  (forall (item : LogRecord),
      ((forall q, exists kept, itemValuesIncludeQuery q item = Normal kept)
       <-> forallb hasToString (Object_values item) = true)
      /\ ((forall q, exists kept, itemValuesIncludeQuery q item = Normal kept)
          -> forallb defined (Object_values item) = true))
  /\ (forall (item : LogRecord) (q : string) (before after : list Value)
             (v : Value),
         Object_values item = before ++ v :: after ->
         defined v = false ->
         forallb (fun u => hasToString u && negb (matchesb q u)) before
         = true ->
         exists message,
           itemValuesIncludeQuery q item = Throw (TypeError message))
  /\ (exists (item : LogRecord) (q message : string),
         (exists key, In (key, VNull) item)
         /\ itemValuesIncludeQuery q item = Throw (TypeError message)
         /\ tableRows (render [item] (setFilterQuery q initialState))
            = Throw (TypeError message)).
Proof.
  assert (Htotal : forall item,
            (forall q, exists kept,
                itemValuesIncludeQuery q item = Normal kept)
            -> forallb hasToString (Object_values item) = true).
  { intros item Hall.
    destruct (forallb hasToString (Object_values item)) eqn:Hdef;
      [reflexivity|exfalso].
    destruct (RetrievalFacts.value_without_toString_throws item Hdef)
      as (q & message & Hthrow).
    destruct (Hall q) as [kept Hkept]. congruence. }
  split; [|split].
  - intros item. split; [split|].
    + apply Htotal.
    + intros Hdef q. eexists.
      now apply RetrievalFacts.itemValuesIncludeQuery_hasToString.
    + intros Hall. specialize (Htotal item Hall).
      rewrite forallb_forall in *. intros v Hv.
      now apply RetrievalFacts.hasToString_defined, Htotal.
  - intros item q before after v Hvals Hv Hbefore.
    assert (Hbefore' : Forall (fun u => hasToString u = true /\ ~ matches q u)
                         before).
    { rewrite forallb_forall in Hbefore. apply Forall_forall. intros u Hu.
      specialize (Hbefore u Hu). apply andb_prop in Hbefore as [Hd Hm].
      split; [exact Hd|]. intros Hyes.
      apply RetrievalFacts.matchesb_spec in Hyes. rewrite Hyes in Hm.
      discriminate. }
    apply (RetrievalFacts.itemValuesIncludeQuery_throws
             q item before after v Hvals); auto.
    now apply RetrievalFacts.undefined_hasToString.
  - exists (Examples.withoutQuery "r1"), "SEARCH",
      "Cannot read properties of null (reading 'toString')".
    split; [exists "searchQuery"; simpl; tauto|]. split; reflexivity.
Qed.

Lemma C10_witness :
  exists message,
    itemValuesIncludeQuery "SEARCH" (Examples.withoutQuery "r1")
    = Throw (TypeError message).
Proof.
  refine (proj1 (proj2 C10_text_filter_throws_on_null)
            (Examples.withoutQuery "r1") "SEARCH"
            [VString "r1"; VString "completion"] [VString "Search"] VNull
            eq_refl eq_refl eq_refl).
Defined.

(* ===================================================================== *)
(** * The claims about sorting *)
(* ===================================================================== *)

Module SortedItemsFacts.
Import Js Retrieval SortFacts NumberFacts.

(** The comparison on the score field, spelled out on the parsed numbers. *)
Lemma compareItems_score (direction : SortDirection) (a b : LogRecord) :
  compareItems "score" direction a b
  = if lessThan (VNumber (parseFloat (Get a "score")))
                (VNumber (parseFloat (Get b "score")))
    then match direction with asc => -1 | desc => 1 end
    else if lessThan (VNumber (parseFloat (Get b "score")))
                     (VNumber (parseFloat (Get a "score")))
    then match direction with asc => 1 | desc => -1 end
    else 0.
Proof. reflexivity. Qed.

Lemma compareItems_other (field : string) (direction : SortDirection)
    (a b : LogRecord) :
  field <> "score" ->
  compareItems field direction a b
  = if lessThan (Get a field) (Get b field)
    then match direction with asc => -1 | desc => 1 end
    else if greaterThan (Get a field) (Get b field)
    then match direction with asc => 1 | desc => -1 end
    else 0.
Proof.
  intros Hne. unfold compareItems.
  destruct (String.eqb_spec field "score"); [contradiction|reflexivity].
Qed.


Ltac use_order_facts :=
  repeat match goal with
         | H : true = true -> _ |- _ => specialize (H eq_refl)
         | H : false = false -> _ |- _ => specialize (H eq_refl)
         | H : true = false -> _ |- _ => clear H
         | H : false = true -> _ |- _ => clear H
         end;
  try discriminate.

(** When every score in the window parses to a number the comparison on
    the score field is consistent, in either direction. *)
Lemma score_consistent (window : list LogRecord) (direction : SortDirection) :
  forallb (fun r => negb (isNaN (parseFloat (Get r "score")))) window = true ->
  consistent (compareItems "score" direction) window = true.
Proof.
  intros Hnum. rewrite forallb_forall in Hnum.
  assert (Hn : forall r, In r window ->
                 isNaN (parseFloat (Get r "score")) = false).
  { intros r Hr. specialize (Hnum r Hr). now destruct (isNaN _). }
  apply consistent_complete.
  - intros a b Ha Hb. rewrite !compareItems_score.
    pose proof (lessThan_asym _ _ (Hn a Ha) (Hn b Hb)) as H1.
    pose proof (lessThan_asym _ _ (Hn b Hb) (Hn a Ha)) as H2.
    destruct (lessThan (VNumber (parseFloat (Get a "score")))
                       (VNumber (parseFloat (Get b "score")))),
             (lessThan (VNumber (parseFloat (Get b "score")))
                       (VNumber (parseFloat (Get a "score"))));
      use_order_facts; destruct direction; lia.
  - intros a b c Ha Hb Hc. rewrite !compareItems_score.
    pose proof (lessThan_asym _ _ (Hn a Ha) (Hn b Hb)) as H1.
    pose proof (lessThan_asym _ _ (Hn b Hb) (Hn a Ha)) as H2.
    pose proof (lessThan_asym _ _ (Hn b Hb) (Hn c Hc)) as H3.
    pose proof (lessThan_asym _ _ (Hn c Hc) (Hn b Hb)) as H4.
    pose proof (lessThan_asym _ _ (Hn a Ha) (Hn c Hc)) as H5.
    pose proof (lessThan_asym _ _ (Hn c Hc) (Hn a Ha)) as H6.
    pose proof (lessThan_negatively_transitive _ _ _
                  (Hn a Ha) (Hn b Hb) (Hn c Hc)) as H7.
    pose proof (lessThan_negatively_transitive _ _ _
                  (Hn c Hc) (Hn b Hb) (Hn a Ha)) as H8.
    destruct (lessThan (VNumber (parseFloat (Get a "score")))
                       (VNumber (parseFloat (Get b "score")))),
             (lessThan (VNumber (parseFloat (Get b "score")))
                       (VNumber (parseFloat (Get a "score")))),
             (lessThan (VNumber (parseFloat (Get b "score")))
                       (VNumber (parseFloat (Get c "score")))),
             (lessThan (VNumber (parseFloat (Get c "score")))
                       (VNumber (parseFloat (Get b "score")))),
             (lessThan (VNumber (parseFloat (Get a "score")))
                       (VNumber (parseFloat (Get c "score")))),
             (lessThan (VNumber (parseFloat (Get c "score")))
                       (VNumber (parseFloat (Get a "score"))));
      use_order_facts; destruct direction; lia.
Qed.

Lemma runId_eqb_refl (x : string) : String.eqb x x = true.
Proof. apply String.eqb_refl. Qed.


End SortedItemsFacts.


(** What the sort does there: nothing, and the table shows the window as
    fetched. *)
Example sort_with_failed_run :
  sortedItems Examples.tenFailedNine (Some "score") asc
  = Examples.tenFailedNine
  /\ tableRows (render Examples.tenFailedNine
                  {| currentPage := 1;
                     sortField := Some "score";
                     sortDirection := asc;
                     filterQuery := "" |})
     = Normal Examples.tenFailedNine.
Proof. split; reflexivity. Qed.




(** What the sort does there. *)
Example sort_with_inconsistent_comparison :
  map runId (sortedItems Examples.eightRuns (Some "score") asc)
  = [ "a"; "b"; "c"; "h"; "d"; "e"; "f"; "g" ].
Proof. reflexivity. Qed.



(** In particular the sort by score is stable on every window whose scores
    all parse to numbers. *)
Corollary score_sort_stable (window : list LogRecord)
    (direction : SortDirection) :
  forallb (fun r => negb (isNaN (parseFloat (Get r "score")))) window = true ->
  stable (compareItems "score" direction) window
    (sortedItems window (Some "score") direction).
Proof.
  intros Hnum. apply SortFacts.sort_stable.
  now apply SortedItemsFacts.score_consistent.
Qed.

(* ===================================================================== *)
(** * The claims about the deploy form *)
(* ===================================================================== *)

Module DeployFormFacts.
Import DeployForm.

(** The loop of the handler and the specification's check agree. *)
Lemma hasEmptySecret_complete (pairs : list SecretPair) :
  hasEmptySecret pairs = negb (forallb complete pairs).
Proof.
  induction pairs as [|secret pairs IH]; simpl; [reflexivity|].
  unfold complete at 1.
  destruct (String.eqb (key secret) ""), (String.eqb (value secret) "");
    simpl; auto.
Qed.

Lemma hasEmptySecret_exists (pairs : list SecretPair) :
  hasEmptySecret pairs = true
  <-> exists secret, In secret pairs /\ (key secret = "" \/ value secret = "").
Proof.
  induction pairs as [|secret pairs IH]; simpl.
  - split; [discriminate | intros (? & [] & _)].
  - destruct (String.eqb_spec (key secret) "") as [Hk|Hk]; simpl.
    + split; [intros _; exists secret; auto | reflexivity].
    + destruct (String.eqb_spec (value secret) "") as [Hv|Hv]; simpl.
      * split; [intros _; exists secret; auto | reflexivity].
      * rewrite IH. split.
        -- intros (s & Hs & H). exists s. auto.
        -- intros (s & [<-|Hs] & H); [tauto | exists s; auto].
Qed.

(** With a credential, a form that fails validation gets the message of
    its first failed check and nothing else happens. *)
Lemma handleSubmit_invalid (st : FormState) (world : World) (token : string)
    (e : ValidationError) :
  session world = getSession_resolves (Some token) -> token <> "" ->
  validate st = Some e ->
  handleSubmit st world = (st, [alert (validationMessage e)]).
Proof.
  intros Hs Ht Hv. unfold handleSubmit, validate in *. rewrite Hs.
  destruct token as [|c token]; [contradiction|].
  rewrite hasEmptySecret_complete.
  destruct (String.eqb (pipelineName st) ""); [now injection Hv as <-|].
  destruct (String.eqb (githubUrl st) ""); [now injection Hv as <-|].
  destruct (forallb complete (secretPairs st)); [discriminate|].
  now injection Hv as <-.
Qed.

(** Whatever the world answers, a form that fails validation sends
    nothing. *)
Lemma handleSubmit_invalid_no_request (st : FormState) (world : World)
    (e : ValidationError) :
  validate st = Some e -> requests (snd (handleSubmit st world)) = O.
Proof.
  intros Hv. unfold handleSubmit.
  destruct (session world) as [|[[|c token]|]]; try reflexivity.
  assert (Hs : session {| session := getSession_resolves (Some (String c token));
                          deployResponse := deployResponse world;
                          randomMillis := randomMillis world |}
               = getSession_resolves (Some (String c token))) by reflexivity.
  pose proof (handleSubmit_invalid st _ (String c token) e Hs
                ltac:(discriminate) Hv) as H.
  unfold handleSubmit in H. simpl in H. rewrite H. reflexivity.
Qed.

(** With a credential and a valid form, exactly one request goes out,
    carrying the form's data. *)
Lemma handleSubmit_valid (st : FormState) (world : World) (token : string) :
  session world = getSession_resolves (Some token) -> token <> "" ->
  validate st = None ->
  handleSubmit st world
  = let request :=
      POST_deploy token {| pipeline_name := pipelineName st;
                           repo_url := githubUrl st;
                           secret_pairs := secretPairs st |} in
    match deployResponse world with
    | fetch_rejects =>
        (setIsLoading false st,
         [ request;
           console_error "Error creating pipeline:";
           alert "An error occurred while creating the pipeline. Please try again." ])
    | fetch_resolves status =>
        if ok status
        then (setIsLoading true st,
              [ request;
                console_log "Pipeline created successfully";
                setTimeout (randomMillis world + 1000) ])
        else (setIsLoading false st,
              [ request;
                console_error "Pipeline creation failed";
                alert "Failed to create the pipeline. Please try again." ])
    end.
Proof.
  intros Hs Ht Hv. unfold handleSubmit, validate in *. rewrite Hs.
  destruct token as [|c token]; [contradiction|].
  rewrite hasEmptySecret_complete.
  destruct (String.eqb (pipelineName st) ""); [discriminate|].
  destruct (String.eqb (githubUrl st) ""); [discriminate|].
  destruct (forallb complete (secretPairs st)); [|discriminate].
  simpl. destruct (deployResponse world) as [|status]; [reflexivity|].
  destruct (ok status); reflexivity.
Qed.

End DeployFormFacts.

Import DeployForm.

(** Claim C6. Submitting with an empty pipelineName and everything else
    valid (credential available, githubUrl non-empty, secret pairs
    complete) shows a blocking validation message and sends no deploy
    request. With a credential, validation runs in order (pipeline name,
    then source URL, then every secret pair's key and value non-empty), the
    first failure decides the message, and the form is left as it was; on
    any validation failure no request is sent. *)
Theorem C6_validation_blocks_submission :
  forall (st : FormState) (world : World),
    (forall e, validate st = Some e ->
               requests (snd (handleSubmit st world)) = O)
    /\ (forall token,
          session world = getSession_resolves (Some token) -> token <> "" ->
          (pipelineName st = "" ->
           handleSubmit st world = (st, [alert "Please enter a pipeline name"]))
          /\ (pipelineName st <> "" -> githubUrl st = "" ->
              handleSubmit st world = (st, [alert "Please enter a GitHub URL"]))
          /\ (pipelineName st <> "" -> githubUrl st <> "" ->
              (exists secret, In secret (secretPairs st)
                              /\ (key secret = "" \/ value secret = "")) ->
              handleSubmit st world
              = (st, [alert "Please enter a secret key and value"]))
          /\ (forall e, validate st = Some e ->
                handleSubmit st world = (st, [alert (validationMessage e)])
                /\ alerts (snd (handleSubmit st world))
                   = [validationMessage e])).
Proof.
  intros st world. split.
  - intros e. apply DeployFormFacts.handleSubmit_invalid_no_request.
  - intros token Hs Ht.
    assert (Hinv : forall e, validate st = Some e ->
                     handleSubmit st world = (st, [alert (validationMessage e)]))
      by (intros e; now apply DeployFormFacts.handleSubmit_invalid with token).
    repeat split.
    + intros Hname. apply (Hinv MissingPipelineName).
      unfold validate. now rewrite Hname.
    + intros Hname Hurl. apply (Hinv MissingSourceUrl).
      unfold validate. apply String.eqb_neq in Hname. now rewrite Hname, Hurl.
    + intros Hname Hurl Hsecret. apply (Hinv IncompleteSecretPair).
      unfold validate. apply String.eqb_neq in Hname, Hurl.
      rewrite Hname, Hurl.
      apply DeployFormFacts.hasEmptySecret_exists in Hsecret.
      rewrite DeployFormFacts.hasEmptySecret_complete in Hsecret.
      now destruct (forallb complete (secretPairs st)).
    + now apply Hinv.
    + rewrite (Hinv e H). reflexivity.
Qed.

Lemma C6_witness :
  handleSubmit Examples.unnamedForm (Examples.signedIn (fetch_resolves 200))
  = (Examples.unnamedForm, [alert "Please enter a pipeline name"])
  /\ requests (snd (handleSubmit Examples.unnamedForm
                      (Examples.signedIn (fetch_resolves 200)))) = O.
Proof.
  split.
  - refine (proj1 (proj2 (C6_validation_blocks_submission
                            Examples.unnamedForm
                            (Examples.signedIn (fetch_resolves 200)))
                     "token-1" eq_refl _) eq_refl).
    discriminate.
  - exact (proj1 (C6_validation_blocks_submission
                    Examples.unnamedForm
                    (Examples.signedIn (fetch_resolves 200)))
             MissingPipelineName eq_refl).
Defined.



(** Claim C8, evaluated on the code. When no bearer credential is available
    at submission time the handler sends no creation request, but it shows
    the user nothing: its only effect is a console.error line. *)
Theorem C8_missing_credential_only_logged :
  forall (st : FormState) (world : World),
    (session world = getSession_resolves None
     \/ session world = getSession_resolves (Some "")) ->
    handleSubmit st world = (st, [console_error "Access token not found"])
    /\ alerts (snd (handleSubmit st world)) = []
    /\ requests (snd (handleSubmit st world)) = O.
Proof.
  intros st world Hs. unfold handleSubmit.
  destruct Hs as [-> | ->]; repeat split; reflexivity.
Qed.

Lemma C8_witness :
  handleSubmit Examples.filledForm Examples.signedOut
  = (Examples.filledForm, [console_error "Access token not found"])
  /\ alerts (snd (handleSubmit Examples.filledForm Examples.signedOut)) = [].
Proof.
  pose proof (C8_missing_credential_only_logged
                Examples.filledForm Examples.signedOut
                (or_introl eq_refl)) as H.
  exact (conj (proj1 H) (proj1 (proj2 H))).
Defined.

(* ===================================================================== *)
(** * The claim about the pipeline store *)
(* ===================================================================== *)

Import PipelineContext.

(** Claim C9. For every pipelines map, pipelineId p and pipeline value P,
    updatePipelines(p, P) produces a map in which p maps to P and every
    other key maps to exactly what it mapped to before: no other entry is
    added, removed or modified. *)
Theorem C9_updatePipelines_frame :
  forall (Pipeline : Type) (pipelines : gmap string Pipeline)
         (p : string) (P : Pipeline),
    updatePipelines p P pipelines !! p = Some P
    /\ (forall k, k <> p ->
          updatePipelines p P pipelines !! k = pipelines !! k)
    /\ dom (updatePipelines p P pipelines) = {[ p ]} ∪ dom pipelines.
Proof.
  intros Pipeline pipelines p P.
  unfold updatePipelines, setPipeline, spread_with. split; [|split].
  - apply lookup_insert_eq.
  - intros k Hk. now apply lookup_insert_ne.
  - apply dom_insert_L.
Qed.

Lemma C9_witness :
  updatePipelines "p2" 2%nat (updatePipelines "p1" 1%nat initialPipelines)
    !! "p1" = Some 1%nat.
Proof.
  assert (Hne : "p1" <> "p2") by discriminate.
  rewrite (proj1 (proj2 (C9_updatePipelines_frame nat
                           (updatePipelines "p1" 1%nat initialPipelines)
                           "p2" 2%nat)) "p1" Hne).
  exact (proj1 (C9_updatePipelines_frame nat initialPipelines "p1" 1%nat)).
Defined.

(* ===================================================================== *)
(** * Integers as binary64 numbers *)
(* ===================================================================== *)

(** Lengths and limits are integers below 2^53, which binary64 holds
    exactly; comparing two of them as numbers is comparing the integers. *)
Module IntFacts.
Import Js.

Lemma digits2_pos_bounds (p : positive) :
  2 ^ (Zpos (digits2_pos p) - 1) <= Zpos p < 2 ^ Zpos (digits2_pos p).
Proof.
  induction p as [p IH|p IH|]; simpl digits2_pos.
  - rewrite Pos2Z.inj_succ.
    replace (Z.succ (Zpos (digits2_pos p)) - 1) with (Zpos (digits2_pos p)) by lia.
    rewrite Z.pow_succ_r by lia.
    replace (2 ^ Zpos (digits2_pos p))
      with (2 * 2 ^ (Zpos (digits2_pos p) - 1)) in *
      by (rewrite <- Z.pow_succ_r by lia; f_equal; lia).
    lia.
  - rewrite Pos2Z.inj_succ.
    replace (Z.succ (Zpos (digits2_pos p)) - 1) with (Zpos (digits2_pos p)) by lia.
    rewrite Z.pow_succ_r by lia.
    replace (2 ^ Zpos (digits2_pos p))
      with (2 * 2 ^ (Zpos (digits2_pos p) - 1)) in *
      by (rewrite <- Z.pow_succ_r by lia; f_equal; lia).
    lia.
  - simpl. lia.
Qed.

Lemma iter_xO_value (p k : positive) :
  Zpos (Pos.iter xO p k) = Zpos p * 2 ^ Zpos k.
Proof.
  induction k as [|k IH] using Pos.peano_ind.
  - simpl. lia.
  - rewrite Pos.iter_succ, Pos2Z.inj_xO, IH, Pos2Z.inj_succ.
    rewrite Z.pow_succ_r by lia. lia.
Qed.

Lemma iter_xO_digits (p k : positive) :
  digits2_pos (Pos.iter xO p k) = (digits2_pos p + k)%positive.
Proof.
  induction k as [|k IH] using Pos.peano_ind.
  - simpl. lia.
  - rewrite Pos.iter_succ. simpl. rewrite IH. lia.
Qed.

Lemma binary_round_aux_exact (m : positive) (e : Z) :
  Zpos (digits2_pos m) = 53 -> -1074 <= e <= 971 ->
  binary_round_aux prec emax false (Zpos m) e loc_Exact
  = S754_finite false m e.
Proof.
  intros Hd He.
  assert (Hshift : IntDef.Z.sub
                     (fexp prec emax (IntDef.Z.add (Zdigits2 (Zpos m)) e)) e
                   = 0).
  { change (fexp prec emax (Zdigits2 (Zpos m) + e) - e = 0).
    unfold fexp, emin, prec, emax. simpl Zdigits2.
    change (Z.max (Zpos (digits2_pos m) + e - 53) (3 - 1024 - 53) - e = 0).
    rewrite Hd. lia. }
  unfold binary_round_aux, shr_fexp. rewrite Hshift.
  cbn [shr shr_record_of_loc shr_m shr_r shr_s round_nearest_even
       loc_of_shr_record].
  rewrite Hshift.
  cbn [shr shr_record_of_loc shr_m shr_r shr_s].
  change (IntDef.Z.leb e (IntDef.Z.sub emax prec)) with (e <=? 971).
  destruct (Z.leb_spec e 971) as [_|H]; [reflexivity|lia].
Qed.


Lemma digits2_pos_le_53 (p : positive) :
  Zpos p < 2 ^ 53 -> Zpos (digits2_pos p) <= 53.
Proof.
  intros Hp. destruct (digits2_pos_bounds p) as [Hlow _].
  destruct (Z_le_gt_dec (Zpos (digits2_pos p)) 53) as [|Hbig]; [assumption|].
  assert (2 ^ 53 <= 2 ^ (Zpos (digits2_pos p) - 1))
    by (apply Z.pow_le_mono_r; lia).
  lia.
Qed.

(** An integer below 2^53 is a binary64 number, exactly. *)
Lemma number_of_Z_pos (p : positive) :
  Zpos p < 2 ^ 53 ->
  exists m,
    number_of_Z (Zpos p)
    = S754_finite false m (Zpos (digits2_pos p) - 53)
    /\ Zpos m = Zpos p * 2 ^ (53 - Zpos (digits2_pos p)).
Proof.
  intros Hp. pose proof (digits2_pos_le_53 p Hp) as Hd.
  assert (Hf : fexp prec emax (IntDef.Z.add (Zpos (digits2_pos p)) 0)
               = Zpos (digits2_pos p) - 53).
  { change (Z.max (Zpos (digits2_pos p) + 0 - 53) (3 - 1024 - 53)
            = Zpos (digits2_pos p) - 53). lia. }
  unfold number_of_Z, binary_normalize, binary_round, shl_align.
  rewrite Hf.
  change (IntDef.Z.sub (Zpos (digits2_pos p) - 53) 0)
    with (Zpos (digits2_pos p) - 53 - 0).
  destruct (Zpos (digits2_pos p) - 53 - 0) as [|k|k] eqn:Hk.
  - exists p. split.
    + replace (Zpos (digits2_pos p) - 53) with 0 by lia.
      apply binary_round_aux_exact; lia.
    + replace (53 - Zpos (digits2_pos p)) with 0 by lia. lia.
  - lia.
  - exists (Pos.iter xO p k). split.
    + apply binary_round_aux_exact; [|lia].
      rewrite iter_xO_digits. lia.
    + rewrite iter_xO_value. f_equal. f_equal. lia.
Qed.

(** On integers below 2^53 the order of the numbers is the order of the
    integers. *)
Lemma Number_lessThan_integers (a b : Z) :
  0 <= a < 2 ^ 53 -> 0 <= b < 2 ^ 53 ->
  Number_lessThan (number_of_Z a) (number_of_Z b) = Some (a <? b).
Proof.
  intros Ha Hb. unfold Number_lessThan.
  destruct a as [|p|p]; [|
    | lia]; (destruct b as [|q|q]; [| |lia]).
  - reflexivity.
  - destruct (number_of_Z_pos q (proj2 Hb)) as (m & -> & _). reflexivity.
  - destruct (number_of_Z_pos p (proj2 Ha)) as (m & -> & _). reflexivity.
  - destruct (number_of_Z_pos p (proj2 Ha)) as (m & -> & Hm).
    destruct (number_of_Z_pos q (proj2 Hb)) as (n & -> & Hn).
    pose proof (digits2_pos_bounds p) as Bp.
    pose proof (digits2_pos_bounds q) as Bq.
    pose proof (digits2_pos_le_53 p (proj2 Ha)) as Dp.
    pose proof (digits2_pos_le_53 q (proj2 Hb)) as Dq.
    simpl SFcompare.
    change (Pos.compare_cont Eq m n) with (Pos.compare m n).
    destruct (Z.compare_spec (Zpos (digits2_pos p) - 53)
                (Zpos (digits2_pos q) - 53)) as [He|He|He].
    + assert (Hpq : Zpos (digits2_pos p) = Zpos (digits2_pos q)) by lia.
      rewrite Hpq in Hm.
      assert (Hpow : 0 < 2 ^ (53 - Zpos (digits2_pos q)))
        by (apply Z.pow_pos_nonneg; lia).
      rewrite Pos2Z.inj_compare, Hm, Hn.
      destruct (Z.compare_spec (Zpos p * 2 ^ (53 - Zpos (digits2_pos q)))
                  (Zpos q * 2 ^ (53 - Zpos (digits2_pos q))))
        as [Hc|Hc|Hc]; f_equal; symmetry.
      * apply Z.ltb_ge. nia.
      * apply Z.ltb_lt. nia.
      * apply Z.ltb_ge. nia.
    + f_equal. symmetry. apply Z.ltb_lt.
      assert (2 ^ Zpos (digits2_pos p) <= 2 ^ (Zpos (digits2_pos q) - 1))
        by (apply Z.pow_le_mono_r; lia).
      lia.
    + f_equal. symmetry. apply Z.ltb_ge.
      assert (2 ^ Zpos (digits2_pos q) <= 2 ^ (Zpos (digits2_pos p) - 1))
        by (apply Z.pow_le_mono_r; lia).
      lia.
Qed.

Lemma greaterThan_integers (a b : Z) :
  0 <= a < 2 ^ 53 -> 0 <= b < 2 ^ 53 ->
  greaterThan (VNumber (number_of_Z a)) (VNumber (number_of_Z b)) = (b <? a).
Proof.
  intros Ha Hb. unfold greaterThan, IsLessThan. simpl.
  now rewrite Number_lessThan_integers.
Qed.

End IntFacts.

(* ===================================================================== *)
(** * More of the log table: pages, columns and cells *)
(* ===================================================================== *)

Module TableFacts.
Import Js Retrieval ArrayFacts SortFacts StringFacts IntFacts.

(** ** Pages *)

Lemma firstn_add {A : Type} (a b : nat) (l : list A) :
  firstn (a + b) l = (firstn a l ++ firstn b (skipn a l))%list.
Proof.
  revert l. induction a as [|a IH]; intros l; [reflexivity|].
  destruct l as [|x l]; simpl.
  - now rewrite firstn_nil.
  - now rewrite IH.
Qed.

Lemma firstn_min_length {A : Type} (n : nat) (l : list A) :
  firstn (Nat.min n (List.length l)) l = firstn n l.
Proof.
  destruct (Nat.le_gt_cases n (List.length l)) as [H|H].
  - now rewrite Nat.min_l.
  - rewrite Nat.min_r by lia. rewrite firstn_all.
    symmetry. apply firstn_all2. lia.
Qed.

(** From page one on, a page is the next ten elements. *)
Lemma slice_page {A : Type} (l : list A) (page : nat) :
  slice l (10 * (Z.of_nat (S page) - 1)) (10 * Z.of_nat (S page))
  = firstn 10 (skipn (10 * page) l).
Proof.
  unfold slice, relative_index.
  destruct (Z.ltb_spec (10 * (Z.of_nat (S page) - 1)) 0); [lia|].
  destruct (Z.ltb_spec (10 * Z.of_nat (S page)) 0); [lia|].
  destruct (Nat.le_gt_cases (List.length l) (10 * page)) as [Hout|Hin].
  - rewrite (skipn_all2 l (n := 10 * page)) by lia.
    rewrite skipn_all2 by lia.
    now rewrite !firstn_nil.
  - replace (Z.to_nat (Z.min (10 * (Z.of_nat (S page) - 1))
                         (Z.of_nat (List.length l))))
      with (10 * page)%nat by lia.
    rewrite <- (firstn_min_length 10).
    f_equal. rewrite length_skipn. lia.
Qed.

Lemma currentItems_page (logs : list LogRecord) (page : nat) :
  currentItems logs (Z.of_nat (S page))
  = firstn 10 (skipn (10 * page) (filteredLogs logs)).
Proof.
  unfold currentItems, indexOfFirstItem, indexOfLastItem, itemsPerPage,
    filteredLogs.
  rewrite <- slice_page. f_equal; lia.
Qed.

(** ** Columns on which every two rows compare equal *)

Section ConstantComparison.
Context {A : Type} (cmp : A -> A -> Z).

Lemma sort_all_equal (arr : list A) :
  (forall x y, In x arr -> In y arr -> cmp x y = 0) ->
  sort cmp arr = arr.
Proof.
  intros Hzero.
  assert (Hanti : forall x y, In x arr -> In y arr ->
                     (cmp x y < 0 <-> 0 < cmp y x)).
  { intros x y Hx Hy. rewrite (Hzero x y Hx Hy), (Hzero y x Hy Hx). lia. }
  apply (sort_sorted_id cmp (fun x => In x arr) Hanti).
  - apply Forall_forall; auto.
  - unfold sorted_by.
    assert (Hsub : forall l, (forall x, In x l -> In x arr) ->
                     StronglySorted (fun x y => cmp x y <= 0) l).
    { induction l as [|a l IH]; intros Hl; constructor.
      - apply IH. intros x Hx. apply Hl. now right.
      - apply Forall_forall. intros y Hy.
        rewrite Hzero; [lia | apply Hl; now left | apply Hl; now right]. }
    apply Hsub. auto.
Qed.

End ConstantComparison.

Lemma compareItems_unordered (field : string) (direction : SortDirection)
    (a b : LogRecord) :
  unordered (Get a field) = true -> unordered (Get b field) = true ->
  compareItems field direction a b = 0.
Proof.
  intros Ha Hb. unfold compareItems.
  destruct (String.eqb_spec field "score") as [->|_].
  - destruct (Get a "score"); try discriminate;
      destruct (Get b "score"); try discriminate; reflexivity.
  - destruct (Get a field); try discriminate;
      destruct (Get b field); try discriminate; reflexivity.
Qed.

(** ** Columns of strings *)

Lemma code_inj (a b : ascii) : code a = code b -> a = b.
Proof.
  unfold code. intros H.
  rewrite <- (ascii_N_embedding a), <- (ascii_N_embedding b). now rewrite H.
Qed.

Lemma string_lessThan_irrefl (x : string) : string_lessThan x x = false.
Proof.
  induction x as [|a x IH]; simpl; [reflexivity|].
  now rewrite N.ltb_irrefl.
Qed.

Lemma string_lessThan_asym (x y : string) :
  string_lessThan x y = true -> string_lessThan y x = false.
Proof.
  revert y. induction x as [|a x IH]; intros [|b y]; simpl; auto;
    try discriminate.
  destruct (N.ltb_spec (code a) (code b)), (N.ltb_spec (code b) (code a));
    auto; try lia; discriminate.
Qed.

Lemma string_lessThan_trans (x y z : string) :
  string_lessThan x y = true -> string_lessThan y z = true ->
  string_lessThan x z = true.
Proof.
  revert y z. induction x as [|a x IH]; intros [|b y] [|c z]; simpl; auto;
    try discriminate.
  destruct (N.ltb_spec (code a) (code b)), (N.ltb_spec (code b) (code a)),
    (N.ltb_spec (code b) (code c)), (N.ltb_spec (code c) (code b)),
    (N.ltb_spec (code a) (code c)), (N.ltb_spec (code c) (code a));
    auto; try lia; try discriminate.
  apply IH.
Qed.

Lemma string_lessThan_total (x y : string) :
  string_lessThan x y = false -> string_lessThan y x = false -> x = y.
Proof.
  revert y. induction x as [|a x IH]; intros [|b y]; simpl; auto;
    try discriminate.
  destruct (N.ltb_spec (code a) (code b)), (N.ltb_spec (code b) (code a));
    try discriminate; try lia.
  intros Hxy Hyx. f_equal; [apply code_inj; lia | now apply IH].
Qed.

Lemma string_lessThan_negatively_transitive (x y z : string) :
  string_lessThan x z = true ->
  string_lessThan x y = true \/ string_lessThan y z = true.
Proof.
  intros Hxz.
  destruct (string_lessThan x y) eqn:Hxy; [now left|right].
  destruct (string_lessThan y x) eqn:Hyx.
  - now apply (string_lessThan_trans y x z).
  - now rewrite <- (string_lessThan_total x y Hxy Hyx).
Qed.

(** A comparison function made, as the table's, from a strict order
    that is asymmetric and negatively transitive on the rows is
    consistent on them. *)
Section FromStrictOrder.
Context {A : Type} (cmp : A -> A -> Z) (lt : A -> A -> bool).
Context (below above : Z) (arr : list A).
Hypothesis signs : below < 0 < above \/ above < 0 < below.
Hypothesis cmp_lt :
  forall x y, In x arr -> In y arr ->
    cmp x y = if lt x y then below else if lt y x then above else 0.
Hypothesis asym :
  forall x y, In x arr -> In y arr -> lt x y = true -> lt y x = false.
Hypothesis negatively_transitive :
  forall x y z, In x arr -> In y arr -> In z arr ->
    lt x z = true -> lt x y = true \/ lt y z = true.

Lemma strict_order_consistent : consistent cmp arr = true.
Proof.
  apply consistent_complete.
  - intros x y Hx Hy. rewrite !cmp_lt by assumption.
    pose proof (asym x y Hx Hy) as H1. pose proof (asym y x Hy Hx) as H2.
    destruct (lt x y), (lt y x); try (specialize (H1 eq_refl));
      try (specialize (H2 eq_refl)); try discriminate; lia.
  - intros x y z Hx Hy Hz. rewrite !cmp_lt by assumption.
    pose proof (negatively_transitive x y z Hx Hy Hz) as H8.
    pose proof (asym x y Hx Hy) as H1. pose proof (asym y x Hy Hx) as H2.
    pose proof (asym y z Hy Hz) as H3. pose proof (asym z y Hz Hy) as H4.
    pose proof (asym x z Hx Hz) as H5. pose proof (asym z x Hz Hx) as H6.
    pose proof (negatively_transitive z y x Hz Hy Hx) as H7.
    destruct (lt x y), (lt y x), (lt y z), (lt z y), (lt x z), (lt z x);
      try (specialize (H1 eq_refl)); try (specialize (H2 eq_refl));
      try (specialize (H3 eq_refl)); try (specialize (H4 eq_refl));
      try (specialize (H5 eq_refl)); try (specialize (H6 eq_refl));
      try (specialize (H7 eq_refl)); try (specialize (H8 eq_refl));
      try discriminate; try lia;
      try (destruct H7; discriminate); destruct H8; discriminate.
Qed.

End FromStrictOrder.

(** On a column of strings the table's comparison is consistent. *)
Lemma string_column_consistent (field : string) (direction : SortDirection)
    (window : list LogRecord) :
  field <> "score" ->
  forallb (fun r => isString (Get r field)) window = true ->
  consistent (compareItems field direction) window = true.
Proof.
  intros Hne Hstr. rewrite forallb_forall in Hstr.
  assert (Hs : forall r, In r window -> exists s, Get r field = VString s).
  { intros r Hr. specialize (Hstr r Hr).
    destruct (Get r field); try discriminate. eauto. }
  apply (strict_order_consistent _
           (fun a b => lessThan (Get a field) (Get b field))
           (match direction with asc => -1 | desc => 1 end)
           (match direction with asc => 1 | desc => -1 end)).
  - destruct direction; lia.
  - intros x y _ _. now apply SortedItemsFacts.compareItems_other.
  - intros x y Hx Hy.
    destruct (Hs x Hx) as [s ->], (Hs y Hy) as [t ->].
    apply string_lessThan_asym.
  - intros x y z Hx Hy Hz.
    destruct (Hs x Hx) as [s ->], (Hs y Hy) as [t ->], (Hs z Hz) as [u ->].
    apply string_lessThan_negatively_transitive.
Qed.

(** ** Reversing the direction *)





End TableFacts.

Module CellFacts.
Import Js Retrieval StringFacts IntFacts.

Lemma includes_empty (s : string) : includes s EmptyString = true.
Proof. destruct s; reflexivity. Qed.

Lemma string_take_length (n : nat) (s : string) :
  String.length (string_take n s) = Nat.min n (String.length s).
Proof.
  revert s. induction n as [|n IH]; intros [|c s]; simpl; auto.
Qed.

Lemma string_take_all (n : nat) (s : string) :
  (String.length s <= n)%nat -> string_take n s = s.
Proof.
  revert s. induction n as [|n IH]; intros [|c s]; simpl; auto; try lia.
  intros H. f_equal. apply IH. lia.
Qed.

Lemma string_take_append (n : nat) (s t : string) :
  (n <= String.length s)%nat ->
  string_take n (string_take n s +:+ t) = string_take n s.
Proof.
  revert s. induction n as [|n IH]; intros [|c s]; simpl; auto; try lia.
  intros H. f_equal. apply IH. lia.
Qed.

Lemma substring_from_start (s : string) (limit : Z) :
  0 <= limit <= string_length s ->
  substring s 0 limit = string_take (Z.to_nat limit) s.
Proof.
  intros H. unfold substring.
  replace (Z.min (Z.max 0 0) (string_length s)) with 0
    by (unfold string_length in *; lia).
  replace (Z.min (Z.max limit 0) (string_length s)) with limit by lia.
  replace (Z.max 0 limit - Z.min 0 limit) with limit by lia.
  replace (Z.min 0 limit) with 0 by lia.
  reflexivity.
Qed.

(** What [truncateText] does to a string, the comparison of the lengths
    done. *)
Lemma truncateText_VString (s : string) (limit : Z) :
  0 <= limit < 2 ^ 53 -> string_length s < 2 ^ 53 ->
  truncateText (VString s) limit
  = Normal (VString (if limit <? string_length s
                     then string_take (Z.to_nat limit) s +:+ "..."
                     else s)).
Proof.
  intros Hlimit Hs. unfold truncateText.
  change (GetV (VString s) "length")
    with (Normal (A := Value) (VNumber (number_of_Z (string_length s)))).
  cbn [bind].
  rewrite greaterThan_integers by (unfold string_length in *; lia).
  destruct (Z.ltb_spec limit (string_length s)); [|reflexivity].
  rewrite substring_from_start by lia. reflexivity.
Qed.

Lemma truncated_length (s : string) (limit : Z) :
  0 <= limit ->
  string_length (if limit <? string_length s
                 then string_take (Z.to_nat limit) s +:+ "..."
                 else s) <= limit + 3.
Proof.
  intros Hlimit. unfold string_length.
  destruct (Z.ltb_spec limit (Z.of_nat (String.length s))); [|lia].
  rewrite length_append, string_take_length. simpl. lia.
Qed.

(** Reading a property throws exactly on [undefined] and [null]. *)
Lemma GetV_defined (v : Value) (key : string) :
  defined v = true -> exists r, GetV v key = Normal r.
Proof.
  destruct v as [| |b|x|s|elements|properties]; try discriminate; intros _;
    simpl; eauto.
  - destruct (String.eqb key "length"); eauto.
    destruct (array_index key) as [i|]; eauto.
    destruct (String.get i s); eauto.
  - destruct (String.eqb key "length"); eauto.
    destruct (array_index key) as [i|]; eauto.
    destruct (nth_error elements i); eauto.
Qed.

Lemma GetV_undefined (v : Value) (key : string) :
  defined v = false -> exists e, GetV v key = Throw e.
Proof. destruct v; try discriminate; intros _; simpl; eauto. Qed.

Lemma evaluationLines_Normal (entries : list (string * Value)) :
  forallb (fun entry => defined (snd entry)) entries = true ->
  exists lines,
    evaluationLines entries = Normal lines
    /\ map evaluator lines = map fst entries.
Proof.
  induction entries as [|[k v] entries IH]; simpl.
  - intros _. now exists [].
  - intros H. apply andb_prop in H as [Hv H].
    destruct (GetV_defined v "reason" Hv) as [r ->].
    destruct (GetV_defined v "score" Hv) as [sc ->].
    destruct (IH H) as (lines & -> & E). simpl.
    eexists. split; [reflexivity|]. simpl. now rewrite E.
Qed.

Lemma evaluationLines_Throw (entries : list (string * Value)) :
  forallb (fun entry => defined (snd entry)) entries = false ->
  exists e, evaluationLines entries = Throw e.
Proof.
  induction entries as [|[k v] entries IH]; simpl; [discriminate|].
  destruct (defined v) eqn:Hv; simpl.
  - intros H. destruct (GetV_defined v "reason" Hv) as [r ->].
    destruct (GetV_defined v "score" Hv) as [sc ->].
    destruct (IH H) as [e ->]. simpl. eauto.
  - intros _. destruct (GetV_undefined v "reason" Hv) as [e ->]. simpl. eauto.
Qed.

End CellFacts.

(* ===================================================================== *)
(** * Further properties of the log table *)
(* ===================================================================== *)

(** Pages one to [pages], put end to end, are the first [10 * pages]
    records of the category-filtered logs: the pages neither overlap nor
    skip a record, and they are cut before any sorting or text filtering. *)
Theorem pages_partition (logs : list LogRecord) (pages : nat) :
  flat_map (fun page => currentItems logs (Z.of_nat page)) (seq 1 pages)
  = firstn (10 * pages) (filteredLogs logs).
Proof.
  induction pages as [|pages IH]; [reflexivity|].
  rewrite seq_S, flat_map_app, IH. simpl flat_map. rewrite app_nil_r.
  change (1 + pages)%nat with (S pages).
  rewrite TableFacts.currentItems_page.
  replace (10 * S pages)%nat with (10 * pages + 10)%nat by lia.
  now rewrite TableFacts.firstn_add.
Qed.

(** From page one on, a page holds ten records, or what is left of the
    [totalItems] handed to the pagination control, or nothing. *)
Theorem page_length (logs : list LogRecord) (ui : UiState) :
  1 <= currentPage ui ->
  Z.of_nat (List.length (currentItems logs (currentPage ui)))
  = Z.max 0 (Z.min 10 (Z.of_nat (totalItems (render logs ui))
                       - 10 * (currentPage ui - 1))).
Proof.
  intros Hpage.
  replace (currentPage ui) with (Z.of_nat (S (Z.to_nat (currentPage ui - 1))))
    at 1 by lia.
  rewrite TableFacts.currentItems_page, length_firstn, length_skipn.
  unfold render, totalItems. lia.
Qed.

Lemma page_length_witness :
  Z.of_nat (List.length (currentItems Examples.twelveLogs 2)) = 1.
Proof.
  exact (page_length Examples.twelveLogs Examples.pageTwo
           ltac:(simpl; lia)).
Defined.

(** A click on the header of a column whose values are [null], absent or
    plain objects that convert to a primitive, having no [toString] key
    of their own (Eval Results is such a column, unless an evaluator is
    named toString), never reorders the page, in either direction: every
    two rows compare equal. *)
Theorem unordered_column_keeps_order (items : list LogRecord)
    (field : string) (direction : SortDirection) :
  forallb (fun r => unordered (Get r field)) items = true ->
  sortedItems items (Some field) direction = items.
Proof.
  intros H. rewrite forallb_forall in H.
  destruct field as [|c field]; [reflexivity|].
  unfold sortedItems. apply TableFacts.sort_all_equal.
  intros x y Hx Hy. apply TableFacts.compareItems_unordered; auto.
Qed.

Lemma unordered_column_keeps_order_witness :
  sortedItems (Examples.threeCompletions ++ [Examples.failed "r4"])
    (Some "evalResults") desc
  = Examples.threeCompletions ++ [Examples.failed "r4"].
Proof.
  exact (unordered_column_keeps_order
           (Examples.threeCompletions ++ [Examples.failed "r4"])
           "evalResults" desc eq_refl).
Defined.

(** On a column that holds a string in every row of the page (the
    timestamps the table opens on, say) the sort puts no row before one
    it must follow, and rows with equal strings keep their order. *)
Theorem string_column_sorted_and_stable (items : list LogRecord)
    (field : string) (direction : SortDirection) :
  field <> "" -> field <> "score" ->
  forallb (fun r => isString (Get r field)) items = true ->
  sorted_by (compareItems field direction)
    (sortedItems items (Some field) direction)
  /\ stable (compareItems field direction) items
       (sortedItems items (Some field) direction).
Proof.
  intros Hfield Hscore Hstrings.
  pose proof (TableFacts.string_column_consistent field direction items
                Hscore Hstrings) as Hc.
  destruct field as [|c field]; [contradiction|]. unfold sortedItems.
  split.
  - now apply SortFacts.sort_consistent_sorted.
  - now apply SortFacts.sort_stable.
Qed.

Lemma string_column_sorted_and_stable_witness :
  sorted_by (compareItems "timestamp" desc)
    (sortedItems Examples.threeCompletions (Some "timestamp") desc)
  /\ stable (compareItems "timestamp" desc) Examples.threeCompletions
       (sortedItems Examples.threeCompletions (Some "timestamp") desc).
Proof.
  apply (string_column_sorted_and_stable Examples.threeCompletions
           "timestamp" desc);
    [discriminate | discriminate | reflexivity].
Defined.



(** With the search box empty the first value of a record decides alone:
    a record without a property is dropped; otherwise the row is shown if
    [toString()] can be called on the first value, and the render is
    aborted if it cannot ([undefined], [null], an object with a
    [toString] key of its own, an array holding one), whatever the later
    values are. *)
Theorem empty_query_first_value (item : LogRecord) :
  itemValuesIncludeQuery "" item
  = match Object_values item with
    | [] => Normal false
    | first :: _ => let* _ := toString_call first in Normal true
    end.
Proof.
  unfold itemValuesIncludeQuery.
  destruct (Object_values item) as [|first rest]; [reflexivity|].
  cbn [some]. unfold valueIncludesQuery.
  destruct (toString_call first) as [text|e]; [|reflexivity].
  cbn [bind]. change (toLowerCase "") with EmptyString.
  now rewrite CellFacts.includes_empty.
Qed.

(** [changeMethod] shows a method under its own name exactly when the
    name is not "Generate Completion" and names no member that the
    dictionary object inherits from Object.prototype. *)
Theorem changeMethod_raw_name (method : string) :
  changeMethod method = name method
  <-> method <> "Generate Completion"
      /\ includes_item Object_prototype_members method = false.
Proof.
  unfold changeMethod.
  change (ownValue methodDictionary method)
    with (if String.eqb "Generate Completion" method then Some "RAG"
          else if String.eqb "Search" method then Some "Search"
          else None).
  destruct (String.eqb_spec "Generate Completion" method) as [<-|Hg].
  - split; [intros H; discriminate H | intros [H _]; now contradiction H].
  - destruct (String.eqb_spec "Search" method) as [<-|Hs].
    + split; [intros _; split; [discriminate | reflexivity] | reflexivity].
    + destruct (includes_item Object_prototype_members method).
      * split; [intros H; discriminate H | intros [_ H]; discriminate H].
      * split; [intros _; split; [congruence | reflexivity] | reflexivity].
Qed.

(** [truncateText] on a string: at most [limit + 3] code units come back,
    they start as the text does, and a text of at most [limit] code units
    comes back whole. *)
Theorem truncateText_string (s : string) (limit : Z) :
  0 <= limit < 2 ^ 53 -> string_length s < 2 ^ 53 ->
  exists shown,
    truncateText (VString s) limit = Normal (VString shown)
    /\ string_length shown <= limit + 3
    /\ string_take (Z.to_nat limit) shown = string_take (Z.to_nat limit) s
    /\ (string_length s <= limit -> shown = s).
Proof.
  intros Hlimit Hs. eexists. split; [now apply CellFacts.truncateText_VString|].
  split; [apply CellFacts.truncated_length; lia|].
  unfold string_length in *.
  destruct (Z.ltb_spec limit (Z.of_nat (String.length s))).
  - split; [apply CellFacts.string_take_append; lia | lia].
  - split; reflexivity.
Qed.

Lemma truncateText_string_witness :
  exists shown,
    truncateText (VString "What is retrieval-augmented generation?") 30
    = Normal (VString shown)
    /\ string_length shown <= 30 + 3
    /\ string_take (Z.to_nat 30) shown
       = string_take (Z.to_nat 30) "What is retrieval-augmented generation?"
    /\ (string_length "What is retrieval-augmented generation?" <= 30 ->
        shown = "What is retrieval-augmented generation?").
Proof.
  apply (truncateText_string "What is retrieval-augmented generation?" 30);
    [vm_compute; split; [discriminate | reflexivity] | reflexivity].
Defined.

(** The Search Query and Completion Result cells of a record that holds
    strings there show at most 33 and 53 code units. *)
Theorem text_cells_bounded (log : LogRecord) (query completion : string) :
  Get log "searchQuery" = VString query ->
  Get log "completionResult" = VString completion ->
  string_length query < 2 ^ 53 -> string_length completion < 2 ^ 53 ->
  exists shownQuery shownCompletion,
    searchQueryCell log = Normal (VString shownQuery)
    /\ string_length shownQuery <= 33
    /\ completionResultCell log = Normal (VString shownCompletion)
    /\ string_length shownCompletion <= 53.
Proof.
  intros Hq Hc Hlq Hlc. unfold searchQueryCell, completionResultCell.
  rewrite Hq, Hc. cbn [ToBoolean].
  rewrite (CellFacts.truncateText_VString query 30),
    (CellFacts.truncateText_VString completion 50);
    try assumption; try (split; [lia | reflexivity]).
  pose proof (CellFacts.truncated_length query 30 ltac:(lia)).
  pose proof (CellFacts.truncated_length completion 50 ltac:(lia)).
  destruct (String.eqb query ""), (String.eqb completion ""); simpl negb;
    cbv iota; eexists _, _; repeat split; try reflexivity;
    try (vm_compute; discriminate); lia.
Qed.

Lemma text_cells_bounded_witness :
  exists shownQuery shownCompletion,
    searchQueryCell
      (Examples.completionRun "r1" "2024-03-02 10:15:00"
         "What is retrieval-augmented generation?")
    = Normal (VString shownQuery)
    /\ string_length shownQuery <= 33
    /\ completionResultCell
         (Examples.completionRun "r1" "2024-03-02 10:15:00"
            "What is retrieval-augmented generation?")
       = Normal (VString shownCompletion)
    /\ string_length shownCompletion <= 53.
Proof.
  apply (text_cells_bounded
           (Examples.completionRun "r1" "2024-03-02 10:15:00"
              "What is retrieval-augmented generation?")
           "What is retrieval-augmented generation?"
           "Retrieval-augmented generation answers a question from retrieved passages.");
    reflexivity.
Defined.

(** The Search Results cell guards the first result with [?.] but not its
    text: when the first result is [null] or has no [text], the cell
    throws and the render is aborted. *)
Theorem searchResultsCell_needs_text (log : LogRecord) (first : Value)
    (rest : list Value) :
  Get log "searchResults" = VArray (first :: rest) ->
  Z.of_nat (List.length (first :: rest)) < 2 ^ 53 ->
  defined first = false \/ GetV first "text" = Normal VUndefined ->
  searchResultsCell log
  = Throw (TypeError "Cannot read properties of undefined (reading 'length')").
Proof.
  intros Hr Hlen Htext. unfold searchResultsCell. rewrite Hr.
  cbn [ToBoolean].
  change (GetV (VArray (first :: rest)) "length")
    with (Normal (A := Value)
            (VNumber (number_of_Z (Z.of_nat (List.length (first :: rest)))))).
  cbn [bind].
  rewrite IntFacts.greaterThan_integers
    by (split; try lia; vm_compute; intuition congruence).
  change (0 <? Z.of_nat (List.length (first :: rest))) with true.
  change (GetV (VArray (first :: rest)) "0") with (Normal first).
  cbn [bind].
  destruct Htext as [Hd|Ht].
  - rewrite Hd. reflexivity.
  - destruct (defined first); [rewrite Ht|]; reflexivity.
Qed.

Lemma searchResultsCell_needs_text_witness :
  searchResultsCell (Examples.resultWithoutText "r7")
  = Throw (TypeError "Cannot read properties of undefined (reading 'length')").
Proof.
  apply (searchResultsCell_needs_text (Examples.resultWithoutText "r7")
           (VObject [ ("id", VString "doc-1") ]) []);
    [reflexivity | reflexivity | right; reflexivity].
Defined.

(** The Eval Results cell of a record whose [evalResults] is an object
    shows one line per entry, in order and under the entry's key, exactly
    when no entry is [null]; a [null] entry aborts the render. *)
Theorem evalResultsCell_lines (log : LogRecord) (entries : Properties) :
  Get log "evalResults" = VObject entries ->
  (exists lines,
     evalResultsCell log = Normal (evaluations lines)
     /\ map evaluator lines = map fst entries)
  <-> forallb (fun entry => defined (snd entry)) entries = true.
Proof.
  intros He. unfold evalResultsCell. rewrite He. cbn [ToBoolean Object_entries].
  split.
  - intros (lines & H & _).
    destruct (forallb _ entries) eqn:Hall; [reflexivity|].
    destruct (CellFacts.evaluationLines_Throw entries Hall) as [e Hthrow].
    rewrite Hthrow in H. discriminate.
  - intros Hall.
    destruct (CellFacts.evaluationLines_Normal entries Hall)
      as (lines & -> & E).
    now exists lines.
Qed.

Lemma evalResultsCell_lines_witness :
  exists lines,
    evalResultsCell
      (Examples.completionRun "r1" "2024-03-02 10:15:00"
         "What is retrieval-augmented generation?")
    = Normal (evaluations lines)
    /\ map evaluator lines = ["faithfulness"; "relevance"].
Proof.
  apply (evalResultsCell_lines
           (Examples.completionRun "r1" "2024-03-02 10:15:00"
              "What is retrieval-augmented generation?")
           [ ("faithfulness",
              VObject [ ("score", VString "0.9");
                        ("reason", VString "Every statement is supported.") ]);
             ("relevance",
              VObject [ ("score", VString "0.8");
                        ("reason", VString "The answer addresses the question.") ]) ]
           eq_refl).
  reflexivity.
Defined.

Example null_evaluation_aborts_the_render :
  evalResultsCell (Examples.evaluationPending "r9")
  = Throw (TypeError "Cannot read properties of null (reading 'reason')").
Proof. reflexivity. Qed.

(* ===================================================================== *)
(** * Further properties of the deploy form *)
(* ===================================================================== *)

Module FormFacts.
Import DeployForm DeployFormFacts.

Lemma setIsLoading_same (st : FormState) : setIsLoading (isLoading st) st = st.
Proof. now destruct st. Qed.

Lemma setIsLoading_twice (a b : bool) (st : FormState) :
  setIsLoading a (setIsLoading b st) = setIsLoading a st.
Proof. reflexivity. Qed.

(** What a submission does, by the credential and the validation. *)
Lemma handleSubmit_cases (st : FormState) (world : World) :
  (session world = getSession_rejects
   /\ handleSubmit st world = catchBlock st [])
  \/ ((session world = getSession_resolves None
       \/ session world = getSession_resolves (Some ""))
      /\ handleSubmit st world = (st, [console_error "Access token not found"]))
  \/ (exists token e,
        session world = getSession_resolves (Some token) /\ token <> ""
        /\ validate st = Some e
        /\ handleSubmit st world = (st, [alert (validationMessage e)]))
  \/ (exists token,
        session world = getSession_resolves (Some token) /\ token <> ""
        /\ validate st = None).
Proof.
  destruct (session world) as [|[[|c token]|]] eqn:Hs.
  - left. split; [reflexivity|]. unfold handleSubmit. now rewrite Hs.
  - right. left. split; [now right|]. unfold handleSubmit. now rewrite Hs.
  - right. right. destruct (validate st) as [e|] eqn:Hv.
    + left. exists (String c token), e. repeat split; try discriminate.
      now apply handleSubmit_invalid with (token := String c token).
    + right. exists (String c token). repeat split. discriminate.
  - right. left. split; [now left|]. unfold handleSubmit. now rewrite Hs.
Qed.

(** The effects of a submission depend on the name, the URL and the
    secrets only. *)
Lemma handleSubmit_trace_ext (st1 st2 : FormState) (world : World) :
  pipelineName st1 = pipelineName st2 -> githubUrl st1 = githubUrl st2 ->
  secretPairs st1 = secretPairs st2 ->
  snd (handleSubmit st1 world) = snd (handleSubmit st2 world).
Proof.
  intros Hn Hu Hp. unfold handleSubmit. rewrite Hn, Hu, Hp.
  destruct (session world) as [|[[|c token]|]]; try reflexivity.
  destruct (String.eqb (pipelineName st2) ""); [reflexivity|].
  destruct (String.eqb (githubUrl st2) ""); [reflexivity|].
  destruct (hasEmptySecret (secretPairs st2)); [reflexivity|].
  destruct (deployResponse world) as [|status]; [reflexivity|].
  destruct (ok status); reflexivity.
Qed.

Lemma validate_ext (st1 st2 : FormState) :
  pipelineName st1 = pipelineName st2 -> githubUrl st1 = githubUrl st2 ->
  secretPairs st1 = secretPairs st2 ->
  validate st1 = validate st2.
Proof. intros Hn Hu Hp. unfold validate. now rewrite Hn, Hu, Hp. Qed.

Lemma truthy_spec (s : string) : truthy s = negb (String.eqb s "").
Proof. reflexivity. Qed.

Lemma forallb_truthy_complete (pairs : list SecretPair) :
  forallb (fun secret => truthy (key secret) && truthy (value secret)) pairs
  = forallb complete pairs.
Proof. reflexivity. Qed.

Lemma existsb_not_complete (pairs : list SecretPair) :
  existsb (fun secret =>
             negb (truthy (key secret)) || negb (truthy (value secret)))
    pairs
  = negb (forallb complete pairs).
Proof.
  induction pairs as [|secret pairs IH]; simpl; [reflexivity|].
  rewrite IH. unfold complete, truthy.
  destruct (String.eqb (key secret) ""), (String.eqb (value secret) "");
    simpl; auto; now destruct (forallb _ pairs).
Qed.

Lemma splice_one_spec {A : Type} (arr : list A) (index : nat) :
  splice_one arr (Z.of_nat index) = (firstn index arr ++ skipn (S index) arr)%list.
Proof.
  unfold splice_one, Js.relative_index.
  destruct (Z.ltb_spec (Z.of_nat index) 0); [lia|].
  destruct (Nat.le_gt_cases index (List.length arr)) as [H1|H1].
  - now replace (Z.to_nat (Z.min (Z.of_nat index) (Z.of_nat (List.length arr))))
      with index by lia.
  - replace (Z.to_nat (Z.min (Z.of_nat index) (Z.of_nat (List.length arr))))
      with (List.length arr) by lia.
    rewrite firstn_all, (firstn_all2 (n := index)) by lia.
    now rewrite !skipn_all2 by lia.
Qed.

Lemma splice_one_last {A : Type} (arr : list A) (x : A) (index : Z) :
  index = Z.of_nat (List.length arr) \/ index = -1 ->
  splice_one (arr ++ [x]) index = arr.
Proof.
  intros H. unfold splice_one, Js.relative_index.
  rewrite length_app. simpl List.length.
  assert (E : Z.to_nat
                (if index <? 0
                 then Z.max (Z.of_nat (List.length arr + 1) + index) 0
                 else Z.min index (Z.of_nat (List.length arr + 1)))
              = List.length arr).
  { destruct (Z.ltb_spec index 0); lia. }
  rewrite E.
  rewrite firstn_app, Nat.sub_diag, firstn_all. simpl. rewrite app_nil_r.
  rewrite skipn_all2; [apply app_nil_r | rewrite length_app; simpl; lia].
Qed.

(** A template card fills in the name and the URL and nothing else: the
    last card clicked wins, and after a click only the secrets can keep
    the form from passing validation. *)
Lemma templateCardClick_last_wins (card previous : Template)
    (st : FormState) :
  templateCardClick card (templateCardClick previous st)
  = templateCardClick card st
  /\ validate (templateCardClick card st)
     = (if forallb complete (secretPairs st) then None
        else Some IncompleteSecretPair).
Proof. destruct card, previous; split; reflexivity. Qed.

End FormFacts.

(** Whatever the session and the server answer, a submission changes no
    field of the form but the in-flight flag, sends at most one request,
    and sends it only for a form that passes validation, with the
    session's token and the form's data as they were at the click. *)
Theorem handleSubmit_frame (st : FormState) (world : World) :
  setIsLoading (isLoading st) (fst (handleSubmit st world)) = st
  /\ (requests (snd (handleSubmit st world)) <= 1)%nat
  /\ forall bearer body,
       In (POST_deploy bearer body) (snd (handleSubmit st world)) ->
       session world = getSession_resolves (Some bearer)
       /\ validate st = None
       /\ body = {| pipeline_name := pipelineName st;
                    repo_url := githubUrl st;
                    secret_pairs := secretPairs st |}.
Proof.
  destruct (FormFacts.handleSubmit_cases st world)
    as [[Hs ->]|[[Hs ->]|[(token & e & Hs & Ht & Hv & ->)|(token & Hs & Ht & Hv)]]].
  - split; [now destruct st|]. split; [unfold requests; simpl; lia|].
    intros ? ? [H|[H|[]]]; discriminate.
  - split; [now destruct st|]. split; [unfold requests; simpl; lia|].
    intros ? ? [H|[]]; discriminate.
  - split; [now destruct st|]. split; [unfold requests; simpl; lia|].
    intros ? ? [H|[]]; discriminate.
  - rewrite (DeployFormFacts.handleSubmit_valid st world token Hs Ht Hv).
    destruct (deployResponse world) as [|status];
      [|destruct (DeployForm.ok status)];
      (split; [now destruct st|]); (split; [unfold requests; simpl; lia|]);
      intros bearer body [H|[H|[H|[]]]]; try discriminate;
      injection H as <- <-; auto.
Qed.

(** A deploy that the server accepts, made with a session token that
    [new Headers] accepts, leaves the form in flight and sets one timer,
    for a delay of at least 1000 and less than 2000 milliseconds; nothing
    is shown to the user and the fields are untouched until the timer
    fires. *)
Theorem successful_deploy_schedules_reset (st : FormState) (world : World)
    (token : string) (status : Z) :
  session world = getSession_resolves (Some token) -> token <> "" ->
  validHeaderValue ("Bearer " +:+ token) = true ->
  validate st = None ->
  deployResponse world = DeployForm.fetch_resolves status ->
  DeployForm.ok status = true ->
  0 <= randomMillis world < 1000 ->
  exists delay,
    handleSubmit st world
    = (setIsLoading true st,
       [ POST_deploy token {| pipeline_name := pipelineName st;
                              repo_url := githubUrl st;
                              secret_pairs := secretPairs st |};
         console_log "Pipeline created successfully";
         setTimeout delay ])
    /\ 1000 <= delay < 2000.
Proof.
  intros Hs Ht _ Hv Hr Hok Hrandom.
  exists (randomMillis world + 1000). split; [|lia].
  rewrite (DeployFormFacts.handleSubmit_valid st world token Hs Ht Hv).
  now rewrite Hr, Hok.
Qed.

Lemma successful_deploy_schedules_reset_witness :
  exists delay,
    handleSubmit Examples.filledForm
      (Examples.signedIn (DeployForm.fetch_resolves 201))
    = (setIsLoading true Examples.filledForm,
       [ POST_deploy "token-1"
           {| pipeline_name := "qa-pipeline";
              repo_url := "https://github.com/acme/rag";
              secret_pairs := [ {| key := "OPENAI_API_KEY"; value := "sk-1" |} ] |};
         console_log "Pipeline created successfully";
         setTimeout delay ])
    /\ 1000 <= delay < 2000.
Proof.
  apply (successful_deploy_schedules_reset Examples.filledForm
           (Examples.signedIn (DeployForm.fetch_resolves 201))
           "token-1" 201);
    [reflexivity | discriminate | reflexivity | reflexivity | reflexivity
    | reflexivity | simpl; lia].
Defined.

(** The timer's callback puts the form back as it was on mount, except
    that a generated API key name stays; the form it leaves sends
    nothing when submitted again. *)
Theorem resetForm_initial (st : FormState) :
  (resetForm st = DeployForm.initialState <-> newApiKeyName st = "")
  /\ forall world, requests (snd (handleSubmit (resetForm st) world)) = O.
Proof.
  split.
  - unfold resetForm, DeployForm.initialState. split.
    + intros H. now injection H.
    + intros ->. reflexivity.
  - intros world.
    now apply (DeployFormFacts.handleSubmit_invalid_no_request _ _
                 MissingPipelineName).
Qed.

(** After "Add more secrets" the form cannot be deployed until the new
    pair is filled in or removed: a submission sends nothing. *)
Theorem handleAddMore_blocks_submission (st : FormState) (world : World) :
  requests (snd (handleSubmit (handleAddMore st) world)) = O.
Proof.
  assert (H : exists e, validate (handleAddMore st) = Some e).
  { unfold validate, handleAddMore. simpl.
    destruct (String.eqb (pipelineName st) ""); [eauto|].
    destruct (String.eqb (githubUrl st) ""); [eauto|].
    rewrite forallb_app. simpl. rewrite andb_false_r. eauto. }
  destruct H as [e He].
  now apply (DeployFormFacts.handleSubmit_invalid_no_request _ _ e).
Qed.

(** Removing the last pair undoes "Add more secrets", whether the last
    pair is named by its index or, as [splice] allows, by -1. *)
Theorem handleRemove_undoes_handleAddMore (st : FormState) (index : Z) :
  index = Z.of_nat (List.length (secretPairs st)) \/ index = -1 ->
  handleRemove index (handleAddMore st) = st.
Proof.
  intros H. unfold handleRemove, handleAddMore, setSecretPairs. simpl.
  rewrite (FormFacts.splice_one_last _ _ _ H). now destruct st.
Qed.

Lemma handleRemove_undoes_handleAddMore_witness :
  handleRemove 1 (handleAddMore Examples.filledForm) = Examples.filledForm.
Proof.
  apply (handleRemove_undoes_handleAddMore Examples.filledForm 1).
  left. reflexivity.
Defined.

(** [handleRemove] with an index from the list takes out the pair at
    that index and nothing else: the pairs before it stay where they
    are, the pairs after it move up by one, and an index past the end
    removes nothing. *)
Theorem handleRemove_lookup (st : FormState) (index : Z) (j : nat) :
  0 <= index ->
  secretPairs (handleRemove index st) !! j
  = if Z.of_nat j <? index
    then secretPairs st !! j
    else secretPairs st !! S j.
Proof.
  intros Hindex. unfold handleRemove, setSecretPairs. simpl secretPairs.
  replace index with (Z.of_nat (Z.to_nat index)) by lia.
  rewrite FormFacts.splice_one_spec.
  set (i := Z.to_nat index). set (pairs := secretPairs st).
  destruct (Z.ltb_spec (Z.of_nat j) (Z.of_nat i)) as [Hlt|Hge].
  - destruct (Nat.le_gt_cases (List.length pairs) j) as [Hout|Hin].
    + rewrite !lookup_ge_None_2; auto.
      rewrite length_app, length_firstn, length_skipn. lia.
    + rewrite lookup_app_l by (rewrite length_firstn; lia).
      rewrite lookup_take. destruct (decide (j < i)%nat); [reflexivity | lia].
  - destruct (Nat.le_gt_cases (List.length pairs) i) as [Hout|Hin].
    + rewrite !lookup_ge_None_2; auto; try lia.
      rewrite length_app, length_firstn, length_skipn. lia.
    + rewrite lookup_app_r by (rewrite length_firstn; lia).
      rewrite length_firstn, lookup_drop. f_equal. lia.
Qed.

Lemma handleRemove_lookup_witness :
  secretPairs (handleRemove 0 (handleAddMore Examples.filledForm)) !! O
  = Some emptyPair.
Proof.
  exact (handleRemove_lookup (handleAddMore Examples.filledForm) 0 O
           ltac:(lia)).
Defined.

(** Typing a key into one pair and a value into another (or the same)
    pair gives the same form in either order, when both pairs exist. *)
Theorem secret_edits_commute (st : FormState) (i j : Z)
    (newKey newValue : string) :
  0 <= i < Z.of_nat (List.length (secretPairs st)) ->
  0 <= j < Z.of_nat (List.length (secretPairs st)) ->
  Js.bind (handleSecretKeyChange i newKey st)
    (handleSecretValueChange j newValue)
  = Js.bind (handleSecretValueChange j newValue st)
      (handleSecretKeyChange i newKey).
Proof.
  intros Hi Hj. unfold handleSecretKeyChange, handleSecretValueChange.
  destruct (Z.leb_spec 0 i); [|lia]. destruct (Z.leb_spec 0 j); [|lia].
  destruct (Z.ltb_spec i (Z.of_nat (List.length (secretPairs st)))); [|lia].
  destruct (Z.ltb_spec j (Z.of_nat (List.length (secretPairs st)))); [|lia].
  simpl. rewrite !length_alter.
  destruct (Z.leb_spec 0 i); [|lia]. destruct (Z.leb_spec 0 j); [|lia].
  destruct (Z.ltb_spec i (Z.of_nat (List.length (secretPairs st)))); [|lia].
  destruct (Z.ltb_spec j (Z.of_nat (List.length (secretPairs st)))); [|lia].
  simpl. unfold setSecretPairs. simpl. f_equal. f_equal.
  destruct (decide (Z.to_nat j = Z.to_nat i)) as [E|N].
  - rewrite E, 2!list_alter_alter_eq. apply list_alter_ext; auto.
  - now apply list_alter_alter_ne.
Qed.

Lemma secret_edits_commute_witness :
  Js.bind (handleSecretKeyChange 1 "PINECONE_API_KEY"
             (handleAddMore Examples.filledForm))
    (handleSecretValueChange 1 "pc-1")
  = Js.bind (handleSecretValueChange 1 "pc-1"
               (handleAddMore Examples.filledForm))
      (handleSecretKeyChange 1 "PINECONE_API_KEY").
Proof.
  apply (secret_edits_commute (handleAddMore Examples.filledForm) 1 1
           "PINECONE_API_KEY" "pc-1");
    simpl; lia.
Defined.

(** The Deploy button looks enabled ([filled], not grey) exactly when the
    form passes the validation of [handleSubmit] and no deploy is in
    flight. *)
Theorem button_filled_iff_ready (st : FormState) :
  (buttonVariant st = filled <-> validate st = None /\ isLoading st = false)
  /\ (buttonGreyed st = false <-> buttonVariant st = filled).
Proof.
  unfold buttonVariant, buttonGreyed, validate.
  rewrite FormFacts.forallb_truthy_complete, FormFacts.existsb_not_complete.
  unfold truthy.
  destruct (String.eqb (pipelineName st) ""),
    (String.eqb (githubUrl st) ""),
    (forallb complete (secretPairs st)), (isLoading st); simpl;
    repeat split; intros; try discriminate; try reflexivity;
    try (destruct H; discriminate).
Qed.

(** A grey button is not a disabled one: while no deploy is in flight a
    click still runs [handleSubmit], which (with a session) answers with
    the alert of the first failed check and sends nothing. *)
Theorem grey_button_click_alerts (st : FormState) (world : World)
    (token : string) :
  buttonGreyed st = true -> buttonDisabled st = false ->
  session world = getSession_resolves (Some token) -> token <> "" ->
  exists e,
    validate st = Some e
    /\ handleSubmit st world = (st, [alert (validationMessage e)]).
Proof.
  intros Hgrey Hdis Hs Ht. unfold buttonGreyed, buttonDisabled in *.
  rewrite FormFacts.existsb_not_complete, Hdis in Hgrey.
  assert (Hv : exists e, validate st = Some e).
  { unfold validate, truthy in *.
    destruct (String.eqb (pipelineName st) ""); [eauto|].
    destruct (String.eqb (githubUrl st) ""); [eauto|].
    destruct (forallb complete (secretPairs st)); [discriminate|eauto]. }
  destruct Hv as [e Hv]. exists e. split; [assumption|].
  now apply DeployFormFacts.handleSubmit_invalid with (token := token).
Qed.

Lemma grey_button_click_alerts_witness :
  exists e,
    validate Examples.unnamedForm = Some e
    /\ handleSubmit Examples.unnamedForm
         (Examples.signedIn (DeployForm.fetch_resolves 200))
       = (Examples.unnamedForm, [alert (validationMessage e)]).
Proof.
  apply (grey_button_click_alerts Examples.unnamedForm
           (Examples.signedIn (DeployForm.fetch_resolves 200)) "token-1");
    [reflexivity | reflexivity | reflexivity | discriminate].
Defined.

(** The API key selector plays no part in a deploy: whatever is chosen or
    generated there, a submission validates, sends and reports exactly
    what it would have without. *)
Theorem api_key_choice_not_submitted (choice publicRandom privateRandom : string)
    (st : FormState) (world : World) :
  snd (handleSubmit
         (handleApiKeyChange choice publicRandom privateRandom st) world)
  = snd (handleSubmit st world).
Proof.
  apply FormFacts.handleSubmit_trace_ext;
    unfold handleApiKeyChange, handleGenerateApiKey;
    destruct (String.eqb choice "generate");
    try destruct (String.eqb choice "No API Key"); reflexivity.
Qed.

(* ===================================================================== *)
(** * The smaller components *)
(* ===================================================================== *)

Module SplitFacts.
Import Js StringFacts.

Lemma split_not_nil (separator : ascii) (s : string) :
  split separator s <> [].
Proof.
  destruct s as [|c s]; simpl; [discriminate|].
  destruct (split separator s); [discriminate|].
  destruct (Ascii.eqb c separator); discriminate.
Qed.

(** Splitting around a separator splits both sides. *)
Lemma split_app (separator : ascii) (a b : string) :
  split separator (a +:+ String separator b)
  = (split separator a ++ split separator b)%list.
Proof.
  induction a as [|c a IH].
  - simpl. pose proof (split_not_nil separator b).
    destruct (split separator b) as [|piece pieces]; [contradiction|].
    now rewrite Ascii.eqb_refl.
  - change (String c a +:+ String separator b)
      with (String c (a +:+ String separator b)).
    simpl. rewrite IH.
    pose proof (split_not_nil separator a).
    destruct (split separator a) as [|piece pieces]; [contradiction|].
    simpl. now destruct (Ascii.eqb c separator).
Qed.

(** A string without the separator is one piece. *)
Lemma split_one_piece (separator : ascii) (s : string) :
  includes s (String separator EmptyString) = false ->
  split separator s = [s].
Proof.
  induction s as [|c s IH]; [reflexivity|].
  change (includes (String c s) (String separator EmptyString))
    with (String.prefix (String separator EmptyString) (String c s)
          || includes s (String separator EmptyString)).
  intros H. apply orb_false_elim in H as [Hc Hs].
  simpl. rewrite (IH Hs).
  simpl in Hc. destruct (ascii_dec separator c) as [->|Hne].
  - now destruct s.
  - destruct (Ascii.eqb_spec c separator); [congruence|reflexivity].
Qed.

Lemma pop_app {A : Type} (l1 l2 : list A) :
  l2 <> [] -> pop (l1 ++ l2)%list = pop l2.
Proof.
  intros H. induction l1 as [|x l1 IH]; [reflexivity|].
  simpl. rewrite IH.
  destruct (l1 ++ l2)%list eqn:E; [|reflexivity].
  apply app_eq_nil in E as [_ ->]. contradiction.
Qed.

Lemma append_assoc (a b c : string) : (a +:+ b) +:+ c = a +:+ (b +:+ c).
Proof.
  induction a as [|x a IH]; [reflexivity|].
  change (String x ((a +:+ b) +:+ c) = String x (a +:+ (b +:+ c))).
  now f_equal.
Qed.

Lemma string_take_min (n : nat) (s : string) :
  string_take (Nat.min n (String.length s)) s = string_take n s.
Proof.
  revert s. induction n as [|n IH]; intros [|c s]; simpl; auto.
  now rewrite IH.
Qed.

End SplitFacts.

Module ApiFacts.
Import Js PipelinesApi SplitFacts.

(** The token of a header is the first piece of what follows the first
    space, whatever word comes before it. *)
Lemma tokenOf_second_word (scheme rest : string) :
  includes scheme " " = false ->
  tokenOf (Some (scheme +:+ " " +:+ rest)) = hd_error (split " " rest).
Proof.
  intros H. unfold tokenOf.
  change (scheme +:+ " " +:+ rest) with (scheme +:+ String " " rest).
  rewrite split_app, (split_one_piece _ _ H). simpl.
  now destruct (split " " rest).
Qed.

(** A value that ends in a kept code unit has no trailing white space to
    strip. *)
Lemma strip_end_kept (prefix token : string) :
  token <> "" -> every_code_unit is_kept_in_header token = true ->
  strip_end (prefix +:+ token) = prefix +:+ token.
Proof.
  intros Hne Hkept.
  assert (Htoken : strip_end token = token /\ strip_end token <> "").
  { clear prefix. induction token as [|c token IH]; [contradiction|].
    cbn [every_code_unit] in Hkept. apply andb_prop in Hkept as [Hc Hrest].
    unfold is_kept_in_header in Hc. apply andb_prop in Hc as [Hc _].
    apply negb_true_iff in Hc.
    destruct token as [|d token].
    - simpl. rewrite Hc. split; [reflexivity | discriminate].
    - destruct (IH ltac:(discriminate) Hrest) as [E Hne'].
      change (strip_end (String c (String d token)))
        with (match strip_end (String d token) with
              | EmptyString =>
                  if is_http_whitespace c then EmptyString
                  else String c EmptyString
              | String _ _ as stripped => String c stripped
              end).
      rewrite E. split; [reflexivity | discriminate]. }
  destruct Htoken as [E Hne'].
  induction prefix as [|c prefix IH]; [exact E|].
  change (String c prefix +:+ token) with (String c (prefix +:+ token)).
  change (strip_end (String c (prefix +:+ token)))
    with (match strip_end (prefix +:+ token) with
          | EmptyString =>
              if is_http_whitespace c then EmptyString
              else String c EmptyString
          | String _ _ as stripped => String c stripped
          end).
  rewrite IH.
  destruct (prefix +:+ token) eqn:Eapp; [|reflexivity].
  destruct prefix; [|discriminate Eapp].
  change (EmptyString +:+ token) with token in Eapp. congruence.
Qed.

Lemma every_code_unit_append (test : ascii -> bool) (a b : string) :
  every_code_unit test (a +:+ b)
  = every_code_unit test a && every_code_unit test b.
Proof.
  induction a as [|c a IH]; [reflexivity|].
  change (String c a +:+ b) with (String c (a +:+ b)).
  cbn [every_code_unit]. now rewrite IH, andb_assoc.
Qed.

Lemma every_code_unit_impl (test1 test2 : ascii -> bool) (s : string) :
  (forall c, test1 c = true -> test2 c = true) ->
  every_code_unit test1 s = true -> every_code_unit test2 s = true.
Proof.
  intros Himp. induction s as [|c s IH]; [reflexivity|].
  cbn [every_code_unit]. intros H. apply andb_prop in H as [Hc Hs].
  now rewrite (Himp c Hc), IH.
Qed.

(** A token of kept code units has no space in it. *)
Lemma kept_no_space (token : string) :
  every_code_unit is_kept_in_header token = true ->
  includes token " " = false.
Proof.
  induction token as [|c token IH]; [reflexivity|].
  cbn [every_code_unit]. intros H. apply andb_prop in H as [Hc Hrest].
  change (includes (String c token) " ")
    with (String.prefix " " (String c token) || includes token " ").
  rewrite (IH Hrest), orb_false_r.
  destruct (String.prefix " " (String c token)) eqn:E; [exfalso|reflexivity].
  apply StringFacts.prefix_spec in E as [rest E].
  change (" " +:+ rest) with (String " " rest) in E.
  injection E as -> _. discriminate Hc.
Qed.

(** The header made of a token of kept code units is accepted as it is. *)
Lemma bearer_header_accepted (token : string) :
  token <> "" -> every_code_unit is_kept_in_header token = true ->
  normalizedHeaderValue ("Bearer " +:+ token) = "Bearer " +:+ token
  /\ validHeaderValue ("Bearer " +:+ token) = true.
Proof.
  intros Hne Hkept.
  assert (E : normalizedHeaderValue ("Bearer " +:+ token)
              = "Bearer " +:+ token).
  { unfold normalizedHeaderValue.
    change (strip_start ("Bearer " +:+ token)) with ("Bearer " +:+ token).
    now apply strip_end_kept. }
  split; [exact E|]. unfold validHeaderValue. rewrite E.
  rewrite every_code_unit_append. apply andb_true_intro. split;
    [reflexivity|].
  apply (every_code_unit_impl is_kept_in_header); [|exact Hkept].
  intros c Hc. unfold is_kept_in_header in Hc. now apply andb_prop in Hc.
Qed.

Lemma handler_token (authorization1 authorization2 : option string)
    (upstream : Upstream) :
  tokenOf authorization1 = tokenOf authorization2 ->
  handler authorization1 upstream = handler authorization2 upstream.
Proof. intros H. unfold handler. now rewrite H. Qed.

End ApiFacts.

Module VectorFacts.
Import Js VectorDBs StringFacts ArrayFacts.




Lemma includes_append_l (a b t : string) :
  includes a t = true -> includes (a +:+ b) t = true.
Proof.
  rewrite !includes_spec. intros (before & after & ->).
  exists before, (after +:+ b).
  clear. induction before as [|c before IH].
  - change (EmptyString +:+ t +:+ after) with (t +:+ after).
    change (EmptyString +:+ t +:+ after +:+ b) with (t +:+ after +:+ b).
    induction t as [|c t IH]; [reflexivity|].
    change ((String c t +:+ after) +:+ b
            = String c (t +:+ after +:+ b)).
    change (String c ((t +:+ after) +:+ b) = String c (t +:+ after +:+ b)).
    now f_equal.
  - change (String c ((before +:+ t +:+ after) +:+ b)
            = String c (before +:+ t +:+ after +:+ b)).
    now f_equal.
Qed.

Lemma includes_append_r (a b t : string) :
  includes b t = true -> includes (a +:+ b) t = true.
Proof.
  rewrite !includes_spec. intros (before & after & ->).
  exists (a +:+ before), after.
  induction a as [|c a IH]; [reflexivity|].
  change (String c (a +:+ before +:+ t +:+ after)
          = String c ((a +:+ before) +:+ t +:+ after)).
  now f_equal.
Qed.

Lemma includes_join (t : string) (parts : list string) :
  existsb (fun part => includes part t) parts = true ->
  includes (join "," parts) t = true.
Proof.
  induction parts as [|part parts IH]; [discriminate|].
  cbn [existsb]. intros H.
  destruct parts as [|next parts].
  - cbn [existsb] in H. rewrite orb_false_r in H. exact H.
  - change (join "," (part :: next :: parts))
      with (part +:+ "," +:+ join "," (next :: parts)).
    apply orb_prop in H as [H|H].
    + now apply includes_append_l.
    + apply includes_append_r, includes_append_r. now apply IH.
Qed.

(** The string of a value that does not convert would hold a bracket:
    the ["[object Object]"] of the object in it. *)
Lemma unconvertible_prints_bracket :
  forall v, convertible v = false -> includes (ToString v) "[" = true.
Proof.
  fix IH 1. intros [| |b|x|s|elements|properties]; try discriminate.
  - cbn [convertible ToString]. intros H. apply includes_join.
    induction elements as [|e elements IHl]; [discriminate|].
    cbn [forallb] in H. cbn [map existsb].
    destruct (convertible e) eqn:He.
    + rewrite (IHl H). apply orb_true_r.
    + pose proof (IH e He) as Hp.
      destruct e; try discriminate He; cbv iota; now rewrite Hp.
  - intros _. reflexivity.
Qed.

End VectorFacts.

Module NavigationFacts.
Import Js Navigation SplitFacts.

(** The last segment of a path that ends in a segment without a slash. *)
Lemma lastSegment_app (directory segment : string) :
  includes segment "/" = false ->
  lastSegment (directory +:+ "/" +:+ segment) = segment.
Proof.
  intros H. unfold lastSegment.
  change (directory +:+ "/" +:+ segment)
    with (directory +:+ String "/" segment).
  rewrite split_app, pop_app by apply split_not_nil.
  now rewrite (split_one_piece _ _ H).
Qed.

Lemma string_slice_first (s : string) (n : nat) :
  string_slice s 0 (Z.of_nat n) = string_take n s.
Proof.
  unfold string_slice, relative_index, string_length.
  destruct (Z.ltb_spec 0 0); [lia|].
  destruct (Z.ltb_spec (Z.of_nat n) 0); [lia|].
  replace (Z.to_nat (Z.min 0 (Z.of_nat (String.length s)))) with O by lia.
  replace (Z.to_nat (Z.max (Z.min (Z.of_nat n) (Z.of_nat (String.length s))
                            - Z.min 0 (Z.of_nat (String.length s))) 0))
    with (Nat.min n (String.length s)) by lia.
  simpl. apply string_take_min.
Qed.

End NavigationFacts.

(** The pipelines route answers 401, 200 or 400 and nothing else. It
    answers 401 exactly when it found no token, and then it has not
    called the upstream server; with a token that makes a header value
    [new Headers] rejects it answers 400, again without a call; otherwise
    it has called upstream once, with the normalized header. *)
Theorem handler_status_cases (authorization : option string)
    (upstream : PipelinesApi.Upstream) :
  (PipelinesApi.status (fst (PipelinesApi.handler authorization upstream)) = 401
   /\ snd (PipelinesApi.handler authorization upstream) = []
   /\ (PipelinesApi.tokenOf authorization = None
       \/ PipelinesApi.tokenOf authorization = Some ""))
  \/ (exists token,
        PipelinesApi.tokenOf authorization = Some token /\ token <> ""
        /\ validHeaderValue ("Bearer " +:+ token) = false
        /\ fst (PipelinesApi.handler authorization upstream)
           = PipelinesApi.somethingWentWrong
        /\ snd (PipelinesApi.handler authorization upstream) = [])
  \/ (exists token,
        PipelinesApi.tokenOf authorization = Some token /\ token <> ""
        /\ validHeaderValue ("Bearer " +:+ token) = true
        /\ snd (PipelinesApi.handler authorization upstream)
           = [PipelinesApi.GET_user_pipelines
                (normalizedHeaderValue ("Bearer " +:+ token))]
        /\ (PipelinesApi.status
              (fst (PipelinesApi.handler authorization upstream)) = 200
            \/ fst (PipelinesApi.handler authorization upstream)
               = PipelinesApi.somethingWentWrong)).
Proof.
  unfold PipelinesApi.handler.
  destruct (PipelinesApi.tokenOf authorization) as [[|c token]|].
  - left. simpl. auto.
  - right.
    destruct (validHeaderValue ("Bearer " +:+ String c token)) eqn:Hvalid.
    + right. exists (String c token). split; [reflexivity|].
      split; [discriminate|]. split; [exact Hvalid|].
      destruct upstream as [|upstreamStatus [json|]]; simpl; auto;
        destruct (PipelinesApi.ok upstreamStatus); simpl; auto.
    + left. exists (String c token). repeat split; auto; discriminate.
  - left. simpl. auto.
Qed.

(** The route answers 200 exactly when it found a token, [new Headers]
    accepts the header made of it, and the upstream server answered with
    a 2xx status and a body that parses; the body is then passed on
    unchanged. *)
Theorem handler_200_iff (authorization : option string)
    (upstream : PipelinesApi.Upstream) :
  (PipelinesApi.status (fst (PipelinesApi.handler authorization upstream))
   = 200
   <-> exists token upstreamStatus json,
         PipelinesApi.tokenOf authorization = Some token /\ token <> ""
         /\ validHeaderValue ("Bearer " +:+ token) = true
         /\ upstream = PipelinesApi.fetch_resolves upstreamStatus (Some json)
         /\ 200 <= upstreamStatus <= 299)
  /\ (forall upstreamStatus json,
        upstream = PipelinesApi.fetch_resolves upstreamStatus (Some json) ->
        PipelinesApi.status
          (fst (PipelinesApi.handler authorization upstream)) = 200 ->
        PipelinesApi.body (fst (PipelinesApi.handler authorization upstream))
        = PipelinesApi.forwarded json).
Proof.
  unfold PipelinesApi.handler, PipelinesApi.ok. split; [split|].
  - destruct (PipelinesApi.tokenOf authorization) as [[|c token]|];
      try (simpl; discriminate).
    destruct (validHeaderValue ("Bearer " +:+ String c token)) eqn:Hvalid;
      [|simpl; discriminate].
    destruct upstream as [|upstreamStatus [json|]]; try (simpl; discriminate).
    + destruct (Z.leb_spec 200 upstreamStatus),
        (Z.leb_spec upstreamStatus 299); try (simpl; discriminate).
      intros _. exists (String c token), upstreamStatus, json.
      repeat split; auto; discriminate.
    + destruct ((200 <=? upstreamStatus) && (upstreamStatus <=? 299));
        simpl; discriminate.
  - intros (token & upstreamStatus & json & -> & Ht & Hvalid & -> & Hok).
    destruct token as [|c token]; [contradiction|]. rewrite Hvalid.
    destruct (Z.leb_spec 200 upstreamStatus),
      (Z.leb_spec upstreamStatus 299); try lia.
    reflexivity.
  - intros upstreamStatus json ->.
    destruct (PipelinesApi.tokenOf authorization) as [[|c token]|];
      try (simpl; discriminate).
    destruct (validHeaderValue ("Bearer " +:+ String c token));
      [|simpl; discriminate].
    destruct ((200 <=? upstreamStatus) && (upstreamStatus <=? 299));
      [reflexivity | simpl; discriminate].
Qed.

Example line_feed_in_token_is_answered_400 :
  PipelinesApi.handler (Some ("Bearer a" +:+ String "010"%char "b"))
    (PipelinesApi.fetch_resolves 200 (Some (VArray [])))
  = (PipelinesApi.somethingWentWrong, []).
Proof. reflexivity. Qed.

(** A client that sends [Bearer <token>], the token not empty and made of
    code units a header keeps (no NUL, TAB, LF, CR or space), has one
    call made upstream, with exactly that header. *)
Theorem bearer_token_forwarded (token : string)
    (upstream : PipelinesApi.Upstream) :
  token <> "" -> every_code_unit is_kept_in_header token = true ->
  snd (PipelinesApi.handler (Some (PipelinesApi.bearerHeader token)) upstream)
  = [PipelinesApi.GET_user_pipelines ("Bearer " +:+ token)].
Proof.
  intros Hne Hkept. unfold PipelinesApi.handler, PipelinesApi.bearerHeader.
  change ("Bearer " +:+ token) with ("Bearer" +:+ " " +:+ token) at 1.
  rewrite ApiFacts.tokenOf_second_word by reflexivity.
  rewrite (SplitFacts.split_one_piece _ _ (ApiFacts.kept_no_space _ Hkept)).
  cbn [hd_error].
  destruct (ApiFacts.bearer_header_accepted token Hne Hkept) as [-> ->].
  destruct token as [|c token]; [contradiction|].
  destruct upstream as [|upstreamStatus [json|]]; try reflexivity;
    destruct (PipelinesApi.ok upstreamStatus); reflexivity.
Qed.

Lemma bearer_token_forwarded_witness :
  snd (PipelinesApi.handler
         (Some (PipelinesApi.bearerHeader "eyJhbGciOiJIUzI1NiJ9.e30.abc"))
         (PipelinesApi.fetch_resolves 200 (Some (VArray []))))
  = [PipelinesApi.GET_user_pipelines "Bearer eyJhbGciOiJIUzI1NiJ9.e30.abc"].
Proof.
  apply (bearer_token_forwarded "eyJhbGciOiJIUzI1NiJ9.e30.abc"
           (PipelinesApi.fetch_resolves 200 (Some (VArray []))));
    [discriminate | reflexivity].
Defined.

(** The route never looks at the word before the first space: any
    scheme is treated as [Bearer] is. *)
Theorem authorization_scheme_unchecked (scheme rest : string)
    (upstream : PipelinesApi.Upstream) :
  includes scheme " " = false ->
  PipelinesApi.handler (Some (scheme +:+ " " +:+ rest)) upstream
  = PipelinesApi.handler (Some (PipelinesApi.bearerHeader rest)) upstream.
Proof.
  intros H. apply ApiFacts.handler_token. unfold PipelinesApi.bearerHeader.
  change ("Bearer " +:+ rest) with ("Bearer" +:+ " " +:+ rest).
  now rewrite !ApiFacts.tokenOf_second_word.
Qed.

Lemma authorization_scheme_unchecked_witness :
  PipelinesApi.handler (Some ("Basic" +:+ " " +:+ "dXNlcjpwYXNz"))
    (PipelinesApi.fetch_resolves 200 (Some (VArray [])))
  = PipelinesApi.handler (Some (PipelinesApi.bearerHeader "dXNlcjpwYXNz"))
      (PipelinesApi.fetch_resolves 200 (Some (VArray []))).
Proof.
  apply (authorization_scheme_unchecked "Basic" "dXNlcjpwYXNz"
           (PipelinesApi.fetch_resolves 200 (Some (VArray [])))).
  reflexivity.
Defined.


Example type_with_own_toString_aborts_the_cards :
  VectorDBs.cards
    (VArray [ VObject [ ("id", VString "a");
                        ("type",
                         VObject [ ("toString", VNumber (number_of_Z 1)) ]) ] ])
  = Throw (TypeError "Cannot convert object to primitive value").
Proof. reflexivity. Qed.

(** An element gets a card exactly when it is an object whose [type] is
    the string "vector-db-provider" or, [==] being loose, an array that
    prints as that string. *)
Theorem isVectorDbProvider_iff (x : Value) :
  VectorDBs.isVectorDbProvider x = Normal true
  <-> exists properties,
        x = VObject properties
        /\ (Get properties "type" = VString "vector-db-provider"
            \/ exists elements,
                 Get properties "type" = VArray elements
                 /\ ToString (VArray elements) = "vector-db-provider").
Proof.
  unfold VectorDBs.isVectorDbProvider, VectorDBs.typeOf. split.
  - destruct x as [| |b|n|s|l|properties]; try discriminate.
    intros H. exists properties. split; [reflexivity|].
    unfold looselyEqualsString in H.
    destruct (Get properties "type") as [| |b|n|s|elements|p];
      try discriminate.
    + exfalso. injection H as H. destruct b; discriminate.
    + exfalso. injection H as H. unfold Number_equal, SFeqb in H.
      change (StringToNumber "vector-db-provider") with S754_nan in H.
      cbn [ToNumber] in H.
      destruct n as [?| ?| |? ? ?]; discriminate.
    + left. injection H as H. f_equal. now apply String.eqb_eq.
    + right. exists elements. split; [reflexivity|].
      destruct (convertible (VArray elements)); [|discriminate].
      injection H as H. now apply String.eqb_eq.
    + exfalso. destruct (convertible (VObject p)); [|discriminate].
      injection H as H. discriminate.
  - intros (properties & -> & [->|(elements & -> & E)]); [reflexivity|].
    unfold looselyEqualsString.
    destruct (convertible (VArray elements)) eqn:Hc.
    + rewrite E. reflexivity.
    + apply VectorFacts.unconvertible_prints_bracket in Hc.
      rewrite E in Hc. discriminate.
Qed.

(** Which items of the sub-navigation bar are highlighted: an item is,
    when the last segment of its path is among the page's path segments.
    On a pipeline route that is the empty string for the back arrow, the
    pipeline's id for Pipeline, and the page names for the other two; so
    on the retrievals page of a pipeline both Pipeline and Retrievals are
    highlighted. Off a pipeline route only Home is there. *)
Theorem active_items (pipelineId : string)
    (pathSegments : option (list string)) :
  pipelineId <> "" -> includes pipelineId "/" = false ->
  let among x :=
    includes_item (match pathSegments with Some l => l | None => [] end) x in
  Navigation.activeLabels true (Some pipelineId) pathSegments
  = ((if among "" then [Navigation.Back] else [])
     ++ (if among pipelineId then [Navigation.Pipeline] else [])
     ++ (if among "retrievals" then [Navigation.Retrievals] else [])
     ++ (if among "embeddings" then [Navigation.Embeddings] else []))%list
  /\ Navigation.activeLabels false (Some pipelineId) pathSegments
     = (if among "" then [Navigation.Home] else []).
Proof.
  intros Hne Hslash among.
  assert (E1 : Navigation.lastSegment ("/pipeline/" +:+ pipelineId)
               = pipelineId).
  { change ("/pipeline/" +:+ pipelineId)
      with ("/pipeline" +:+ "/" +:+ pipelineId).
    now apply NavigationFacts.lastSegment_app. }
  assert (E2 : Navigation.lastSegment
                 ("/pipeline/" +:+ pipelineId +:+ "/retrievals")
               = "retrievals").
  { change ("/pipeline/" +:+ pipelineId +:+ "/retrievals")
      with ("/pipeline/" +:+ (pipelineId +:+ ("/" +:+ "retrievals"))).
    rewrite <- SplitFacts.append_assoc.
    now apply NavigationFacts.lastSegment_app. }
  assert (E3 : Navigation.lastSegment
                 ("/pipeline/" +:+ pipelineId +:+ "/embeddings")
               = "embeddings").
  { change ("/pipeline/" +:+ pipelineId +:+ "/embeddings")
      with ("/pipeline/" +:+ (pipelineId +:+ ("/" +:+ "embeddings"))).
    rewrite <- SplitFacts.append_assoc.
    now apply NavigationFacts.lastSegment_app. }
  assert (E0 : Navigation.lastSegment "/" = EmptyString) by reflexivity.
  unfold Navigation.activeLabels, Navigation.isActive. split.
  - assert (Eitems : Navigation.navItems true (Some pipelineId)
                     = [ {| Navigation.path := "/";
                            Navigation.label := Navigation.Back |};
                         {| Navigation.path := "/pipeline/" +:+ pipelineId;
                            Navigation.label := Navigation.Pipeline |};
                         {| Navigation.path :=
                              "/pipeline/" +:+ pipelineId +:+ "/retrievals";
                            Navigation.label := Navigation.Retrievals |};
                         {| Navigation.path :=
                              "/pipeline/" +:+ pipelineId +:+ "/embeddings";
                            Navigation.label := Navigation.Embeddings |} ]).
    { destruct pipelineId; [contradiction | reflexivity]. }
    rewrite Eitems. cbn [List.filter Navigation.path].
    rewrite E0, E1, E2, E3.
    fold (among ""). fold (among pipelineId). fold (among "retrievals").
    fold (among "embeddings").
    destruct (among ""), (among pipelineId), (among "retrievals"),
      (among "embeddings"); reflexivity.
  - cbn [Navigation.navItems List.filter Navigation.path]. rewrite E0.
    fold (among ""). now destruct (among "").
Qed.

Lemma active_items_witness :
  Navigation.activeLabels true (Some "3f2a9c4e")
    (Some ["pipeline"; "3f2a9c4e"; "retrievals"])
  = [Navigation.Pipeline; Navigation.Retrievals]
  /\ Navigation.activeLabels false (Some "3f2a9c4e")
       (Some ["pipeline"; "3f2a9c4e"; "retrievals"])
     = [].
Proof.
  apply (active_items "3f2a9c4e"
           (Some ["pipeline"; "3f2a9c4e"; "retrievals"]));
    [discriminate | reflexivity].
Defined.

(** The workspace bar shows the pipeline panel for the last segment of
    the address: its first eight code units and an ellipsis, always; and
    no panel on the index page or when the address ends in a slash. *)
Theorem pipelinePanel_last_segment (pathname directory id : string) :
  includes id "/" = false ->
  Navigation.pipelinePanel pathname (directory +:+ "/" +:+ id)
  = if String.eqb pathname "/" || String.eqb id ""
    then None
    else Some (string_take 8 id +:+ "...").
Proof.
  intros H. unfold Navigation.pipelinePanel, Navigation.pipelineIdOf.
  rewrite (NavigationFacts.lastSegment_app directory id H).
  change 8 with (Z.of_nat 8). rewrite NavigationFacts.string_slice_first.
  destruct (String.eqb pathname "/"), (String.eqb id ""); reflexivity.
Qed.

Lemma pipelinePanel_last_segment_witness :
  Navigation.pipelinePanel "/pipeline/[pipelineId]"
    ("/pipeline" +:+ "/" +:+ "3f2a9c4e-77aa-4c1e-9d0b-5a1f6b7c8d9e")
  = Some "3f2a9c4e...".
Proof.
  exact (pipelinePanel_last_segment "/pipeline/[pipelineId]" "/pipeline"
           "3f2a9c4e-77aa-4c1e-9d0b-5a1f6b7c8d9e" eq_refl).
Defined.

(** Two updates of the pipeline store: the later one wins on the same id,
    an update that stores what is already there changes nothing, and
    updates of different ids can be made in either order, every lookup
    giving the same. *)
Theorem updatePipelines_compose (Pipeline : Type)
    (pipelines : gmap string Pipeline) (p q : string) (P Q : Pipeline) :
  updatePipelines p Q (updatePipelines p P pipelines)
  = updatePipelines p Q pipelines
  /\ (pipelines !! p = Some P -> updatePipelines p P pipelines = pipelines)
  /\ (p <> q ->
      forall k,
        updatePipelines p P (updatePipelines q Q pipelines) !! k
        = updatePipelines q Q (updatePipelines p P pipelines) !! k).
Proof.
  unfold updatePipelines, setPipeline, spread_with. split; [|split].
  - apply insert_insert_eq.
  - apply insert_id.
  - intros Hne k. now rewrite insert_insert_ne.
Qed.
